(** * PiBlock: the DNS filtering core, embedded in Rocq

    A shallow embedding of the Go sources of PiBlock (blocklist.go,
    userfilter.go, the configuration file, the three-argument
    StartDNSServer, the earlier front-ends of dnsserver.go and the
    identification of API clients), together with the properties that its
    specification states about them and further properties read off the
    code.

    Modelling conventions.
    - A Go [string] is a [string] of bytes.  The character functions of
      package [strings] are exact on ASCII text, which is what DNS names in
      presentation format and hosts files are; a byte above 0x7f is passed
      through unchanged.
    - A Go [int] counter is a [Z] that wraps around at 64 bits.
    - A call that can panic returns an [outcome].
    - A Go [map] is a [gmap] (or a [gset] when the values are [struct{}]);
      the unspecified order of [range] over a map is a [RangeOrder] argument.
    - The blocklist directory is a finite map from file names to nodes, and
      every function that touches the disk takes and returns it.
    - [net.ParseIP], which decides [isIPString], is not part of the
      repository; it is a parameter of the sections that need it. *)

From Stdlib Require Import ZArith NArith Ascii String List Bool Lia.
From stdpp Require Import base tactics option list strings gmap sorting.

Set Default Proof Using "Type".
Set Warnings "-clear-no-such-hyp".

(** ** Package [strings] *)

Module Strings.

Definition tab : ascii := "009"%char.
Definition lf : ascii := "010"%char.
Definition vt : ascii := "011"%char.
Definition ff : ascii := "012"%char.
Definition cr : ascii := "013"%char.
Definition sp : ascii := " "%char.

(** A character is a byte.  On text in ASCII the functions below are
    those of package [strings]; on other text Go decodes runes (it takes
    U+0085 and U+00A0 for white space, and lowers an invalid byte to
    U+FFFD), which is not modelled: a statement that depends on it is made
    of text in ASCII. *)

(** [unicode.IsSpace] on the ASCII range. *)
Definition isSpace (c : ascii) : bool :=
  Ascii.eqb c tab || Ascii.eqb c lf || Ascii.eqb c vt ||
  Ascii.eqb c ff || Ascii.eqb c cr || Ascii.eqb c sp.

Definition isUpper (c : ascii) : bool :=
  let n := N_of_ascii c in (65 <=? n)%N && (n <=? 90)%N.

Definition toLowerChar (c : ascii) : ascii :=
  if isUpper c then ascii_of_N (N_of_ascii c + 32) else c.

(** [strings.ToLower] on text in ASCII. *)
Fixpoint ToLower (s : string) : string :=
  match s with
  | EmptyString => EmptyString
  | String c s' => String (toLowerChar c) (ToLower s')
  end.

Fixpoint TrimLeftSpace (s : string) : string :=
  match s with
  | EmptyString => EmptyString
  | String c s' => if isSpace c then TrimLeftSpace s' else s
  end.

Fixpoint TrimRightSpace (s : string) : string :=
  match s with
  | EmptyString => EmptyString
  | String c s' =>
      match TrimRightSpace s' with
      | EmptyString => if isSpace c then EmptyString else String c EmptyString
      | r => String c r
      end
  end.

Definition TrimSpace (s : string) : string :=
  TrimRightSpace (TrimLeftSpace s).

Definition HasPrefix (s pre : string) : bool := String.prefix pre s.

Fixpoint HasSuffix (s suffix : string) : bool :=
  String.eqb s suffix ||
  match s with
  | EmptyString => false
  | String _ s' => HasSuffix s' suffix
  end.

(** [TrimSuffix s suffix] is [s] without the trailing [suffix], or [s]
    itself when it does not end in [suffix]. *)
Fixpoint TrimSuffix (s suffix : string) : string :=
  if String.eqb s suffix then EmptyString
  else match s with
       | EmptyString => EmptyString
       | String c s' => String c (TrimSuffix s' suffix)
       end.

(** [Index s sub]: the offset of the first [sub] in [s]; Go's [-1] is
    [None]. *)
Definition Index (s sub : string) : option nat := String.index 0 sub s.

(** The slice expression [s[:n]]. *)
Definition sliceTo (s : string) (n : nat) : string := String.substring 0 n s.

(** [FieldsFunc s f] splits [s] at every run of characters satisfying
    [f]; empty fields are not produced. *)
Fixpoint FieldsFunc (s : string) (f : ascii -> bool) : list string :=
  match s with
  | EmptyString => []
  | String c s' =>
      if f c then FieldsFunc s' f
      else match s' with
           | EmptyString => [String c EmptyString]
           | String c' _ =>
               if f c' then String c EmptyString :: FieldsFunc s' f
               else match FieldsFunc s' f with
                    | w :: ws => String c w :: ws
                    | [] => [String c EmptyString]
                    end
           end
  end.

Definition Fields (s : string) : list string := FieldsFunc s isSpace.

(** [ReplaceAll s old new]: the leftmost non-overlapping occurrences of
    [old] are replaced.  [skip] counts the characters of an occurrence
    still to be passed over.  With an empty [old] Go inserts [new] before
    every character and at the end. *)
Fixpoint replaceFrom (skip : nat) (s old new : string) : string :=
  match s with
  | EmptyString => EmptyString
  | String c s' =>
      match skip with
      | S k => replaceFrom k s' old new
      | O =>
          if String.prefix old s
          then new +:+ replaceFrom (String.length old - 1) s' old new
          else String c (replaceFrom 0 s' old new)
      end
  end.

Fixpoint intersperse (s new : string) : string :=
  match s with
  | EmptyString => new
  | String c s' => new +:+ String c (intersperse s' new)
  end.

Definition ReplaceAll (s old new : string) : string :=
  match old with
  | EmptyString => intersperse s new
  | _ => replaceFrom 0 s old new
  end.

End Strings.

(** ** Package [regexp], on the fragment that [patternToRegexp] produces *)

Module Regexp.

(** The characters that [regexp.QuoteMeta] escapes. *)
Definition special (c : ascii) : bool :=
  existsb (Ascii.eqb c) (list_ascii_of_string "\.+*?()|[]{}^$").

Fixpoint QuoteMeta (s : string) : string :=
  match s with
  | EmptyString => EmptyString
  | String c s' =>
      if special c then String "\"%char (String c (QuoteMeta s'))
      else String c (QuoteMeta s')
  end.

(** One-character matchers. [AnyNotNL] is the dot without the [s] flag:
    every character but a line feed. *)
Inductive atom : Type :=
| Lit (c : ascii)
| AnyNotNL.

(** A compiled expression is a concatenation of these. *)
Inductive node : Type :=
| One (a : atom)
| Star (a : atom)
| BeginText
| EndText.

Definition Regexp : Type := list node.

Definition isAlnum (c : ascii) : bool :=
  let n := N_of_ascii c in
  ((48 <=? n) && (n <=? 57) || (65 <=? n) && (n <=? 90) ||
   (97 <=? n) && (n <=? 122))%N.

(** A backslash followed by an ASCII character that is neither a letter
    nor a digit stands for that character. *)
Definition escapable (c : ascii) : bool :=
  (N_of_ascii c <? 128)%N && negb (isAlnum c).

(** [parse acc s]: [acc] holds the nodes read so far, last first.  The
    syntax outside the fragment (groups, classes, alternation, counted and
    non-greedy repetition, letter escapes) is answered with [None], as is
    every expression that [regexp.Compile] rejects. *)
Fixpoint parse (acc : list node) (s : string) : option Regexp :=
  match s with
  | EmptyString => Some (rev acc)
  | String c s' =>
      if Ascii.eqb c "\"%char then
        match s' with
        | EmptyString => None
        | String e s'' =>
            if escapable e then parse (One (Lit e) :: acc) s'' else None
        end
      else if Ascii.eqb c "."%char then parse (One AnyNotNL :: acc) s'
      else if Ascii.eqb c "*"%char then
        match acc with
        | One a :: acc' => parse (Star a :: acc') s'
        | _ => None
        end
      else if Ascii.eqb c "^"%char then parse (BeginText :: acc) s'
      else if Ascii.eqb c "$"%char then parse (EndText :: acc) s'
      else if special c then None
      else parse (One (Lit c) :: acc) s'
  end.

Definition Compile (expr : string) : option Regexp := parse [] expr.

Definition accepts (a : atom) (c : ascii) : bool :=
  match a with
  | Lit x => Ascii.eqb x c
  | AnyNotNL => negb (Ascii.eqb c Strings.lf)
  end.

(** [matchHere re atStart s]: some prefix of [s] matches [re];
    [atStart] tells whether [s] is the whole text. *)
Fixpoint matchHere (re : Regexp) (atStart : bool) (s : string) : bool :=
  match re with
  | [] => true
  | BeginText :: re' => atStart && matchHere re' atStart s
  | EndText :: re' => String.eqb s EmptyString && matchHere re' atStart s
  | One a :: re' =>
      match s with
      | EmptyString => false
      | String c s' => accepts a c && matchHere re' false s'
      end
  | Star a :: re' =>
      (fix star (atStart : bool) (s : string) {struct s} : bool :=
         matchHere re' atStart s ||
         match s with
         | EmptyString => false
         | String c s' => accepts a c && star false s'
         end) atStart s
  end.

Fixpoint searchFrom (re : Regexp) (atStart : bool) (s : string) : bool :=
  matchHere re atStart s ||
  match s with
  | EmptyString => false
  | String _ s' => searchFrom re false s'
  end.

(** [MatchString]: the text contains a match of the expression. *)
Definition MatchString (re : Regexp) (s : string) : bool :=
  searchFrom re true s.

End Regexp.

(** ** The wildcard patterns of the specification *)

Module Wildcard.

(** Modelled on the words of the specification: the pattern is matched
    against the whole name; a star matches any run of characters that all
    satisfy [run]; every other character of the pattern matches itself. *)
Fixpoint wildcardMatch (run : ascii -> bool) (p d : string) : bool :=
  match p with
  | EmptyString => String.eqb d EmptyString
  | String c p' =>
      if Ascii.eqb c "*"%char then
        (fix skip (d : string) {struct d} : bool :=
           wildcardMatch run p' d ||
           match d with
           | EmptyString => false
           | String x d' => run x && skip d'
           end) d
      else
        match d with
        | EmptyString => false
        | String x d' => Ascii.eqb c x && wildcardMatch run p' d'
        end
  end.

(** The pattern language as the specification words it: a star matches any
    sequence of characters, dots included. *)
Definition matchesAnySequence (p d : string) : bool :=
  wildcardMatch (fun _ => true) p d.

(** The pattern language that the compiled expressions decide: a star
    matches any sequence of characters other than line feeds. *)
Definition matchesWithinLine (p d : string) : bool :=
  wildcardMatch (fun x => negb (Ascii.eqb x Strings.lf)) p d.

End Wildcard.

(** ** The environment: range order, errors, the blocklist directory *)

(** The order in which a [range] statement visits the entries of a map. *)
Record RangeOrder : Type := {
  visit : forall A : Type, list A -> list A;
  visit_perm : forall (A : Type) (l : list A), visit A l ≡ₚ l
}.
Arguments visit _ {A} _.

Definition inOrder : RangeOrder :=
  {| visit := fun A l => l; visit_perm := fun A l => reflexivity l |}.


Inductive error : Type :=
| ErrNotExist
| ErrMissingArgument
| ErrFetch
| ErrStatus (code : Z)
| ErrIO.

Module FS.

(** A node of the blocklist directory: a subdirectory, or a regular file
    with its read and write permissions and its contents. *)
Inductive fileNode : Type :=
| Subdir
| File (canRead canWrite : bool) (data : string).

(** The directory: whether it can be listed, whether files can be created
    in it, its entries by name, and the room that the disk has for the file
    of each name: a write that makes the file longer than that fails
    ([None]: no write to the file fails).  A name is a file name: a path
    with a separator would lead out of the directory, which is all there is
    here.  Names are told apart by case, as the file systems of the Linux
    targets do. *)
Record Dir : Type := {
  canList : bool;
  canCreate : bool;
  entries : gmap string fileNode;
  room : string -> option nat
}.

Definition nameLe (a b : string * fileNode) : Prop := String.leb a.1 b.1 = true.

#[export] Instance nameLe_dec : RelDecision nameLe.
Proof. intros a b. unfold nameLe. apply _. Defined.

(** [os.ReadDir]: the entries sorted by file name, or an error. *)
Definition ReadDir (d : Dir) : option (list (string * fileNode)) :=
  if canList d then Some (merge_sort nameLe (map_to_list (entries d))) else None.

(** [os.Open] followed by reading everything.  Opening a directory
    succeeds and every read from it fails, which a scanner reports as no
    line at all: the result is the empty text. *)
Definition Open (d : Dir) (name : string) : option string :=
  match entries d !! name with
  | Some (File true _ data) => Some data
  | Some (File false _ _) => None
  | Some Subdir => Some EmptyString
  | None => None
  end.

(** [os.Create]: truncate the file, or create it empty.  The file is
    opened for reading and writing. *)
Definition Create (d : Dir) (name : string) : option Dir :=
  match entries d !! name with
  | Some (File true true _) =>
      Some {| canList := canList d; canCreate := canCreate d;
              entries := <[name := File true true EmptyString]> (entries d);
              room := room d |}
  | Some (File _ _ _) => None
  | Some Subdir => None
  | None =>
      if canCreate d
      then Some {| canList := canList d; canCreate := canCreate d;
                   entries := <[name := File true true EmptyString]> (entries d);
                   room := room d |}
      else None
  end.

(** The disk has room for the file [name] to hold [data]. *)
Definition fits (d : Dir) (name data : string) : bool :=
  match room d name with
  | None => true
  | Some n => (String.length data <=? n)%nat
  end.

(** What a write that fails leaves of [s] behind [data]: the part for
    which there was room. *)
Definition partOf (d : Dir) (name data s : string) : string :=
  match room d name with
  | None => s
  | Some n => String.substring 0 (n - String.length data) s
  end.

(** [f.WriteString] on a file that [Create] has just opened: the
    directory afterwards, and whether the write succeeded. *)
Definition WriteString (d : Dir) (name : string) (s : string) : Dir * bool :=
  match entries d !! name with
  | Some (File r w data) =>
      if fits d name (data +:+ s)
      then ({| canList := canList d; canCreate := canCreate d;
               entries := <[name := File r w (data +:+ s)]> (entries d);
               room := room d |}, true)
      else ({| canList := canList d; canCreate := canCreate d;
               entries := <[name := File r w (data +:+ partOf d name data s)]>
                            (entries d);
               room := room d |}, false)
  | _ => (d, false)
  end.

Inductive truncateResult : Type :=
| Truncated (d : Dir)
| TruncateNotExist
| TruncateFailed.

(** [os.Truncate name 0]. *)
Definition Truncate (d : Dir) (name : string) : truncateResult :=
  match entries d !! name with
  | Some (File r true _) =>
      Truncated {| canList := canList d; canCreate := canCreate d;
                   entries := <[name := File r true EmptyString]> (entries d);
                   room := room d |}
  | Some (File _ false _) => TruncateFailed
  | Some Subdir => TruncateFailed
  | None => TruncateNotExist
  end.

(** [filepath.Ext], on a file name (which has no separator): the suffix
    that starts at the last dot. *)
Fixpoint Ext (name : string) : string :=
  match name with
  | EmptyString => EmptyString
  | String c r =>
      match Ext r with
      | EmptyString => if Ascii.eqb c "."%char then name else EmptyString
      | e => e
      end
  end.

End FS.

(** ** blocklist.go *)

Module Blocklist.
Import Strings Regexp FS.

(** A single DNS query record of the recent log. *)
Record QueryEntry : Type := {
  Time : Z;
  Domain : string;
  Client : string;
  Blocked : bool
}.

Record BlocklistManager : Type := {
  dir : string;
  lists : gmap string (list string);
  compiled : list Regexp;
  queries : Z;
  blockedQueries : Z;
  domainHits : gmap string Z;
  allHits : gmap string Z;
  clientHits : gmap string Z;
  recent : list QueryEntry;
  recentCap : Z;
  logPath : string
}.

Definition normalizePattern (p : string) : string :=
  let p := TrimSpace p in
  let p := TrimSuffix p "." in
  let p := ToLower p in
  if String.eqb p "" || HasPrefix p "#" then EmptyString else p.

(** The source returns a pair of an expression and an error; its callers
    use the expression only when it is not nil and the error is nil, so
    the two failures ([nil, nil] for an empty pattern, and a compile
    error) are both [None] here. *)
Definition patternToRegexp (p : string) : option Regexp :=
  let p := normalizePattern p in
  if String.eqb p "" then None
  else
    let esc := QuoteMeta p in
    let esc := ReplaceAll esc "\*" ".*" in
    let full := "^" +:+ esc +:+ "$" in
    Compile full.

Definition isLocalHostName (s : string) : bool :=
  if String.eqb s "localhost" || String.eqb s "local" ||
     String.eqb s "broadcasthost" || String.eqb s "ip6-localhost" ||
     String.eqb s "ip6-loopback"
  then true
  else if HasPrefix s "ip6-" || HasPrefix s "ff" then true
  else false.

(** *** [bufio.Scanner] with the default split function and buffer *)

Definition maxScanTokenSize : N := 65536.

(** The text cut at every line feed; a last line needs no terminator. *)
Fixpoint splitLines (s : string) : list string :=
  match s with
  | EmptyString => []
  | String c s' =>
      if Ascii.eqb c lf then EmptyString :: splitLines s'
      else match splitLines s' with
           | l :: ls => String c l :: ls
           | [] => [String c EmptyString]
           end
  end.

(** The tokens that [Scan] delivers: each line without one trailing
    carriage return.  A line that does not fit the buffer ends the scan
    (the scanner's error is dropped by every caller). *)
Fixpoint scanTokens (ls : list string) : list string :=
  match ls with
  | [] => []
  | l :: ls' =>
      if (N.of_nat (String.length l) <? maxScanTokenSize)%N
      then TrimSuffix l (String cr EmptyString) :: scanTokens ls'
      else []
  end.

(** *** Compiling the lists *)

Definition compilePatterns (pats : list string) : list Regexp :=
  flat_map
    (fun p =>
       let p := TrimSpace p in
       if String.eqb p "" then []
       else match patternToRegexp p with
            | Some re => [re]
            | None => []
            end)
    pats.

Definition compileLists (o : RangeOrder)
    (ls : gmap string (list string)) : list Regexp :=
  flat_map (fun kv => compilePatterns kv.2) (visit o (map_to_list ls)).

Definition withLists (b : BlocklistManager)
    (ls : gmap string (list string)) (cs : list Regexp) : BlocklistManager :=
  {| dir := dir b; lists := ls; compiled := cs;
     queries := queries b; blockedQueries := blockedQueries b;
     domainHits := domainHits b; allHits := allHits b;
     clientHits := clientHits b; recent := recent b;
     recentCap := recentCap b; logPath := logPath b |}.

Section ReadLines.

(** [isIPString s] is [net.ParseIP(s) != nil]. *)
Variable isIPString : string -> bool.

Definition stripComment (line : string) : string :=
  match Index line "#" with
  | Some idx => sliceTo line idx
  | None => line
  end.

(** The inner loop of [readLines] over the host fields of a line. *)
Definition hostsOf (fields : list string) : list string :=
  flat_map
    (fun f =>
       let h := TrimSpace f in
       if String.eqb h "" then []
       else
         let n := normalizePattern h in
         if String.eqb n "" || isLocalHostName n || isIPString n then []
         else [n])
    fields.

Definition parseLine (line : string) : list string :=
  let line := TrimSpace (stripComment line) in
  if String.eqb line "" then []
  else
    let fields := Fields line in
    match fields with
    | [] => []
    | first :: rest =>
        if isIPString first
        then if (length fields <? 2)%nat then [] else hostsOf rest
        else hostsOf fields
    end.

(** [readLines]: the domains of a hosts-formatted or
    one-domain-per-line text. *)
Definition readLines (r : string) : list string :=
  flat_map parseLine (scanTokens (splitLines r)).

(** *** [LoadAll] *)

Definition loadEntry (acc : gmap string (list string))
    (e : string * fileNode) : gmap string (list string) :=
  match e.2 with
  | Subdir => acc
  | File canRead _ data =>
      if negb (HasSuffix (ToLower e.1) ".txt") then acc
      else if negb canRead then acc
      else <[TrimSuffix e.1 (Ext e.1) := readLines data]> acc
  end.

(** [LoadAll] reads every [.txt] file of the directory and compiles the
    patterns; on a directory that cannot be listed the manager is left
    as it was. *)
Definition LoadAll (o : RangeOrder) (d : Dir) (b : BlocklistManager)
    : BlocklistManager * option error :=
  match ReadDir d with
  | None => (b, Some ErrIO)
  | Some ents =>
      let ls := foldl loadEntry ∅ ents in
      (withLists b ls (compileLists o ls), None)
  end.

(** *** Editing a list *)

(** The counters are [int]s of 64 bits, as on the 64-bit targets; on a
    32-bit target they differ from these after 2^31 steps.  (The arithmetic
    of [ListDomains], whose operands come from a request, is modelled for
    both widths.) *)
Definition wrap64 (z : Z) : Z := ((z + 2 ^ 63) mod 2 ^ 64 - 2 ^ 63)%Z.
Definition incr (z : Z) : Z := wrap64 (z + 1).

(** One step of the loops that fill [set]: the normalized line is added
    when it is new, and counted. *)
Definition addNormalized (st : gset string * Z) (l : string)
    : gset string * Z :=
  let s := normalizePattern l in
  if String.eqb s "" then st
  else if bool_decide (s ∈ st.1) then st
  else ({[s]} ∪ st.1, incr st.2).

(** The loop over the lines of the existing file, which does not
    count. *)
Definition addExisting (set : gset string) (l : string) : gset string :=
  let s := normalizePattern l in
  if String.eqb s "" then set else {[s]} ∪ set.

(** [filepath.Join(b.dir, listName+".txt")] for a list name that is a file
    name: the entry of that name in the directory.  (For a name with a
    path separator the joined path is cleaned and names another entry, or
    a file outside the directory; the statements about list files are made
    for file names.) *)
Definition listPath (listName : string) : string := listName +:+ ".txt".

(** A loop that writes one line for each element of [ks] and returns at
    the first write that fails. *)
Fixpoint writeAll (d : Dir) (path : string) (ks : list string) : Dir * bool :=
  match ks with
  | [] => (d, true)
  | k :: ks' =>
      let '(d', ok) := WriteString d path (k +:+ String lf EmptyString) in
      if ok then writeAll d' path ks' else (d', false)
  end.

(** The write-back loop [for k := range set]. *)
Definition writeSet (o : RangeOrder) (d : Dir) (path : string)
    (set : gset string) : Dir * bool :=
  writeAll d path (visit o (elements set)).

(** The common tail of the two appending functions: write the set back
    and reload.  A write that fails ends the call with its error and the
    count; a failed reload is only logged. *)
Definition writeBackAndReload (o : RangeOrder) (d : Dir)
    (b : BlocklistManager) (path : string) (set : gset string) (added : Z)
    : (Z * option error) * Dir * BlocklistManager :=
  match Create d path with
  | None => ((0%Z, Some ErrIO), d, b)
  | Some d1 =>
      let '(d2, ok) := writeSet o d1 path set in
      if ok
      then ((added, None), d2, (LoadAll o d2 b).1)
      else ((added, Some ErrIO), d2, b)
  end.

(** The answer of [http.Client.Get]. *)
Inductive httpResult : Type :=
| GetFailed
| Fetched (status : Z) (body : string).

Definition AddFileToList (o : RangeOrder) (get : string -> httpResult)
    (d : Dir) (b : BlocklistManager)
    (listName url : string) (createIfMissing : bool)
    : (Z * option error) * Dir * BlocklistManager :=
  if String.eqb listName "" || String.eqb url ""
  then ((0%Z, Some ErrMissingArgument), d, b)
  else
    match get url with
    | GetFailed => ((0%Z, Some ErrFetch), d, b)
    | Fetched status body =>
        if ((status <? 200) || (status >=? 300))%Z
        then ((0%Z, Some (ErrStatus status)), d, b)
        else
          let newLines := readLines body in
          let path := listPath listName in
          let existing :=
            match Open d path with
            | Some text => Some (foldl addExisting ∅ (readLines text))
            | None => if createIfMissing then Some ∅ else None
            end in
          match existing with
          | None => ((0%Z, Some ErrNotExist), d, b)
          | Some set0 =>
              let '(set, added) := foldl addNormalized (set0, 0%Z) newLines in
              writeBackAndReload o d b path set added
          end
    end.

(** The separators of [AddItemsToList]. *)
Definition isItemSeparator (r : ascii) : bool :=
  Ascii.eqb r ","%char || Ascii.eqb r sp || Ascii.eqb r lf ||
  Ascii.eqb r cr || Ascii.eqb r tab.

Definition AddItemsToList (o : RangeOrder)
    (d : Dir) (b : BlocklistManager)
    (listName : string) (items : list string) (createIfMissing : bool)
    : (Z * option error) * Dir * BlocklistManager :=
  if String.eqb listName ""
  then ((0%Z, Some ErrMissingArgument), d, b)
  else
    let path := listPath listName in
    let existing :=
      match Open d path with
      | Some text => Some (foldl addExisting ∅ (readLines text))
      | None => if createIfMissing then Some ∅ else None
      end in
    match existing with
    | None => ((0%Z, Some ErrNotExist), d, b)
    | Some set0 =>
        let '(set, added) :=
          foldl (fun st it => foldl addNormalized st (FieldsFunc it isItemSeparator))
                (set0, 0%Z) items in
        writeBackAndReload o d b path set added
    end.

(** [NewBlocklistManager] on a directory that exists. *)
Definition NewBlocklistManager (o : RangeOrder) (dirName : string)
    (d : Dir) : option BlocklistManager :=
  if String.eqb dirName "" then None
  else
    let bm := {| dir := dirName; lists := ∅; compiled := [];
                 queries := 0; blockedQueries := 0;
                 domainHits := ∅; allHits := ∅; clientHits := ∅;
                 recent := []; recentCap := 500; logPath := "" |} in
    match LoadAll o d bm with
    | (bm, None) =>
        Some {| dir := dir bm; lists := lists bm; compiled := compiled bm;
                queries := queries bm; blockedQueries := blockedQueries bm;
                domainHits := domainHits bm; allHits := allHits bm;
                clientHits := clientHits bm; recent := recent bm;
                recentCap := recentCap bm; logPath := "logs.jsonl" |}
    | (_, Some _) => None
    end.

End ReadLines.

(** [IsBlocked]: the domain matches a compiled pattern. *)
Definition IsBlocked (b : BlocklistManager) (domain : string) : bool :=
  let d := TrimSuffix (ToLower (TrimSpace domain)) "." in
  existsb (fun re => MatchString re d) (compiled b).

(** *** Telemetry *)

Definition bump (m : gmap string Z) (k : string) : gmap string Z :=
  <[k := incr (default 0%Z (m !! k))]> m.

(** The recent log keeps its last [recentCap] entries ([recentCap] is 500
    in every manager that [NewBlocklistManager] makes). *)
Definition pushRecent (cap : Z) (r : list QueryEntry) (e : QueryEntry)
    : list QueryEntry :=
  let r := r ++ [e] in
  if (Z.of_nat (length r) >? cap)%Z
  then drop (Z.to_nat (Z.of_nat (length r) - cap)) r
  else r.

(** [RecordQueryWithClient], with the value of [time.Now] as an argument.
    The goroutine that appends the entry to the log file runs after the
    call has returned and is not part of this function. *)
Definition RecordQueryWithClient (now : Z) (b : BlocklistManager)
    (domain client : string) (blocked : bool) : BlocklistManager :=
  let entry := {| Time := now; Domain := domain; Client := client;
                  Blocked := blocked |} in
  {| dir := dir b; lists := lists b; compiled := compiled b;
     queries := incr (queries b);
     blockedQueries := if blocked then incr (blockedQueries b) else blockedQueries b;
     domainHits := if blocked then bump (domainHits b) domain else domainHits b;
     allHits := bump (allHits b) domain;
     clientHits := if String.eqb client "" then clientHits b
                   else bump (clientHits b) client;
     recent := pushRecent (recentCap b) (recent b) entry;
     recentCap := recentCap b; logPath := logPath b |}.

Definition clearRecent (b : BlocklistManager) : BlocklistManager :=
  {| dir := dir b; lists := lists b; compiled := compiled b;
     queries := queries b; blockedQueries := blockedQueries b;
     domainHits := domainHits b; allHits := allHits b;
     clientHits := clientHits b; recent := [];
     recentCap := recentCap b; logPath := logPath b |}.

(** [DeleteLogs].  [logPath] names the log file inside the directory. *)
Definition DeleteLogs (d : Dir) (b : BlocklistManager)
    : Dir * BlocklistManager * option error :=
  if negb (String.eqb (logPath b) "") then
    match Truncate d (logPath b) with
    | Truncated d' => (d', clearRecent b, None)
    | TruncateNotExist =>
        match Create d (logPath b) with
        | Some d' => (d', clearRecent b, None)
        | None => (d, clearRecent b, None)
        end
    | TruncateFailed => (d, b, Some ErrIO)
    end
  else (d, clearRecent b, None).

Record StatsSnapshot : Type := {
  Queries : Z;
  BlockedCount : Z;
  DomainHits : gmap string Z;
  ClientHits : gmap string Z
}.

Definition GetStats (b : BlocklistManager) : StatsSnapshot :=
  {| Queries := queries b; BlockedCount := blockedQueries b;
     DomainHits := domainHits b; ClientHits := clientHits b |}.

End Blocklist.

(** ** userfilter.go *)

Module UserFilter.
Import Strings Regexp Blocklist.

(** The cache of IP to MAC address bindings. *)
Definition IPToMACCache : Type := gmap string string.

Definition SetIPMAC (c : IPToMACCache) (ip mac : string) : IPToMACCache :=
  <[ip := mac]> c.

Definition GetMAC (c : IPToMACCache) (ip : string) : string * bool :=
  match c !! ip with
  | Some mac => (mac, true)
  | None => (EmptyString, false)
  end.

(** Of the account manager the resolver uses one query, the names of the
    lists that a device has enabled; [None] is a database error. *)
Record AccountManager : Type := {
  GetUserBlocklists : string -> option (list string)
}.

Definition matchesPattern (d pattern : string) : bool :=
  if String.eqb pattern "" then false
  else match patternToRegexp pattern with
       | Some re => MatchString re d
       | None => false
       end.

Definition IsBlockedForUser (bm : BlocklistManager)
    (domain macAddress : string) (am : AccountManager) : bool :=
  if String.eqb macAddress "" then false
  else
    match GetUserBlocklists am macAddress with
    | None => false
    | Some userLists =>
        if (length userLists =? 0)%nat then false
        else
          let d := TrimSuffix (ToLower (TrimSpace domain)) "." in
          existsb
            (fun listName =>
               match lists bm !! listName with
               | None => false
               | Some patterns => existsb (matchesPattern d) patterns
               end)
            userLists
    end.

Section ClientIP.

(** [net.SplitHostPort]; [None] is its error. *)
Variable SplitHostPort : string -> option (string * string).

Definition GetClientIP (addr : string) : string :=
  match SplitHostPort addr with
  | Some (host, _) => host
  | None => addr
  end.

End ClientIP.

End UserFilter.

(** ** The runtime configuration *)

Module Settings.

Record Config : Type := {
  Upstream : string;
  BlockingMode : string;
  BlockPageIP : string;
  BlockPagePort : Z
}.

(** The initial value of the global [AppConfig]. *)
Definition AppConfig : Config :=
  {| Upstream := "1.1.1.1:53"; BlockingMode := "redirect";
     BlockPageIP := ""; BlockPagePort := 9080 |}.

End Settings.

(** ** The DNS front-end: the handler that [StartDNSServer] installs *)

Module DNS.
Import Strings Blocklist UserFilter Settings.

(** The part of [github.com/miekg/dns] that the handler touches. *)
Definition TypeA : Z := 1.
Definition TypeANY : Z := 255.
Definition ClassINET : Z := 1.
Definition OpcodeQuery : Z := 0.
Definition RcodeSuccess : Z := 0.
Definition RcodeServerFailure : Z := 2.
Definition RcodeNameError : Z := 3.

Record Question : Type := {
  Name : string;
  Qtype : Z;
  Qclass : Z
}.

Record RR_Header : Type := {
  HdrName : string;
  Rrtype : Z;
  Class : Z;
  Ttl : Z
}.

(** The data of a record: the address that [net.ParseIP] makes of a text,
    or anything an upstream server has sent. *)
Inductive rdata : Type :=
| ParseIP (text : string)
| Received (bytes : string).

Record RR : Type := {
  Hdr : RR_Header;
  Rdata : rdata
}.

Record Msg : Type := {
  Id : Z;
  Response : bool;
  Opcode : Z;
  Authoritative : bool;
  RecursionDesired : bool;
  CheckingDisabled : bool;
  Rcode : Z;
  Questions : list Question;
  Answer : list RR
}.

(** The zero value [dns.Msg{}]. *)
Definition emptyMsg : Msg :=
  {| Id := 0; Response := false; Opcode := 0; Authoritative := false;
     RecursionDesired := false; CheckingDisabled := false; Rcode := 0;
     Questions := []; Answer := [] |}.

(** [SetReply] on the zero value. *)
Definition SetReply (m request : Msg) : Msg :=
  let isQuery := (Opcode request =? OpcodeQuery)%Z in
  {| Id := Id request; Response := true; Opcode := Opcode request;
     Authoritative := Authoritative m;
     RecursionDesired :=
       if isQuery then RecursionDesired request else RecursionDesired m;
     CheckingDisabled :=
       if isQuery then CheckingDisabled request else CheckingDisabled m;
     Rcode := RcodeSuccess;
     Questions := match Questions request with
                  | q :: _ => [q]
                  | [] => Questions m
                  end;
     Answer := Answer m |}.

Definition setAuthoritative (m : Msg) (v : bool) : Msg :=
  {| Id := Id m; Response := Response m; Opcode := Opcode m;
     Authoritative := v; RecursionDesired := RecursionDesired m;
     CheckingDisabled := CheckingDisabled m; Rcode := Rcode m;
     Questions := Questions m; Answer := Answer m |}.

Definition setRcode (m : Msg) (v : Z) : Msg :=
  {| Id := Id m; Response := Response m; Opcode := Opcode m;
     Authoritative := Authoritative m; RecursionDesired := RecursionDesired m;
     CheckingDisabled := CheckingDisabled m; Rcode := v;
     Questions := Questions m; Answer := Answer m |}.

Definition appendAnswer (m : Msg) (rrs : list RR) : Msg :=
  {| Id := Id m; Response := Response m; Opcode := Opcode m;
     Authoritative := Authoritative m; RecursionDesired := RecursionDesired m;
     CheckingDisabled := CheckingDisabled m; Rcode := Rcode m;
     Questions := Questions m; Answer := Answer m ++ rrs |}.

(** The outcome of [c.Exchange]: an error, or a reply that may be nil. *)
Inductive exchangeResult : Type :=
| ExchangeError
| Exchanged (resp : option Msg).

(** What the handler does to the outside, in order. *)
Inductive event : Type :=
| EvExchange (request : Msg) (upstream : string)
| EvRecord (domain client : string) (blocked : bool)
| EvWriteMsg (reply : Msg).

(** What the handler finds outside while it serves one message:
    [remoteAddr] is [w.RemoteAddr()], nil or its text; [exchange n] is the
    outcome of the exchange for the question at index [n], and [clock n]
    the time at which that question is recorded. *)
Record World : Type := {
  remoteAddr : option string;
  exchange : nat -> exchangeResult;
  clock : nat -> Z
}.

Section Handler.

Variable SplitHostPort : string -> option (string * string).
(** The globals [AppConfig] and [ipMACCache], and the account manager
    that [StartDNSServer] was given (nil or not). *)
Variable config : Config.
Variable ipMACCache : IPToMACCache.
Variable am : option AccountManager.
Variable w : World.

Definition clientAddrOf : string :=
  match remoteAddr w with
  | Some ra => ra
  | None => "unknown"
  end.

(** The name without its final dot. *)
Definition matchName (q : Question) : string := TrimSuffix (Name q) ".".

(** The decision [blocked] for one question. *)
Definition isBlockedFor (bm : BlocklistManager) (name : string) : bool :=
  let clientIP := GetClientIP SplitHostPort clientAddrOf in
  let macAddress := (GetMAC ipMACCache clientIP).1 in
  match am with
  | Some a =>
      if negb (String.eqb macAddress "")
      then IsBlockedForUser bm name macAddress a
      else IsBlocked bm name
  | None => IsBlocked bm name
  end.

Definition addressRecord (q : Question) (ttl : Z) (target : string) : RR :=
  {| Hdr := {| HdrName := Name q; Rrtype := TypeA; Class := ClassINET;
               Ttl := ttl |};
     Rdata := ParseIP target |}.

Definition wantsAddress (q : Question) : bool :=
  ((Qtype q =? TypeA) || (Qtype q =? TypeANY))%Z.

(** The [switch AppConfig.BlockingMode] of the blocked branch. *)
Definition blockReply (q : Question) (msg : Msg) : Msg :=
  if String.eqb (BlockingMode config) "redirect" then
    let target := if String.eqb (BlockPageIP config) ""
                  then "127.0.0.1" else BlockPageIP config in
    if wantsAddress q then appendAnswer msg [addressRecord q 60 target]
    else msg
  else if String.eqb (BlockingMode config) "nx" then
    setRcode msg RcodeNameError
  else
    if wantsAddress q then appendAnswer msg [addressRecord q 0 "0.0.0.0"]
    else msg.

Definition upstreamOf : string :=
  if String.eqb (Upstream config) "" then "1.1.1.1:53" else Upstream config.

Definition forwardReply (n : nat) (msg : Msg) : Msg :=
  match exchange w n with
  | Exchanged (Some resp) => appendAnswer msg (Answer resp)
  | _ => msg
  end.

(** The loop over the questions of [r], from the question at index [n],
    and the [WriteMsg] that follows it. *)
Fixpoint serve (r : Msg) (qs : list Question) (n : nat) (msg : Msg)
    (bm : BlocklistManager) : BlocklistManager * list event :=
  match qs with
  | [] => (bm, [EvWriteMsg msg])
  | q :: qs' =>
      let name := matchName q in
      if isBlockedFor bm name then
        let msg' := blockReply q msg in
        let bm' := RecordQueryWithClient (clock w n) bm name clientAddrOf true in
        (bm', [EvRecord name clientAddrOf true; EvWriteMsg msg'])
      else
        let msg' := forwardReply n msg in
        let bm' := RecordQueryWithClient (clock w n) bm name clientAddrOf false in
        let '(bm'', tr) := serve r qs' (S n) msg' bm' in
        (bm'', EvExchange r upstreamOf :: EvRecord name clientAddrOf false :: tr)
  end.

(** The handler: the manager afterwards and what was done. *)
Definition handle (r : Msg) (bm : BlocklistManager)
    : BlocklistManager * list event :=
  let msg := setAuthoritative (SetReply emptyMsg r) true in
  serve r (Questions r) 0 msg bm.

End Handler.

End DNS.

(** ** Definitions used by the statements *)

Module Statements.
Import Strings Regexp Wildcard FS Blocklist.

(** The name that [IsBlocked] matches: trimmed, lowercased, without one
    final dot. *)
Definition normalizedName (domain : string) : string :=
  TrimSuffix (ToLower (TrimSpace domain)) ".".

(** The expression that a normalized pattern compiles to. *)
Definition nodeOf (c : ascii) : node :=
  if Ascii.eqb c "*"%char then Star AnyNotNL else One (Lit c).

Fixpoint nodesOf (p : string) : list node :=
  match p with
  | EmptyString => []
  | String c p' => nodeOf c :: nodesOf p'
  end.

Definition anchored (p : string) : Regexp :=
  BeginText :: nodesOf p ++ [EndText].

(** The text of that expression between the anchors. *)
Fixpoint wildExpr (p : string) : string :=
  match p with
  | EmptyString => EmptyString
  | String c p' =>
      if Ascii.eqb c "*"%char then String "."%char (String "*"%char (wildExpr p'))
      else if special c then String "\"%char (String c (wildExpr p'))
      else String c (wildExpr p')
  end.

(** *** Characters and tokens *)

(** A text is [trimmedLeft] when it does not start with a space. *)
Definition trimmedLeft (s : string) : Prop :=
  match s with
  | EmptyString => True
  | String c _ => isSpace c = false
  end.

(** Every character of [s] satisfies [p]. *)
Fixpoint allChars (p : ascii -> bool) (s : string) : bool :=
  match s with
  | EmptyString => true
  | String c s' => p c && allChars p s'
  end.

Definition isNot (x : ascii) (c : ascii) : bool := negb (Ascii.eqb c x).

(** Neither a space nor the comment sign. *)
Definition plainChar (c : ascii) : bool :=
  negb (isSpace c) && isNot "#"%char c.

(** Short enough for the buffer of the scanner. *)
Definition short (s : string) : bool :=
  (N.of_nat (String.length s) <? maxScanTokenSize)%N.

(** A token: a text that, written on a line of its own, is read back by
    [readLines] as the single field of that line. *)
Definition isToken (k : string) : bool :=
  negb (String.eqb k "") && allChars plainChar k && short k.

(** *** The round trip of [AddItemsToList] *)

(** What [readLines] makes of a line that holds the single token [k]. *)
Definition survivors (isIPString : string -> bool) (k : string) : list string :=
  if isIPString k then []
  else
    let n := normalizePattern k in
    if String.eqb n "" || isLocalHostName n || isIPString n then [] else [n].

(** The text of a file with one line for each element of [ks]. *)
Definition linesOf (ks : list string) : string :=
  foldr (fun k rest => k +:+ String lf rest) EmptyString ks.






(** A list name that is a file name: it holds no path separator (a slash,
    or a backslash, which separates on Windows). *)
Definition isFileName (name : string) : bool :=
  allChars (fun c => isNot "/"%char c && isNot "\"%char c) name.

(** Text in ASCII: on it the functions of package [strings] are the ones
    of module [Strings], and a character is a byte. *)
Definition isASCII (c : ascii) : bool := (N_of_ascii c <? 128)%N.

Definition asciiText (s : string) : Prop := allChars isASCII s = true.


(** The disk has room for the file of list [L] to hold [text]: no write
    of the loop that fills the file with it fails. *)
Definition roomFor (d : Dir) (L : string) (text : string) : Prop :=
  fits d (listPath L) text = true.

(** The file of list [L] can take the new contents: it is absent from a
    directory in which files can be created, or it is a file that can be
    read and written. *)
Definition listFileUsable (d : Dir) (L : string) : Prop :=
  match entries d !! listPath L with
  | None => canCreate d = true
  | Some (File true true _) => True
  | Some _ => False
  end.

(** The extensions that [LoadAll] takes for [.txt]. *)
Definition isTxt (ext : string) : Prop :=
  exists e1 e2 e3,
    ext = String "."%char (String e1 (String e2 (String e3 EmptyString))) /\
    (e1 = "t"%char \/ e1 = "T"%char) /\ (e2 = "x"%char \/ e2 = "X"%char) /\
    (e3 = "t"%char \/ e3 = "T"%char).


(** A rule of a list blocks a name, as the code decides it: the rule is
    normalized once more, must not have become empty, and is matched as a
    wildcard pattern whose stars stay within a line. *)
Definition ruleBlocks (rule domain : string) : bool :=
  let p := normalizePattern rule in
  negb (String.eqb p "") && matchesWithinLine p (normalizedName domain).

(** The manager that holds the lists [ls] and their compilation: what
    [LoadAll] installs. *)
Definition loaded (o : RangeOrder) (b : BlocklistManager)
    (ls : gmap string (list string)) : BlocklistManager :=
  withLists b ls (compileLists o ls).

(** A manager with nothing loaded and nothing counted. *)
Definition idle : BlocklistManager :=
  {| dir := "blocklist"; lists := ∅; compiled := [];
     queries := 0; blockedQueries := 0;
     domainHits := ∅; allHits := ∅; clientHits := ∅;
     recent := []; recentCap := 500; logPath := "logs.jsonl" |}.

(** Some rule of some list satisfies [holds]. *)
Definition someRule (ls : gmap string (list string))
    (holds : string -> Prop) : Prop :=
  exists (name : string) (pats : list string) (rule : string),
    ls !! name = Some pats /\ rule ∈ pats /\ holds rule.

(** *** The trace of the handler *)

Import UserFilter Settings DNS.

Definition replies (tr : list event) : list Msg :=
  flat_map (fun e => match e with EvWriteMsg m => [m] | _ => [] end) tr.

Definition isRecord (e : event) : bool :=
  match e with EvRecord _ _ _ => true | _ => false end.

Definition isReply (e : event) : bool :=
  match e with EvWriteMsg _ => true | _ => false end.

Definition countRecords (tr : list event) : nat :=
  length (List.filter isRecord tr).

(** The events that follow the first reply. *)
Fixpoint afterReply (tr : list event) : list event :=
  match tr with
  | [] => []
  | e :: tr' => if isReply e then tr' else afterReply tr'
  end.

(** The reply is a synthesized block response: a question was recorded
    as blocked. *)
Definition synthesized (tr : list event) : bool :=
  existsb (fun e => match e with EvRecord _ _ true => true | _ => false end) tr.

Definition answersOf (x : exchangeResult) : list RR :=
  match x with
  | Exchanged (Some resp) => Answer resp
  | _ => []
  end.

(** The records that the exchanges [n], ..., [n + k - 1] return. *)
Definition forwardedAnswers (w : World) (n k : nat) : list RR :=
  flat_map (fun i => answersOf (exchange w i)) (seq n k).

(** The number of questions in front of the first blocked one. *)
Fixpoint allowedPrefix (blocked : Question -> bool) (qs : list Question) : nat :=
  match qs with
  | [] => 0
  | q :: qs' => if blocked q then 0 else S (allowedPrefix blocked qs')
  end.

(** The message that the handler sends when it started the loop at
    question [n] with [msg]. *)
Definition finalReply (blocked : Question -> bool) (config : Config)
    (w : World) (qs : list Question) (n : nat) (msg : Msg) : Msg :=
  let k := allowedPrefix blocked qs in
  let m := appendAnswer msg (forwardedAnswers w n k) in
  match drop k qs with
  | [] => m
  | q :: _ => blockReply config q m
  end.

(** The ninth claim as the specification words it: one record, and it
    follows the reply. *)
Definition recordedOnceAfterReply (tr : list event) : Prop :=
  countRecords tr = 1 /\ countRecords (afterReply tr) = 1.

(** The fourth claim as the specification words it: the reply is
    authoritative exactly when it is a synthesized block response. *)
Definition authoritativeIffSynthesized (tr : list event) : Prop :=
  forall m, In m (replies tr) -> Authoritative m = synthesized tr.

(** The second claim as the specification words it: the reply carries
    the code NXDOMAIN and no answer. *)
Definition repliesNameError (tr : list event) : Prop :=
  forall m, In m (replies tr) -> Rcode m = RcodeNameError /\ Answer m = [].

(** *** Sample data for the examples *)

(** A host and a port separated by the last colon, which is how
    [net.SplitHostPort] reads an address without brackets. *)
Fixpoint splitAtLastColon (hostport : string) : option (string * string) :=
  match hostport with
  | EmptyString => None
  | String c rest =>
      match splitAtLastColon rest with
      | Some (host, port) => Some (String c host, port)
      | None => if Ascii.eqb c ":"%char then Some (EmptyString, rest) else None
      end
  end.

(** One list, [ads], with the single rule [ads.example.com]. *)
Definition adsManager : BlocklistManager :=
  loaded inOrder idle {["ads" := ["ads.example.com"]]}.

Definition addressQuery (name : string) : Msg :=
  {| Id := 4660; Response := false; Opcode := OpcodeQuery;
     Authoritative := false; RecursionDesired := true;
     CheckingDisabled := false; Rcode := 0;
     Questions := [{| Name := name; Qtype := TypeA; Qclass := ClassINET |}];
     Answer := [] |}.

Definition upstreamDown : World :=
  {| remoteAddr := Some "192.168.1.20:40000";
     exchange := fun _ => ExchangeError;
     clock := fun n => Z.of_nat n |}.

Definition upstreamReply : Msg :=
  {| Id := 4660; Response := true; Opcode := OpcodeQuery;
     Authoritative := false; RecursionDesired := true;
     CheckingDisabled := false; Rcode := 0;
     Questions := [{| Name := "example.org."; Qtype := TypeA; Qclass := ClassINET |}];
     Answer := [{| Hdr := {| HdrName := "example.org."; Rrtype := TypeA;
                             Class := ClassINET; Ttl := 300 |};
                   Rdata := Received "93.184.216.34" |}] |}.

Definition upstreamUp : World :=
  {| remoteAddr := Some "192.168.1.20:40000";
     exchange := fun _ => Exchanged (Some upstreamReply);
     clock := fun n => Z.of_nat n |}.

Definition withMode (mode : string) : Config :=
  {| Upstream := "1.1.1.1:53"; BlockingMode := mode;
     BlockPageIP := "192.168.1.10"; BlockPagePort := 9080 |}.

(** The third claim as the specification words it: a client without a
    binding never gets a synthesized block response. *)
Definition unboundNeverBlocked
    (SplitHostPort : string -> option (string * string))
    (ipMACCache : IPToMACCache) (w : World) (tr : list event) : Prop :=
  ipMACCache !! GetClientIP SplitHostPort (clientAddrOf w) = None ->
  synthesized tr = false.

(** The literals of IPv4 in dotted decimal: the part of [net.ParseIP]
    that the examples use. *)
Definition isDigit (c : ascii) : bool :=
  let n := N_of_ascii c in (48 <=? n)%N && (n <=? 57)%N.

Fixpoint splitDots (s : string) : list string :=
  match s with
  | EmptyString => [EmptyString]
  | String c s' =>
      if Ascii.eqb c "."%char then EmptyString :: splitDots s'
      else match splitDots s' with
           | l :: ls => String c l :: ls
           | [] => [String c EmptyString]
           end
  end.

Definition decimalValue (s : string) : N :=
  fold_left (fun v c => (10 * v + (N_of_ascii c - 48))%N)
            (list_ascii_of_string s) 0%N.

Definition isOctet (s : string) : bool :=
  match s with
  | EmptyString => false
  | String c EmptyString => isDigit c
  | String c _ =>
      negb (Ascii.eqb c "0"%char) &&
      forallb isDigit (list_ascii_of_string s) &&
      (String.length s <=? 3)%nat && (decimalValue s <=? 255)%N
  end.

Definition isIPv4Literal (s : string) : bool :=
  match splitDots s with
  | [a; b; c; d] => isOctet a && isOctet b && isOctet c && isOctet d
  | _ => false
  end.

(** A directory that can be listed and written, with no entry. *)
Definition emptyDir : Dir :=
  {| canList := true; canCreate := true; entries := ∅; room := fun _ => None |}.

(** The answers of the network in the examples. *)
Definition unreachable (url : string) : httpResult := GetFailed.
Definition serving (body : string) (url : string) : httpResult := Fetched 200 body.

(** The fetch did not deliver a body: it failed, or the status is outside
    200..299. *)
Definition fetchFailed (res : httpResult) : Prop :=
  match res with
  | GetFailed => True
  | Fetched status _ => (status < 200 \/ 300 <= status)%Z
  end.

(** The seventh claim as the specification words it, first half: a
    missing list file makes the call fail with [ErrNotExist]. *)
Definition missingListIsNotFound (isIPString : string -> bool)
    (o : RangeOrder) (get : string -> httpResult) (d : Dir)
    (b : BlocklistManager) (listName url : string) : Prop :=
  Open d (listPath listName) = None ->
  (AddFileToList isIPString o get d b listName url false).1.1.2 = Some ErrNotExist.

(** A directory with the one list file [ads.txt], and items for it. *)
Definition adsDir : Dir :=
  {| canList := true; canCreate := true;
     entries := {["ads.txt" := File true true ("tracker.example" +:+ String lf "")]};
     room := fun _ => None |}.


(** The first claim as the specification words it: a rule is read as it
    stands, and a star matches any sequence of characters. *)
Definition blockedIffSomeRuleMatches (o : RangeOrder) (b : BlocklistManager)
    (ls : gmap string (list string)) (domain : string) : Prop :=
  IsBlocked (loaded o b ls) domain = true <->
  someRule ls (fun rule => matchesAnySequence rule (normalizedName domain) = true).

End Statements.

(** ** The rest of blocklist.go *)

Module BlocklistRest.
Import Strings Regexp FS Blocklist.

(** [strings.Contains]. *)
Definition Contains (s substr : string) : bool :=
  match Index s substr with
  | Some _ => true
  | None => false
  end.

(** What a call comes to: a result, or a run-time panic. *)
Inductive outcome (A : Type) : Type :=
| Returned (a : A)
| Panicked.
Arguments Returned {A} a.
Arguments Panicked {A}.

(** The values of an [int]. *)
Definition isInt (z : Z) : Prop := (- 2 ^ 63 <= z < 2 ^ 63)%Z.

(** The width of an [int] in bits: 64, or 32 on a 32-bit target such as
    the armv7 of build_all.sh. *)
Definition isWidth (bits : Z) : Prop := bits = 32%Z \/ bits = 64%Z.

(** The values of an [int] of that width, and the sum of two of them. *)
Definition isIntOf (bits z : Z) : Prop :=
  (- 2 ^ (bits - 1) <= z < 2 ^ (bits - 1))%Z.

Definition wrapTo (bits z : Z) : Z :=
  ((z + 2 ^ (bits - 1)) mod 2 ^ bits - 2 ^ (bits - 1))%Z.

(** [RecordQuery]: the variant without a client address. *)
Definition RecordQuery (now : Z) (b : BlocklistManager)
    (domain : string) (blocked : bool) : BlocklistManager :=
  let entry := {| Time := now; Domain := domain; Client := EmptyString;
                  Blocked := blocked |} in
  {| dir := dir b; lists := lists b; compiled := compiled b;
     queries := incr (queries b);
     blockedQueries := if blocked then incr (blockedQueries b) else blockedQueries b;
     domainHits := if blocked then bump (domainHits b) domain else domainHits b;
     allHits := bump (allHits b) domain;
     clientHits := clientHits b;
     recent := pushRecent (recentCap b) (recent b) entry;
     recentCap := recentCap b; logPath := logPath b |}.

(** [GetLogs]: the last [limit] entries of the recent log, oldest first;
    all of them when [limit] is not positive or too large. *)
Definition GetLogs (b : BlocklistManager) (limit : Z) : list QueryEntry :=
  let n := Z.of_nat (length (recent b)) in
  let limit := if ((limit <=? 0) || (limit >? n))%Z then n else limit in
  take (Z.to_nat limit) (drop (Z.to_nat (n - limit)) (recent b)).

(** [ListDomains]: a page of the rules of a list that contain [q], on a
    target whose [int] has [bits] bits.  The slice expression at its end
    panics when its upper bound is below the lower one. *)
Definition ListDomains (bits : Z) (b : BlocklistManager) (listName : string)
    (offset limit : Z) (q : string)
    : outcome (Z * list string * option error) :=
  match lists b !! listName with
  | None => Returned (0%Z, [], Some ErrNotExist)
  | Some arr =>
      let lowerQ := ToLower (TrimSpace q) in
      let filtered :=
        if String.eqb lowerQ "" then arr
        else List.filter (fun d => Contains d lowerQ) arr in
      let total := Z.of_nat (length filtered) in
      let offset := if (offset <? 0)%Z then 0%Z else offset in
      let limit := if (limit <=? 0)%Z then 100%Z else limit in
      if (offset >=? total)%Z then Returned (total, [], None)
      else
        let upper := wrapTo bits (offset + limit) in
        let upper := if (upper >? total)%Z then total else upper in
        if (upper <? offset)%Z then Panicked
        else Returned (total,
                       take (Z.to_nat (upper - offset))
                            (drop (Z.to_nat offset) filtered),
                       None)
  end.

Section Store.

Variable isIPString : string -> bool.

(** The loop of [RemoveDomain] over the rules of the list: the rules that
    stay, and whether one was dropped. *)
Definition removeStep (norm : string) (st : list string * bool) (d : string)
    : list string * bool :=
  if String.eqb d norm then (st.1, true) else (st.1 ++ [d], st.2).

Definition RemoveDomain (o : RangeOrder) (d : Dir) (b : BlocklistManager)
    (listName domain : string)
    : (bool * option error) * Dir * BlocklistManager :=
  if String.eqb listName "" || String.eqb domain ""
  then ((false, Some ErrMissingArgument), d, b)
  else
    match lists b !! listName with
    | None => ((false, Some ErrNotExist), d, b)
    | Some arr =>
        let norm := normalizePattern domain in
        let '(newArr, removed) := foldl (removeStep norm) ([], false) arr in
        if negb removed then ((false, None), d, b)
        else
          let path := listPath listName in
          match Create d path with
          | None => ((false, Some ErrIO), d, b)
          | Some d1 =>
              let '(d2, ok) := writeAll d1 path newArr in
              if ok then
                let '(b', err) := LoadAll isIPString o d2 b in
                ((true, err), d2, b')
              else ((false, Some ErrIO), d2, b)
          end
    end.

(** The write loop of [ReplaceListFromURL]: empty lines are passed over,
    the others are written and counted; the loop returns at the first
    write that fails, with the count so far. *)
Fixpoint writeCounted (d : Dir) (path : string) (ls : list string)
    (written : Z) : Dir * Z * bool :=
  match ls with
  | [] => (d, written, true)
  | l :: ls' =>
      if String.eqb l "" then writeCounted d path ls' written
      else
        let '(d', ok) := WriteString d path (l +:+ String lf EmptyString) in
        if ok then writeCounted d' path ls' (incr written)
        else (d', written, false)
  end.

Definition ReplaceListFromURL (o : RangeOrder) (get : string -> httpResult)
    (d : Dir) (b : BlocklistManager) (listName url : string)
    : (Z * option error) * Dir * BlocklistManager :=
  if String.eqb listName "" || String.eqb url ""
  then ((0%Z, Some ErrMissingArgument), d, b)
  else
    match get url with
    | GetFailed => ((0%Z, Some ErrFetch), d, b)
    | Fetched status body =>
        if ((status <? 200) || (status >=? 300))%Z
        then ((0%Z, Some (ErrStatus status)), d, b)
        else
          let newLines := readLines isIPString body in
          let path := listPath listName in
          match Create d path with
          | None => ((0%Z, Some ErrIO), d, b)
          | Some d1 =>
              let '(d2, written, ok) := writeCounted d1 path newLines 0%Z in
              if ok
              then ((written, None), d2, (LoadAll isIPString o d2 b).1)
              else ((written, Some ErrIO), d2, b)
          end
    end.

End Store.

End BlocklistRest.

(** ** The earlier front-ends of [dnsserver.go] *)

Module DNSGlobal.
Import Strings Blocklist UserFilter Settings DNS.

Section Handler.

Variable config : Config.
Variable w : World.

(** The first version: every blocked name gets the null route, and the
    upstream server is fixed. *)
Fixpoint serveNull (r : Msg) (qs : list Question) (n : nat) (msg : Msg)
    (bm : BlocklistManager) : BlocklistManager * list event :=
  match qs with
  | [] => (bm, [EvWriteMsg msg])
  | q :: qs' =>
      let name := matchName q in
      if IsBlocked bm name then
        let msg' := if wantsAddress q
                    then appendAnswer msg [addressRecord q 0 "0.0.0.0"]
                    else msg in
        let bm' := RecordQueryWithClient (clock w n) bm name (clientAddrOf w) true in
        (bm', [EvRecord name (clientAddrOf w) true; EvWriteMsg msg'])
      else
        let msg' := forwardReply w n msg in
        let bm' := RecordQueryWithClient (clock w n) bm name (clientAddrOf w) false in
        let '(bm'', tr) := serveNull r qs' (S n) msg' bm' in
        (bm'', EvExchange r "1.1.1.1:53" :: EvRecord name (clientAddrOf w) false :: tr)
  end.

Definition handleNull (r : Msg) (bm : BlocklistManager)
    : BlocklistManager * list event :=
  let msg := setAuthoritative (SetReply emptyMsg r) true in
  serveNull r (Questions r) 0 msg bm.

(** The second version: the blocking modes and the configured upstream
    server, with the global check only. *)
Fixpoint serveModes (r : Msg) (qs : list Question) (n : nat) (msg : Msg)
    (bm : BlocklistManager) : BlocklistManager * list event :=
  match qs with
  | [] => (bm, [EvWriteMsg msg])
  | q :: qs' =>
      let name := matchName q in
      if IsBlocked bm name then
        let msg' :=
          if String.eqb (BlockingMode config) "redirect" then
            let target := if String.eqb (BlockPageIP config) ""
                          then "127.0.0.1" else BlockPageIP config in
            if wantsAddress q then appendAnswer msg [addressRecord q 60 target]
            else msg
          else if String.eqb (BlockingMode config) "nx" then
            setRcode msg RcodeNameError
          else
            if wantsAddress q then appendAnswer msg [addressRecord q 0 "0.0.0.0"]
            else msg in
        let bm' := RecordQueryWithClient (clock w n) bm name (clientAddrOf w) true in
        (bm', [EvRecord name (clientAddrOf w) true; EvWriteMsg msg'])
      else
        let upstream := if String.eqb (Upstream config) ""
                        then "1.1.1.1:53" else Upstream config in
        let msg' := forwardReply w n msg in
        let bm' := RecordQueryWithClient (clock w n) bm name (clientAddrOf w) false in
        let '(bm'', tr) := serveModes r qs' (S n) msg' bm' in
        (bm'', EvExchange r upstream :: EvRecord name (clientAddrOf w) false :: tr)
  end.

Definition handleModes (r : Msg) (bm : BlocklistManager)
    : BlocklistManager * list event :=
  let msg := setAuthoritative (SetReply emptyMsg r) true in
  serveModes r (Questions r) 0 msg bm.

End Handler.

End DNSGlobal.

(** ** The identification of a client of the API *)

Module ClientMAC.
Import Strings.

(** [strings.Split s sep] for a separator of one character. *)
Fixpoint Split (s : string) (sep : ascii) : list string :=
  match s with
  | EmptyString => [EmptyString]
  | String c s' =>
      if Ascii.eqb c sep then EmptyString :: Split s' sep
      else match Split s' sep with
           | p :: ps => String c p :: ps
           | [] => [String c EmptyString]
           end
  end.

(** The loop of [normalizeMACAddress] over the offsets 0, 2, ..., 10:
    [result] is the content of the builder. *)
Definition writePair (mac : string) (result : string) (i : nat) : string :=
  let result := if (0 <? i)%nat then result +:+ ":" else result in
  result +:+ String.substring i 2 mac.

Definition normalizeMACAddress (mac : string) : string :=
  let mac := ReplaceAll mac "-" "" in
  let mac := ReplaceAll mac ":" "" in
  let mac := ReplaceAll mac "." "" in
  let mac := ToLower mac in
  if (String.length mac =? 12)%nat
  then foldl (writePair mac) EmptyString [0; 2; 4; 6; 8; 10]
  else mac.

(** Of a request: [r.Header.Get] and [r.RemoteAddr]. *)
Record Request : Type := {
  HeaderGet : string -> string;
  RemoteAddr : string
}.

Inductive macError : Type :=
| ErrNoClientIP
| ErrInvalidIP
| ErrInterfaces
| ErrARPNotImplemented
| ErrNotLocal.

Section Network.

(** [net.SplitHostPort], [net.ParseIP] and [net.Interfaces] with the
    addresses of each interface; [None] is an error, or nil for
    [net.ParseIP]. *)
Variable SplitHostPort : string -> option (string * string).
Variable IP : Type.
Variable ParseIP : string -> option IP.

(** An address of an interface: a network, known by the addresses it
    contains, or an address of another kind. *)
Inductive Addr : Type :=
| IPNet (contains : IP -> bool)
| OtherAddr.

Record Interface : Type := {
  Addrs : option (list Addr)
}.

Variable Interfaces : option (list Interface).

Definition getClientIP (r : Request) : string :=
  let fromRemoteAddr :=
    match SplitHostPort (RemoteAddr r) with
    | Some (host, _) => host
    | None => RemoteAddr r
    end in
  let fromRealIP :=
    let xri := HeaderGet r "X-Real-IP" in
    if negb (String.eqb xri "") then xri else fromRemoteAddr in
  let xff := HeaderGet r "X-Forwarded-For" in
  if negb (String.eqb xff "") then
    match Split xff ","%char with
    | p :: _ => TrimSpace p
    | [] => fromRealIP
    end
  else fromRealIP.

Definition inSubnet (parsedIP : IP) (addr : Addr) : bool :=
  match addr with
  | IPNet contains => contains parsedIP
  | OtherAddr => false
  end.

Definition reaches (parsedIP : IP) (iface : Interface) : bool :=
  match Addrs iface with
  | Some addrs => existsb (inSubnet parsedIP) addrs
  | None => false
  end.

Definition getMACFromARP (ip : string) : string * option macError :=
  match ParseIP ip with
  | None => (EmptyString, Some ErrInvalidIP)
  | Some parsedIP =>
      match Interfaces with
      | None => (EmptyString, Some ErrInterfaces)
      | Some ifaces =>
          if existsb (reaches parsedIP) ifaces
          then (EmptyString, Some ErrARPNotImplemented)
          else (EmptyString, Some ErrNotLocal)
      end
  end.

Definition GetClientMAC (r : Request) : string * option macError :=
  let mac := HeaderGet r "X-Client-MAC" in
  if negb (String.eqb mac "") then (normalizeMACAddress mac, None)
  else
    let clientIP := getClientIP r in
    if String.eqb clientIP "" then (EmptyString, Some ErrNoClientIP)
    else
      match getMACFromARP clientIP with
      | (mac, None) =>
          if negb (String.eqb mac "") then (normalizeMACAddress mac, None)
          else ("ip:" +:+ clientIP, None)
      | (_, Some _) => ("ip:" +:+ clientIP, None)
      end.

End Network.

End ClientMAC.

(** ** Definitions used by the further statements *)

Module MoreStatements.
Import Strings Regexp Wildcard FS Blocklist BlocklistRest UserFilter Settings DNS.
Import Statements.

(** The entry that a record operation appends. *)
Definition entryOf (now : Z) (domain client : string) (blocked : bool)
    : QueryEntry :=
  {| Time := now; Domain := domain; Client := client; Blocked := blocked |}.

(** The log file can be truncated, or is absent. *)
Definition logFileYields (d : Dir) (name : string) : bool :=
  match entries d !! name with
  | Some (File _ true _) => true
  | Some _ => false
  | None => true
  end.

(** A manager with a recent log of three entries. *)
Definition busy : BlocklistManager :=
  {| dir := "blocklist"; lists := {["ads" := ["ads.example.com"]]};
     compiled := compileLists inOrder {["ads" := ["ads.example.com"]]};
     queries := 3; blockedQueries := 1;
     domainHits := {["ads.example.com" := 1%Z]};
     allHits := {["ads.example.com" := 1%Z; "example.org" := 2%Z]};
     clientHits := {["192.168.1.20:40000" := 3%Z]};
     recent := [entryOf 1 "example.org" "192.168.1.20:40000" false;
                entryOf 2 "ads.example.com" "192.168.1.20:40000" true;
                entryOf 3 "example.org" "192.168.1.20:40000" false];
     recentCap := 3; logPath := "logs.jsonl" |}.

(** The rules of a list that contain the query, as [ListDomains] filters
    them. *)
Definition containing (q : string) (arr : list string) : list string :=
  List.filter (fun d => Contains d (ToLower (TrimSpace q))) arr.

(** The page size that [ListDomains] uses for a requested one. *)
Definition pageSize (limit : Z) : Z := if (limit <=? 0)%Z then 100%Z else limit.

(** A manager with one list of three rules. *)
Definition threeRules : BlocklistManager :=
  loaded inOrder idle {["ads" := ["ads.example.com"; "tracker.io"; "*.metrics.net"]]}.

(** The rules that stay when [RemoveDomain] drops the normalized name. *)
Definition without (norm : string) (arr : list string) : list string :=
  List.filter (fun k => negb (String.eqb k norm)) arr.

(** A manager that has loaded the sample directory. *)
Definition adsLoaded : BlocklistManager :=
  (LoadAll isIPv4Literal inOrder adsDir idle).1.

(** The form of a rule that [readLines] yields: a single token in lower
    case that is neither a reserved local name nor an IP literal. *)
Definition isRule (isIPString : string -> bool) (k : string) : bool :=
  isToken k && negb (isLocalHostName k) && negb (isIPString k) &&
  String.eqb (ToLower k) k.

(** A line of 64 KiB, which the scanner of [readLines] does not accept. *)
Definition longLine : string :=
  string_of_list_ascii (repeat "a"%char (N.to_nat 65536)).

(** The managers that the program can hold: the one that
    [NewBlocklistManager] makes, and what the operations make of one, on
    any state of the directory and of the network. *)
Inductive reachable (isIPString : string -> bool) : BlocklistManager -> Prop :=
| reach_New o dirName d b :
    NewBlocklistManager isIPString o dirName d = Some b ->
    reachable isIPString b
| reach_LoadAll o d b :
    reachable isIPString b ->
    reachable isIPString (LoadAll isIPString o d b).1
| reach_AddFileToList o get d b listName url createIfMissing :
    reachable isIPString b ->
    reachable isIPString
      (AddFileToList isIPString o get d b listName url createIfMissing).2
| reach_ReplaceListFromURL o get d b listName url :
    reachable isIPString b ->
    reachable isIPString (ReplaceListFromURL isIPString o get d b listName url).2
| reach_AddItemsToList o d b listName items createIfMissing :
    reachable isIPString b ->
    reachable isIPString
      (AddItemsToList isIPString o d b listName items createIfMissing).2
| reach_RemoveDomain o d b listName domain :
    reachable isIPString b ->
    reachable isIPString (RemoveDomain isIPString o d b listName domain).2
| reach_RecordQuery now b domain blocked :
    reachable isIPString b ->
    reachable isIPString (RecordQuery now b domain blocked)
| reach_RecordQueryWithClient now b domain client blocked :
    reachable isIPString b ->
    reachable isIPString (RecordQueryWithClient now b domain client blocked)
| reach_DeleteLogs d b :
    reachable isIPString b ->
    reachable isIPString (DeleteLogs d b).1.2.

(** What [readLines] checks of a name before it keeps it as a rule: it is
    not empty, not a reserved local name and not an IP literal. *)
Definition isKept (isIPString : string -> bool) (k : string) : bool :=
  negb (String.eqb k "") && negb (isLocalHostName k) && negb (isIPString k).

(** What holds of every such manager. *)
Definition consistent (isIPString : string -> bool) (b : BlocklistManager)
    : Prop :=
  (exists o, compiled b = compileLists o (lists b)) /\
  (forall L pats k,
      lists b !! L = Some pats -> k ∈ pats -> isKept isIPString k = true) /\
  recentCap b = 500%Z /\
  length (recent b) <= 500 /\
  dom (domainHits b) ⊆ dom (allHits b).

(** The manager that serves the sample directory. *)
Definition adsServed : BlocklistManager :=
  default idle (NewBlocklistManager isIPv4Literal inOrder "blocklist" adsDir).

(** The exchanges with the upstream server in a trace. *)
Definition isExchange (e : event) : bool :=
  match e with EvExchange _ _ => true | _ => false end.

Definition exchangesOf (tr : list event) : list event :=
  List.filter isExchange tr.

(** The record that a blocked address query is answered with: the block
    page under the mode [redirect], the null route under every mode but
    [redirect] and [nx]. *)
Definition blockRecord (config : Config) (q : Question) : RR :=
  if String.eqb (BlockingMode config) "redirect"
  then addressRecord q 60
         (if String.eqb (BlockPageIP config) "" then "127.0.0.1"
          else BlockPageIP config)
  else addressRecord q 0 "0.0.0.0".

(** A query with two questions, for a name that is let pass and for one
    that is blocked. *)
Definition twoQuestions : Msg :=
  {| Id := 4660; Response := false; Opcode := OpcodeQuery;
     Authoritative := false; RecursionDesired := true;
     CheckingDisabled := false; Rcode := 0;
     Questions := [{| Name := "example.org."; Qtype := TypeA; Qclass := ClassINET |};
                   {| Name := "ads.example.com."; Qtype := TypeA;
                      Qclass := ClassINET |}];
     Answer := [] |}.

(** The fields of the reply that the handler sets once. *)
Definition sameHeader (m m' : Msg) : Prop :=
  Id m' = Id m /\ Response m' = Response m /\ Opcode m' = Opcode m /\
  RecursionDesired m' = RecursionDesired m /\
  CheckingDisabled m' = CheckingDisabled m /\ Questions m' = Questions m.

(** A character that [normalizeMACAddress] keeps. *)
Definition notSeparator (c : ascii) : bool :=
  isNot "-"%char c && isNot ":"%char c && isNot "."%char c.

Fixpoint dropChar (x : ascii) (s : string) : string :=
  match s with
  | EmptyString => EmptyString
  | String c s' => if Ascii.eqb c x then dropChar x s' else String c (dropChar x s')
  end.

(** The text of a MAC address without separators, in lower case. *)
Definition bare (mac : string) : string :=
  ToLower (dropChar "."%char (dropChar ":"%char (dropChar "-"%char mac))).

(** Six groups of two characters, none of them a separator, with colons
    between them. *)
Definition sixGroups (out : string) : Prop :=
  exists c1 c2 c3 c4 c5 c6 c7 c8 c9 c10 c11 c12,
    Forall (fun c => notSeparator c = true)
           [c1; c2; c3; c4; c5; c6; c7; c8; c9; c10; c11; c12] /\
    out = string_of_list_ascii
            [c1; c2; ":"; c3; c4; ":"; c5; c6; ":"; c7; c8; ":"; c9; c10; ":";
             c11; c12]%char.

(** A request that tells its own MAC address. *)
Definition tellingRequest : ClientMAC.Request :=
  {| ClientMAC.HeaderGet := fun k =>
       if String.eqb k "X-Client-MAC" then "AA-BB-CC-DD-EE-FF"
       else if String.eqb k "X-Forwarded-For" then "10.0.0.7, 192.168.1.1"
       else EmptyString;
     ClientMAC.RemoteAddr := "192.168.1.20:40000" |}.

(** A request that passed a proxy and tells no MAC address. *)
Definition proxiedRequest : ClientMAC.Request :=
  {| ClientMAC.HeaderGet := fun k =>
       if String.eqb k "X-Forwarded-For" then " 10.0.0.7 , 192.168.1.1"
       else if String.eqb k "X-Real-IP" then "172.16.0.1"
       else EmptyString;
     ClientMAC.RemoteAddr := "192.168.1.20:40000" |}.



(** A fetch whose body, if there is one, is in ASCII. *)
Definition asciiBody (r : httpResult) : Prop :=
  match r with
  | Fetched _ body => asciiText body
  | GetFailed => True
  end.

(** Two states of the directory that differ at most in the file of list
    [L]. *)
Definition sameButList (L : string) (d d' : Dir) : Prop :=
  canList d' = canList d /\
  forall name, name <> listPath L -> entries d' !! name = entries d !! name.

End MoreStatements.

(** ** Facts about package [strings] *)

Module StringFacts.
Import Strings Statements.

Lemma TrimRightSpace_idem s : TrimRightSpace (TrimRightSpace s) = TrimRightSpace s.
Proof.
  induction s as [|c s IH]; [reflexivity|]. simpl.
  destruct (TrimRightSpace s) as [|c' r] eqn:E.
  - destruct (isSpace c) eqn:Hc; simpl; [reflexivity|]. by rewrite Hc.
  - change (TrimRightSpace (String c (String c' r)))
      with (match TrimRightSpace (String c' r) with
            | EmptyString => if isSpace c then EmptyString else String c EmptyString
            | r0 => String c r0
            end).
    by rewrite IH.
Qed.

Lemma TrimLeftSpace_trimmedLeft s : trimmedLeft (TrimLeftSpace s).
Proof.
  induction s as [|c s IH]; simpl; [done|].
  destruct (isSpace c) eqn:Hc; simpl; done.
Qed.

Lemma TrimLeftSpace_id s : trimmedLeft s -> TrimLeftSpace s = s.
Proof. destruct s as [|c s]; simpl; [done|]. by intros ->. Qed.

Lemma TrimRightSpace_trimmedLeft s : trimmedLeft s -> trimmedLeft (TrimRightSpace s).
Proof.
  destruct s as [|c s]; simpl; [done|]. intros Hc.
  destruct (TrimRightSpace s); simpl; [by rewrite Hc|done].
Qed.

Lemma TrimSpace_idem s : TrimSpace (TrimSpace s) = TrimSpace s.
Proof.
  unfold TrimSpace.
  rewrite (TrimLeftSpace_id (TrimRightSpace (TrimLeftSpace s))).
  - apply TrimRightSpace_idem.
  - apply TrimRightSpace_trimmedLeft, TrimLeftSpace_trimmedLeft.
Qed.

Lemma append_nil_l (b : string) : EmptyString +:+ b = b.
Proof. reflexivity. Qed.

Lemma append_cons c (a b : string) : String c a +:+ b = String c (a +:+ b).
Proof. reflexivity. Qed.

Ltac unfold_append := rewrite ?append_cons, ?append_nil_l.

Lemma append_assoc (a b c : string) : (a +:+ b) +:+ c = a +:+ (b +:+ c).
Proof. induction a as [|x a IH]; unfold_append; [done|]. by rewrite IH. Qed.

Lemma append_empty_r (a : string) : a +:+ EmptyString = a.
Proof. induction a as [|x a IH]; unfold_append; [done|]. by rewrite IH. Qed.

End StringFacts.

(** ** Facts about the compiled patterns *)

Module PatternFacts.
Import Strings Regexp Wildcard FS Blocklist Statements StringFacts.

Lemma special_cases c :
  special c = true ->
  c ∈ list_ascii_of_string "\.+*?()|[]{}^$".
Proof.
  unfold special. rewrite existsb_exists. intros (x & Hin & Hx).
  apply Ascii.eqb_eq in Hx. subst x. by apply list_elem_of_In.
Qed.

Lemma special_escapable c : special c = true -> escapable c = true.
Proof.
  intros H. apply special_cases in H. simpl in H.
  repeat (apply elem_of_cons in H as [->|H]; [reflexivity|]).
  by apply elem_of_nil in H.
Qed.

Lemma not_special_plain c :
  special c = false ->
  Ascii.eqb c "\"%char = false /\ Ascii.eqb c "."%char = false /\
  Ascii.eqb c "*"%char = false /\ Ascii.eqb c "^"%char = false /\
  Ascii.eqb c "$"%char = false.
Proof.
  intros H. repeat split; apply Ascii.eqb_neq; intros ->; discriminate.
Qed.

(** A quoted text never starts with a bare star. *)
Lemma QuoteMeta_no_star s r : QuoteMeta s <> String "*"%char r.
Proof.
  destruct s as [|c s]; simpl; [done|].
  destruct (special c) eqn:Hc; [done|]. intros [= -> _]. discriminate.
Qed.

Lemma prefix_cons a s1 b s2 :
  String.prefix (String a s1) (String b s2) =
    if ascii_dec a b then String.prefix s1 s2 else false.
Proof. reflexivity. Qed.

Lemma prefix_nil s : String.prefix EmptyString s = true.
Proof. by destruct s. Qed.

Lemma prefix_escaped_star c s :
  String.prefix "\*" (String "\"%char (String c s)) = Ascii.eqb c "*"%char.
Proof.
  rewrite prefix_cons. destruct (ascii_dec "\" "\") as [_|]; [|done].
  rewrite prefix_cons, prefix_nil.
  destruct (ascii_dec "*" c) as [<-|Hne]; [reflexivity|].
  symmetry. apply Ascii.eqb_neq. congruence.
Qed.

Lemma prefix_escaped_star_quote c s :
  Ascii.eqb c "*"%char = false ->
  String.prefix "\*" (String c (QuoteMeta s)) = false.
Proof.
  intros Hc. rewrite prefix_cons.
  destruct (ascii_dec "\" c) as [<-|Hne]; [|reflexivity].
  destruct (QuoteMeta s) as [|x r] eqn:E; [reflexivity|].
  rewrite prefix_cons.
  destruct (ascii_dec "*" x) as [<-|Hx]; [|reflexivity].
  by apply QuoteMeta_no_star in E.
Qed.

Lemma replace_QuoteMeta p :
  ReplaceAll (QuoteMeta p) "\*" ".*" = wildExpr p.
Proof.
  change (replaceFrom 0 (QuoteMeta p) "\*" ".*" = wildExpr p).
  induction p as [|c p IH]; [reflexivity|].
  cbn [QuoteMeta wildExpr].
  destruct (special c) eqn:Hsp.
  - cbn [replaceFrom]. rewrite prefix_escaped_star.
    destruct (Ascii.eqb c "*"%char) eqn:Hstar.
    + unfold_append. simpl. by rewrite IH.
    + f_equal. cbn [replaceFrom]. rewrite (prefix_escaped_star_quote _ _ Hstar).
      by rewrite IH.
  - destruct (not_special_plain c Hsp) as (Hb & _ & Hstar & _).
    rewrite Hstar. cbn [replaceFrom].
    rewrite (prefix_escaped_star_quote _ _ Hstar). by rewrite IH.
Qed.

Lemma parse_wildExpr p acc rest :
  parse acc (wildExpr p +:+ rest) = parse (rev (nodesOf p) ++ acc) rest.
Proof.
  revert acc. induction p as [|c p IH]; intros acc; [reflexivity|].
  cbn [wildExpr nodesOf rev]. unfold nodeOf. rewrite <- app_assoc. simpl app.
  destruct (Ascii.eqb c "*"%char) eqn:Hstar.
  - unfold_append. simpl. apply IH.
  - destruct (special c) eqn:Hsp.
    + unfold_append. simpl. rewrite (special_escapable _ Hsp). apply IH.
    + destruct (not_special_plain c Hsp) as (Hb & Hd & _ & Hc & Hdl).
      unfold_append. simpl. rewrite Hb, Hd, Hstar, Hc, Hdl, Hsp. apply IH.
Qed.

Lemma Compile_anchored p :
  Compile ("^" +:+ wildExpr p +:+ "$") = Some (anchored p).
Proof.
  unfold Compile, anchored. unfold_append. simpl. rewrite parse_wildExpr. simpl.
  rewrite rev_app_distr, rev_involutive. reflexivity.
Qed.

(** [patternToRegexp] never fails on a pattern that normalizes to a
    non-empty text, and yields the anchored expression. *)
Lemma patternToRegexp_spec p :
  patternToRegexp p =
    if String.eqb (normalizePattern p) "" then None
    else Some (anchored (normalizePattern p)).
Proof.
  unfold patternToRegexp. cbv zeta.
  destruct (String.eqb (normalizePattern p) ""); [reflexivity|].
  rewrite replace_QuoteMeta. apply Compile_anchored.
Qed.

Lemma matchHere_nodesOf p atStart d :
  matchHere (nodesOf p ++ [EndText]) atStart d = matchesWithinLine p d.
Proof.
  unfold matchesWithinLine.
  revert atStart d. induction p as [|c p IH]; intros atStart d.
  - simpl. apply andb_true_r.
  - cbn [nodesOf app wildcardMatch]. unfold nodeOf.
    destruct (Ascii.eqb c "*"%char) eqn:Hstar.
    + cbn [matchHere]. revert atStart.
      induction d as [|x d IHd]; intros atStart.
      * by rewrite IH.
      * rewrite IH. f_equal. simpl accepts. by rewrite IHd.
    + cbn [matchHere]. destruct d as [|x d]; [reflexivity|].
      simpl accepts. by rewrite IH.
Qed.

Lemma searchFrom_BeginText re s : searchFrom (BeginText :: re) false s = false.
Proof. induction s as [|c s IH]; simpl; [reflexivity|exact IH]. Qed.

Lemma MatchString_anchored p d :
  MatchString (anchored p) d = matchesWithinLine p d.
Proof.
  unfold MatchString, anchored.
  assert (H : forall s, searchFrom (BeginText :: nodesOf p ++ [EndText]) true s
                        = matchHere (nodesOf p ++ [EndText]) true s).
  { intros s. destruct s as [|c s]; cbn [searchFrom].
    - simpl. by rewrite orb_false_r.
    - rewrite searchFrom_BeginText, orb_false_r. reflexivity. }
  rewrite H. apply matchHere_nodesOf.
Qed.

End PatternFacts.

(** ** The pattern index *)

Module IndexFacts.
Import Strings Regexp Wildcard FS Blocklist Statements StringFacts PatternFacts.

Lemma normalizePattern_TrimSpace p :
  normalizePattern (TrimSpace p) = normalizePattern p.
Proof. unfold normalizePattern. by rewrite TrimSpace_idem. Qed.

Lemma normalizePattern_blank p :
  TrimSpace p = EmptyString -> normalizePattern p = EmptyString.
Proof. unfold normalizePattern. by intros ->. Qed.

Lemma compilePatterns_In re pats :
  In re (compilePatterns pats) <->
  exists p, In p pats /\ normalizePattern p <> EmptyString /\
            re = anchored (normalizePattern p).
Proof.
  unfold compilePatterns. rewrite in_flat_map. split.
  - intros (p & Hp & Hre). exists p. split; [done|]. cbv zeta in Hre.
    destruct (String.eqb (TrimSpace p) "") eqn:E; [done|].
    rewrite patternToRegexp_spec, normalizePattern_TrimSpace in Hre.
    destruct (String.eqb (normalizePattern p) "") eqn:E'; [done|].
    apply String.eqb_neq in E'. destruct Hre as [<-|[]]. done.
  - intros (p & Hp & Hne & ->). exists p. split; [done|]. cbv zeta.
    destruct (String.eqb (TrimSpace p) "") eqn:E.
    + apply String.eqb_eq, normalizePattern_blank in E. done.
    + rewrite patternToRegexp_spec, normalizePattern_TrimSpace.
      apply String.eqb_neq in Hne. rewrite Hne. by left.
Qed.

Lemma compileLists_In o ls re :
  In re (compileLists o ls) <->
  exists name pats, ls !! name = Some pats /\ In re (compilePatterns pats).
Proof.
  unfold compileLists. rewrite in_flat_map. split.
  - intros ([name pats] & Hkv & Hre). exists name, pats. split; [|done].
    apply list_elem_of_In in Hkv. rewrite (visit_perm o) in Hkv.
    by apply elem_of_map_to_list in Hkv.
  - intros (name & pats & Hl & Hre). exists (name, pats). split; [|done].
    apply list_elem_of_In. rewrite (visit_perm o).
    by apply elem_of_map_to_list.
Qed.

(** [IsBlocked] on a loaded manager, in terms of the rules. *)
Lemma IsBlocked_loaded o b ls domain :
  IsBlocked (loaded o b ls) domain = true <->
  someRule ls (fun rule => ruleBlocks rule domain = true).
Proof.
  unfold IsBlocked, loaded, someRule, ruleBlocks. cbn [compiled withLists].
  fold (normalizedName domain). rewrite existsb_exists. split.
  - intros (re & Hre & Hm). apply compileLists_In in Hre as (name & pats & Hl & Hre).
    apply compilePatterns_In in Hre as (p & Hp & Hne & ->).
    exists name, pats, p. rewrite MatchString_anchored in Hm.
    apply String.eqb_neq in Hne. rewrite Hne, Hm.
    split; [done|]. split; [by apply list_elem_of_In|done].
  - intros (name & pats & p & Hl & Hp & Hb).
    apply andb_true_iff in Hb as [Hne Hm]. apply negb_true_iff, String.eqb_neq in Hne.
    exists (anchored (normalizePattern p)). rewrite MatchString_anchored.
    split; [|done]. apply compileLists_In. exists name, pats. split; [done|].
    apply compilePatterns_In. exists p. split; [by apply list_elem_of_In|done].
Qed.

(** The order in which the lists were compiled does not matter. *)
Lemma IsBlocked_order o1 o2 b1 b2 ls domain :
  IsBlocked (loaded o1 b1 ls) domain = IsBlocked (loaded o2 b2 ls) domain.
Proof.
  apply eq_true_iff_eq. by rewrite !IsBlocked_loaded.
Qed.

(** Where the two readings of a pattern agree: on a name without a line
    feed. *)
Lemma matchesWithinLine_plain p d :
  allChars (isNot lf) d = true -> matchesWithinLine p d = matchesAnySequence p d.
Proof.
  unfold matchesWithinLine, matchesAnySequence.
  revert d. induction p as [|c p IH]; intros d Hd; [reflexivity|].
  cbn [wildcardMatch]. destruct (Ascii.eqb c "*"%char).
  - induction d as [|x d IHd].
    + by rewrite IH.
    + rewrite (IH _ Hd). cbn [allChars] in Hd.
      apply andb_true_iff in Hd as [Hx Hd]. unfold isNot in Hx.
      rewrite Hx. cbn [andb]. by rewrite (IHd Hd).
  - destruct d as [|x d]; [done|]. cbn [allChars] in Hd.
    apply andb_true_iff in Hd as [_ Hd]. by rewrite IH.
Qed.

End IndexFacts.

(** ** The handler *)

Module HandlerFacts.
Import Strings Regexp Wildcard FS Blocklist UserFilter Settings DNS Statements.

Lemma appendAnswer_nil m : appendAnswer m [] = m.
Proof. destruct m. unfold appendAnswer. cbn. by rewrite app_nil_r. Qed.

Lemma appendAnswer_app m a b :
  appendAnswer (appendAnswer m a) b = appendAnswer m (a ++ b).
Proof. unfold appendAnswer. cbn. by rewrite app_assoc. Qed.

Lemma IsBlocked_recorded now bm domain client blocked name :
  IsBlocked (RecordQueryWithClient now bm domain client blocked) name
  = IsBlocked bm name.
Proof. reflexivity. Qed.

Lemma IsBlockedForUser_recorded now bm domain client blocked name mac a :
  IsBlockedForUser (RecordQueryWithClient now bm domain client blocked) name mac a
  = IsBlockedForUser bm name mac a.
Proof. reflexivity. Qed.

Section Handler.

Variable SplitHostPort : string -> option (string * string).
Variable config : Config.
Variable ipMACCache : IPToMACCache.
Variable am : option AccountManager.
Variable w : World.

Local Abbreviation blockedFor := (isBlockedFor SplitHostPort ipMACCache am w).
Local Abbreviation serve := (serve SplitHostPort config ipMACCache am w).
Local Abbreviation handle := (handle SplitHostPort config ipMACCache am w).

Lemma isBlockedFor_recorded now bm domain client blocked name :
  blockedFor (RecordQueryWithClient now bm domain client blocked) name
  = blockedFor bm name.
Proof. reflexivity. Qed.

Lemma forwardReply_answers n msg :
  forwardReply w n msg = appendAnswer msg (answersOf (exchange w n)).
Proof.
  unfold forwardReply, answersOf.
  destruct (exchange w n) as [|[resp|]]; by rewrite ?appendAnswer_nil.
Qed.

(** What the loop does, in one statement: the allowed questions in
    front are forwarded and recorded, then the first blocked question,
    if there is one, is recorded, and the reply is the last event. *)
Lemma serve_spec r qs n msg bm :
  let blocked := fun q => blockedFor bm (matchName q) in
  let k := allowedPrefix blocked qs in
  let tr := (serve r qs n msg bm).2 in
  exists pre,
    tr = pre ++ [EvWriteMsg (finalReply blocked config w qs n msg)] /\
    replies pre = [] /\
    countRecords pre = (if (k <? length qs)%nat then S k else k) /\
    synthesized pre = (k <? length qs)%nat.
Proof.
  cbv zeta. revert n msg bm. induction qs as [|q qs IH]; intros n msg bm.
  - exists []. unfold finalReply. cbn. by rewrite appendAnswer_nil.
  - cbn [DNS.serve allowedPrefix].
    destruct (blockedFor bm (matchName q)) eqn:Hb.
    + exists [EvRecord (matchName q) (clientAddrOf w) true].
      unfold finalReply. cbn [allowedPrefix]. rewrite Hb.
      cbn. by rewrite appendAnswer_nil.
    + destruct (IH (S n) (forwardReply w n msg)
                  (RecordQueryWithClient (clock w n) bm (matchName q)
                     (clientAddrOf w) false))
        as (pre & Htr & Hrep & Hcnt & Hsyn).
      destruct (DNS.serve _ _ _ _ _ r qs (S n) _ _) as [bm' tr] eqn:Hs.
      cbn [snd] in *.
      exists (EvExchange r (upstreamOf config)
                :: EvRecord (matchName q) (clientAddrOf w) false :: pre).
      split; [|split; [|split]].
      * rewrite Htr. cbn [app]. do 3 f_equal.
        unfold finalReply. cbn [allowedPrefix]. rewrite Hb. cbn [drop].
        rewrite forwardReply_answers, appendAnswer_app. reflexivity.
      * exact Hrep.
      * cbn [length]. unfold countRecords in *. cbn [List.filter isRecord length].
        rewrite Hcnt. change (S ?a <? S ?b)%nat with (a <? b)%nat.
        by destruct (_ <? _)%nat.
      * cbn [synthesized existsb orb]. exact Hsyn.
Qed.

End Handler.

End HandlerFacts.

(** ** What the handler sends *)

Module ReplyFacts.
Import Strings Regexp Wildcard FS Blocklist UserFilter Settings DNS Statements.
Import HandlerFacts.

Lemma replies_snoc pre m : replies (pre ++ [EvWriteMsg m]) = replies pre ++ [m].
Proof. unfold replies. by rewrite flat_map_app. Qed.

Lemma countRecords_snoc pre m : countRecords (pre ++ [EvWriteMsg m]) = countRecords pre.
Proof.
  unfold countRecords. rewrite List.filter_app, length_app. cbn. lia.
Qed.

Lemma synthesized_snoc pre m : synthesized (pre ++ [EvWriteMsg m]) = synthesized pre.
Proof. unfold synthesized. rewrite existsb_app. cbn. by rewrite orb_false_r. Qed.

Lemma afterReply_snoc pre m : replies pre = [] -> afterReply (pre ++ [EvWriteMsg m]) = [].
Proof.
  induction pre as [|e pre IH]; intros H; [reflexivity|].
  destruct e; cbn in *; try (by apply IH). discriminate.
Qed.

Lemma allowedPrefix_le blocked qs : allowedPrefix blocked qs <= length qs.
Proof. induction qs as [|q qs IH]; cbn; [lia|]. destruct (blocked q); cbn; lia. Qed.

Lemma allowedPrefix_lt blocked qs :
  (allowedPrefix blocked qs <? length qs)%nat = existsb blocked qs.
Proof.
  induction qs as [|q qs IH]; [reflexivity|]. cbn.
  destruct (blocked q); [reflexivity|]. cbn. exact IH.
Qed.

Lemma allowedPrefix_blocked blocked qs :
  existsb blocked qs = true ->
  exists q rest, drop (allowedPrefix blocked qs) qs = q :: rest /\ blocked q = true.
Proof.
  induction qs as [|q qs IH]; [discriminate|]. cbn.
  destruct (blocked q) eqn:Hq; [by exists q, qs|]. cbn. exact IH.
Qed.

Lemma allowedPrefix_none blocked qs :
  existsb blocked qs = false -> allowedPrefix blocked qs = length qs.
Proof.
  induction qs as [|q qs IH]; [reflexivity|]. cbn.
  destruct (blocked q); [discriminate|]. cbn. intros H. by rewrite IH.
Qed.

Lemma blockReply_Authoritative config q m :
  Authoritative (blockReply config q m) = Authoritative m.
Proof.
  unfold blockReply.
  repeat match goal with |- context [if ?b then _ else _] => destruct b end;
    reflexivity.
Qed.

Lemma finalReply_Authoritative blocked config w qs n msg :
  Authoritative (finalReply blocked config w qs n msg) = Authoritative msg.
Proof.
  unfold finalReply. cbv zeta. destruct (drop _ qs); [reflexivity|].
  by rewrite blockReply_Authoritative.
Qed.

Lemma forwardedAnswers_failed w n k :
  (forall i, n <= i < n + k -> exchange w i = ExchangeError) ->
  forwardedAnswers w n k = [].
Proof.
  unfold forwardedAnswers. revert n.
  induction k as [|k IH]; intros n H; cbn; [reflexivity|].
  rewrite (H n) by lia. cbn. apply IH. intros i Hi. apply H. lia.
Qed.

Section Handler.

Variable SplitHostPort : string -> option (string * string).
Variable config : Config.
Variable ipMACCache : IPToMACCache.
Variable am : option AccountManager.
Variable w : World.

Local Abbreviation blockedFor := (isBlockedFor SplitHostPort ipMACCache am w).
Local Abbreviation handle := (handle SplitHostPort config ipMACCache am w).

(** The first message of the handler: the reply to [r], marked
    authoritative. *)
Lemma handle_spec r bm :
  let blocked := fun q => blockedFor bm (matchName q) in
  let k := allowedPrefix blocked (Questions r) in
  let msg := setAuthoritative (SetReply emptyMsg r) true in
  exists pre,
    (handle r bm).2 =
      pre ++ [EvWriteMsg (finalReply blocked config w (Questions r) 0 msg)] /\
    replies pre = [] /\
    countRecords pre = (if existsb blocked (Questions r) then S k else k) /\
    synthesized pre = existsb blocked (Questions r).
Proof.
  cbv zeta. unfold DNS.handle.
  destruct (serve_spec SplitHostPort config ipMACCache am w r (Questions r) 0
              (setAuthoritative (SetReply emptyMsg r) true) bm)
    as (pre & Htr & Hrep & Hcnt & Hsyn).
  exists pre. rewrite allowedPrefix_lt in Hcnt, Hsyn. done.
Qed.

(** With no binding for the address of the client, the decision is the
    global one. *)
Lemma isBlockedFor_unbound bm name :
  ipMACCache !! GetClientIP SplitHostPort (clientAddrOf w) = None ->
  blockedFor bm name = IsBlocked bm name.
Proof.
  intros H. unfold isBlockedFor, GetMAC. rewrite H. cbn.
  by destruct am.
Qed.

End Handler.

End ReplyFacts.

(** ** Characters, fields and lines *)

Module TokenFacts.
Import Strings FS Blocklist Statements StringFacts.

Lemma allChars_impl (p q : ascii -> bool) s :
  (forall c, p c = true -> q c = true) -> allChars p s = true -> allChars q s = true.
Proof.
  intros Hpq. induction s as [|c s IH]; cbn; [done|].
  rewrite !andb_true_iff. intros [Hc Hs]. split; [by apply Hpq|by apply IH].
Qed.

Lemma allChars_and (p q : ascii -> bool) s :
  allChars (fun c => p c && q c) s = allChars p s && allChars q s.
Proof.
  induction s as [|c s IH]; cbn; [done|]. rewrite IH.
  destruct (p c), (q c), (allChars p s), (allChars q s); reflexivity.
Qed.

Lemma allChars_TrimLeftSpace p s :
  allChars p s = true -> allChars p (TrimLeftSpace s) = true.
Proof.
  induction s as [|c s IH]; cbn; [done|]. rewrite andb_true_iff. intros [Hc Hs].
  destruct (isSpace c); [by apply IH|]. cbn. by rewrite Hc, Hs.
Qed.

Lemma allChars_TrimRightSpace p s :
  allChars p s = true -> allChars p (TrimRightSpace s) = true.
Proof.
  induction s as [|c s IH]; cbn; [done|]. rewrite andb_true_iff. intros [Hc Hs].
  specialize (IH Hs). destruct (TrimRightSpace s) as [|c' r].
  - destruct (isSpace c); cbn; [done|]. by rewrite Hc.
  - cbn [allChars] in *. by rewrite Hc, IH.
Qed.

Lemma allChars_TrimSpace p s :
  allChars p s = true -> allChars p (TrimSpace s) = true.
Proof. intros H. by apply allChars_TrimRightSpace, allChars_TrimLeftSpace. Qed.

Lemma allChars_TrimSuffix p s suffix :
  allChars p s = true -> allChars p (TrimSuffix s suffix) = true.
Proof.
  induction s as [|c s IH]; cbn [TrimSuffix allChars].
  - by destruct (String.eqb EmptyString suffix).
  - rewrite andb_true_iff. intros [Hc Hs].
    destruct (String.eqb (String c s) suffix); [done|]. cbn. by rewrite Hc, IH.
Qed.

Lemma allChars_ToLower p s :
  (forall c, p c = true -> p (toLowerChar c) = true) ->
  allChars p s = true -> allChars p (ToLower s) = true.
Proof.
  intros Hp. induction s as [|c s IH]; cbn; [done|].
  rewrite !andb_true_iff. intros [Hc Hs]. split; [by apply Hp|by apply IH].
Qed.

Lemma length_TrimLeftSpace s : String.length (TrimLeftSpace s) <= String.length s.
Proof.
  induction s as [|c s IH]; cbn; [lia|]. destruct (isSpace c); cbn; lia.
Qed.

Lemma length_TrimRightSpace s : String.length (TrimRightSpace s) <= String.length s.
Proof.
  induction s as [|c s IH]; cbn; [lia|].
  destruct (TrimRightSpace s); [destruct (isSpace c)|]; cbn in *; lia.
Qed.

Lemma length_TrimSpace s : String.length (TrimSpace s) <= String.length s.
Proof.
  unfold TrimSpace. pose proof (length_TrimRightSpace (TrimLeftSpace s)).
  pose proof (length_TrimLeftSpace s). lia.
Qed.

Lemma length_TrimSuffix s suffix :
  String.length (TrimSuffix s suffix) <= String.length s.
Proof.
  induction s as [|c s IH]; cbn [TrimSuffix].
  - destruct (String.eqb EmptyString suffix); cbn; lia.
  - destruct (String.eqb (String c s) suffix); cbn; lia.
Qed.

Lemma length_ToLower s : String.length (ToLower s) = String.length s.
Proof. induction s as [|c s IH]; cbn; [done|]. by rewrite IH. Qed.

Lemma plainChar_toLowerChar c : plainChar (toLowerChar c) = plainChar c.
Proof. destruct c as [[] [] [] [] [] [] [] []]; reflexivity. Qed.

Lemma short_le s t :
  String.length s <= String.length t -> short t = true -> short s = true.
Proof. unfold short. rewrite !N.ltb_lt. lia. Qed.

(** A text without spaces is its own trimming. *)
Lemma TrimLeftSpace_plain s :
  allChars (fun c => negb (isSpace c)) s = true -> TrimLeftSpace s = s.
Proof.
  destruct s as [|c s]; cbn; [done|]. rewrite andb_true_iff, negb_true_iff.
  by intros [-> _].
Qed.

Lemma TrimRightSpace_plain s :
  allChars (fun c => negb (isSpace c)) s = true -> TrimRightSpace s = s.
Proof.
  induction s as [|c s IH]; cbn; [done|].
  rewrite andb_true_iff, negb_true_iff. intros [Hc Hs]. rewrite (IH Hs).
  destruct s; [by rewrite Hc|done].
Qed.

Lemma TrimSpace_plain s :
  allChars (fun c => negb (isSpace c)) s = true -> TrimSpace s = s.
Proof.
  intros H. unfold TrimSpace. rewrite (TrimLeftSpace_plain _ H).
  by apply TrimRightSpace_plain.
Qed.

(** A text without the character [x] does not end in it. *)
Lemma TrimSuffix_absent x s :
  allChars (isNot x) s = true -> TrimSuffix s (String x EmptyString) = s.
Proof.
  induction s as [|c s IH]; [reflexivity|]. cbn [allChars TrimSuffix].
  rewrite andb_true_iff. unfold isNot at 1. rewrite negb_true_iff.
  intros [Hc Hs]. rewrite (IH Hs).
  destruct (String.eqb (String c s) (String x "")) eqn:E; [|done].
  apply String.eqb_eq in E. injection E as -> _. by rewrite Ascii.eqb_refl in Hc.
Qed.

(** *** [normalizePattern] *)

Lemma normalizePattern_chars p s :
  (forall c, p c = true -> p (toLowerChar c) = true) ->
  allChars p s = true -> allChars p (normalizePattern s) = true.
Proof.
  intros Hp Hs. unfold normalizePattern.
  destruct (_ || _); [done|].
  by apply allChars_ToLower, allChars_TrimSuffix, allChars_TrimSpace.
Qed.

Lemma normalizePattern_length s :
  String.length (normalizePattern s) <= String.length s.
Proof.
  unfold normalizePattern. destruct (_ || _); cbn; [lia|].
  rewrite length_ToLower.
  pose proof (length_TrimSuffix (TrimSpace s) "."). pose proof (length_TrimSpace s).
  lia.
Qed.

Lemma plainChar_lower c : plainChar c = true -> plainChar (toLowerChar c) = true.
Proof. by rewrite plainChar_toLowerChar. Qed.

(** Normalizing keeps a text plain and short: the result is a token unless
    it is empty. *)
Lemma normalizePattern_token s :
  allChars plainChar s = true -> short s = true ->
  normalizePattern s <> EmptyString ->
  isToken (normalizePattern s) = true.
Proof.
  intros Hp Hs Hne. unfold isToken.
  apply String.eqb_neq in Hne. rewrite Hne. cbn.
  rewrite (normalizePattern_chars plainChar s plainChar_lower Hp). cbn.
  exact (short_le _ _ (normalizePattern_length s) Hs).
Qed.

(** *** [FieldsFunc] *)

Lemma FieldsFunc_fields (p sep : ascii -> bool) s :
  allChars p s = true ->
  Forall (fun f => f <> EmptyString /\ allChars (fun c => negb (sep c)) f = true /\
                   allChars p f = true /\ String.length f <= String.length s)
         (FieldsFunc s sep).
Proof.
  induction s as [|c s IH]; [constructor|].
  cbn [allChars]. rewrite andb_true_iff. intros [Hc Hs]. specialize (IH Hs).
  assert (Hweak : Forall (fun f => f <> EmptyString /\
                           allChars (fun c => negb (sep c)) f = true /\
                           allChars p f = true /\
                           String.length f <= String.length (String c s))
                         (FieldsFunc s sep)).
  { eapply Forall_impl; [exact IH|]. cbn. intros f (? & ? & ? & ?).
    repeat split; try done. lia. }
  cbn [FieldsFunc]. destruct (sep c) eqn:Hsep; [exact Hweak|].
  assert (Hone : Forall (fun f => f <> EmptyString /\
                          allChars (fun c => negb (sep c)) f = true /\
                          allChars p f = true /\
                          String.length f <= String.length (String c s))
                        [String c EmptyString]).
  { constructor; [|constructor]. split; [done|].
    split; [cbn; by rewrite Hsep|]. split; [cbn; by rewrite Hc|]. cbn. lia. }
  destruct s as [|c' s']; [exact Hone|].
  destruct (sep c') eqn:Hsep'.
  { constructor; [|exact Hweak]. by inversion Hone. }
  destruct (FieldsFunc (String c' s') sep) as [|f fs]; [exact Hone|].
  inversion IH as [|? ? (Hf1 & Hf2 & Hf3 & Hf4) Hfs]; subst.
  inversion Hweak as [|? ? _ Hfs']; subst.
  constructor; [|exact Hfs'].
  split; [done|]. split; [cbn; by rewrite Hsep, Hf2|].
  split; [cbn; by rewrite Hc, Hf3|]. cbn in *. lia.
Qed.

(** A text without separators is its own single field. *)
Lemma FieldsFunc_single sep s :
  s <> EmptyString -> allChars (fun c => negb (sep c)) s = true ->
  FieldsFunc s sep = [s].
Proof.
  induction s as [|c s IH]; [done|]. intros _. cbn [allChars].
  rewrite andb_true_iff, negb_true_iff. intros [Hc Hs]. cbn [FieldsFunc].
  rewrite Hc. destruct s as [|c' s']; [done|].
  cbn [allChars] in Hs. apply andb_true_iff in Hs as [Hc' Hs'].
  pose proof Hc' as Hc''. apply negb_true_iff in Hc''. rewrite Hc''.
  rewrite IH; [done|done|]. cbn. by rewrite Hc', Hs'.
Qed.

End TokenFacts.

(** ** What [readLines] reads *)

Module ScannerFacts.
Import Strings FS Blocklist Statements StringFacts TokenFacts.

Lemma stripComment_cons c s :
  stripComment (String c s) =
    if Ascii.eqb c "#"%char then EmptyString else String c (stripComment s).
Proof.
  unfold stripComment, Index, sliceTo. cbn [String.index].
  rewrite PatternFacts.prefix_cons, PatternFacts.prefix_nil.
  destruct (ascii_dec "#" c) as [<-|Hne].
  - reflexivity.
  - assert (Hc : Ascii.eqb c "#"%char = false) by (apply Ascii.eqb_neq; congruence).
    rewrite Hc. by destruct (String.index 0 "#" s).
Qed.

Lemma stripComment_chars p s :
  allChars p s = true -> allChars p (stripComment s) = true.
Proof.
  induction s as [|c s IH]; [done|]. rewrite stripComment_cons. cbn [allChars].
  rewrite andb_true_iff. intros [Hc Hs].
  destruct (Ascii.eqb c "#"%char); [done|]. cbn. by rewrite Hc, IH.
Qed.

Lemma stripComment_no_sign s : allChars (isNot "#"%char) (stripComment s) = true.
Proof.
  induction s as [|c s IH]; [done|]. rewrite stripComment_cons.
  destruct (Ascii.eqb c "#"%char) eqn:Hc; [done|]. cbn. unfold isNot at 1.
  by rewrite Hc, IH.
Qed.

Lemma stripComment_length s : String.length (stripComment s) <= String.length s.
Proof.
  induction s as [|c s IH]; [done|]. rewrite stripComment_cons.
  destruct (Ascii.eqb c "#"%char); cbn; lia.
Qed.

Lemma stripComment_plain s :
  allChars (isNot "#"%char) s = true -> stripComment s = s.
Proof.
  induction s as [|c s IH]; [done|]. rewrite stripComment_cons. cbn [allChars].
  rewrite andb_true_iff. unfold isNot at 1. rewrite negb_true_iff.
  intros [-> Hs]. by rewrite IH.
Qed.

(** *** Tokens *)

Lemma plainChar_parts c :
  plainChar c = true ->
  negb (isSpace c) = true /\ isNot "#"%char c = true /\
  isNot lf c = true /\ isNot cr c = true.
Proof. destruct c as [[] [] [] [] [] [] [] []]; cbn; done. Qed.


Lemma isToken_parts k :
  isToken k = true ->
  k <> EmptyString /\ allChars plainChar k = true /\ short k = true.
Proof.
  unfold isToken. rewrite !andb_true_iff, negb_true_iff.
  intros [[Hne ?] ?]. by apply String.eqb_neq in Hne.
Qed.

Lemma token_chars k (q : ascii -> bool) :
  (forall c, plainChar c = true -> q c = true) ->
  isToken k = true -> allChars q k = true.
Proof.
  intros Hq Hk. apply isToken_parts in Hk as (_ & Hp & _).
  by apply (allChars_impl plainChar).
Qed.

(** A line that holds one token gives what survives of the token. *)
Lemma parseLine_token isIPString k :
  isToken k = true -> parseLine isIPString k = survivors isIPString k.
Proof.
  intros Hk. pose proof (isToken_parts k Hk) as (Hne & Hp & Hs).
  assert (Hsign : allChars (isNot "#"%char) k = true)
    by (apply (token_chars k); [|done]; intros c Hc; by apply plainChar_parts in Hc as (? & ? & ? & ?)).
  assert (Hblank : allChars (fun c => negb (isSpace c)) k = true)
    by (apply (token_chars k); [|done]; intros c Hc; by apply plainChar_parts in Hc as (? & ? & ? & ?)).
  unfold parseLine, survivors. cbv zeta.
  rewrite (stripComment_plain k Hsign), (TrimSpace_plain k Hblank).
  apply String.eqb_neq in Hne. rewrite Hne.
  unfold Fields. rewrite (FieldsFunc_single isSpace k); [|by apply String.eqb_neq|done].
  destruct (isIPString k); [reflexivity|].
  unfold hostsOf. cbn [flat_map]. rewrite (TrimSpace_plain k Hblank), Hne.
  by rewrite app_nil_r.
Qed.

(** Whatever [hostsOf] returns is a token. *)
Lemma hostsOf_tokens isIPString fields :
  Forall (fun f => allChars plainChar f = true /\ short f = true) fields ->
  Forall (fun x => isToken x = true) (hostsOf isIPString fields).
Proof.
  intros H. unfold hostsOf. apply Forall_flat_map.
  eapply Forall_impl; [exact H|]. cbn. intros f [Hp Hs].
  destruct (String.eqb (TrimSpace f) ""); [constructor|].
  destruct (_ || _) eqn:E; [constructor|]. constructor; [|constructor].
  apply normalizePattern_token.
  - by apply allChars_TrimSpace.
  - exact (short_le _ _ (length_TrimSpace f) Hs).
  - apply orb_false_iff in E as [E _]. apply orb_false_iff in E as [E _].
    by apply String.eqb_neq in E.
Qed.

Lemma parseLine_tokens isIPString line :
  short line = true ->
  Forall (fun x => isToken x = true) (parseLine isIPString line).
Proof.
  intros Hs. unfold parseLine. cbv zeta.
  set (line' := TrimSpace (stripComment line)).
  assert (Hsign : allChars (isNot "#"%char) line' = true)
    by apply allChars_TrimSpace, stripComment_no_sign.
  assert (Hlen : String.length line' <= String.length line).
  { pose proof (length_TrimSpace (stripComment line)).
    pose proof (stripComment_length line). unfold line'. lia. }
  destruct (String.eqb line' ""); [constructor|].
  pose proof (FieldsFunc_fields (isNot "#"%char) isSpace line' Hsign) as Hf.
  assert (Hfields : Forall (fun f => allChars plainChar f = true /\ short f = true)
                           (Fields line')).
  { eapply Forall_impl; [exact Hf|]. cbn. intros f (_ & Hb & Hh & Hl). split.
    - unfold plainChar. by rewrite allChars_and, Hb, Hh.
    - apply (short_le _ line); [lia|done]. }
  destruct (Fields line') as [|first rest] eqn:E; [constructor|].
  destruct (isIPString first).
  - destruct (_ <? _)%nat; [constructor|].
    apply hostsOf_tokens. by inversion Hfields.
  - by apply hostsOf_tokens.
Qed.

Lemma scanTokens_short ls : Forall (fun l => short l = true) (scanTokens ls).
Proof.
  induction ls as [|l ls IH]; cbn; [constructor|].
  destruct (_ <? _)%N eqn:E; [|constructor]. constructor; [|exact IH].
  apply (short_le _ l); [apply length_TrimSuffix|exact E].
Qed.

(** Every rule that [readLines] returns is a token. *)
Lemma readLines_tokens isIPString text :
  Forall (fun x => isToken x = true) (readLines isIPString text).
Proof.
  unfold readLines. apply Forall_flat_map.
  eapply Forall_impl; [apply scanTokens_short|].
  intros l Hl. by apply parseLine_tokens.
Qed.

(** *** Reading back what was written *)

Lemma splitLines_line k rest :
  allChars (isNot lf) k = true ->
  splitLines (k +:+ String lf rest) = k :: splitLines rest.
Proof.
  induction k as [|c k IH]; intros Hk.
  - unfold_append. cbn. reflexivity.
  - cbn [allChars] in Hk. apply andb_true_iff in Hk as [Hc Hk].
    unfold isNot in Hc. apply negb_true_iff in Hc.
    unfold_append. cbn [splitLines]. by rewrite Hc, (IH Hk).
Qed.

Lemma splitLines_linesOf ks :
  Forall (fun k => isToken k = true) ks -> splitLines (linesOf ks) = ks.
Proof.
  induction 1 as [|k ks Hk Hks IH]; [reflexivity|]. cbn [linesOf foldr].
  rewrite splitLines_line.
  - fold (linesOf ks). by rewrite IH.
  - apply (token_chars k); [|done]. intros c Hc. by apply plainChar_parts in Hc as (? & ? & ? & ?).
Qed.

Lemma scanTokens_tokens ks :
  Forall (fun k => isToken k = true) ks -> scanTokens ks = ks.
Proof.
  induction 1 as [|k ks Hk Hks IH]; [reflexivity|]. cbn [scanTokens].
  pose proof (isToken_parts k Hk) as (_ & _ & Hs). unfold short in Hs. rewrite Hs.
  rewrite TrimSuffix_absent, IH; [done|].
  apply (token_chars k); [|done]. intros c Hc. by apply plainChar_parts in Hc as (? & ? & ? & ?).
Qed.

(** A file of one token per line is read back as the survivors of its
    tokens, in the order of the lines. *)
Lemma readLines_linesOf isIPString ks :
  Forall (fun k => isToken k = true) ks ->
  readLines isIPString (linesOf ks) = flat_map (survivors isIPString) ks.
Proof.
  intros Hks. unfold readLines.
  rewrite (splitLines_linesOf ks Hks), (scanTokens_tokens ks Hks).
  induction Hks as [|k ks Hk Hks IH]; [reflexivity|].
  cbn [flat_map]. by rewrite (parseLine_token _ k Hk), IH.
Qed.

(** *** The set that is written *)





End ScannerFacts.

(** ** The list store *)

Module StoreFacts.
Import Strings FS Blocklist Statements StringFacts TokenFacts ScannerFacts.

(** *** The set of the appending functions *)





(** *** The file that is written *)

Lemma Create_usable d L :
  listFileUsable d L ->
  exists d1, Create d (listPath L) = Some d1 /\
             entries d1 = <[listPath L := File true true EmptyString]> (entries d) /\
             canList d1 = canList d /\ room d1 = room d.
Proof.
  unfold listFileUsable, Create.
  destruct (entries d !! listPath L) as [[|[] [] data]|]; try done.
  - intros _. by eexists.
  - intros ->. by eexists.
Qed.


Lemma length_append (a b : string) :
  String.length (a +:+ b) = String.length a + String.length b.
Proof. induction a as [|c a IH]; unfold_append; cbn; [done|]. by rewrite IH. Qed.

Lemma fits_shorter d name a b :
  String.length a <= String.length b -> fits d name b = true -> fits d name a = true.
Proof.
  unfold fits. destruct (room d name) as [n|]; [|done].
  rewrite !Nat.leb_le. lia.
Qed.

Lemma fits_longer d name a b :
  String.length a <= String.length b -> fits d name a = false -> fits d name b = false.
Proof.
  unfold fits. destruct (room d name) as [n|]; [|done].
  rewrite !Nat.leb_gt. lia.
Qed.

Lemma fits_empty d name : fits d name EmptyString = true.
Proof. unfold fits. by destruct (room d name). Qed.

(** A write loop on an open file succeeds exactly when the disk has room
    for all its lines. *)
Lemma writeAll_ok ks d path r w data :
  entries d !! path = Some (File r w data) ->
  fits d path data = true ->
  (writeAll d path ks).2 = fits d path (data +:+ linesOf ks).
Proof.
  revert d data. induction ks as [|k ks IH]; intros d data Hd Hfit.
  - cbn. by rewrite append_empty_r, Hfit.
  - cbn [writeAll linesOf foldr]. fold (linesOf ks). unfold WriteString.
    rewrite Hd.
    destruct (fits d path (data +:+ (k +:+ String lf EmptyString))) eqn:E.
    + rewrite (IH _ (data +:+ (k +:+ String lf EmptyString)));
        [|cbn; apply lookup_insert_eq|exact E].
      unfold fits. cbn [room]. rewrite !append_assoc. by unfold_append.
    + cbn [snd]. symmetry. eapply fits_longer; [|exact E].
      rewrite !length_append. cbn [String.length]. lia.
Qed.

(** When it succeeds, the file holds the lines behind what it held. *)
Lemma writeAll_entries ks d path r w data :
  entries d !! path = Some (File r w data) ->
  fits d path (data +:+ linesOf ks) = true ->
  exists d', writeAll d path ks = (d', true) /\
             entries d' = <[path := File r w (data +:+ linesOf ks)]> (entries d) /\
             canList d' = canList d /\ room d' = room d.
Proof.
  revert d data. induction ks as [|k ks IH]; intros d data Hd Hfit.
  - exists d. cbn. rewrite append_empty_r. by rewrite insert_id.
  - cbn [writeAll linesOf foldr] in *. fold (linesOf ks) in *.
    unfold WriteString. rewrite Hd.
    assert (E : fits d path (data +:+ (k +:+ String lf EmptyString)) = true).
    { eapply fits_shorter; [|exact Hfit].
      rewrite !length_append. cbn [String.length]. lia. }
    rewrite E.
    destruct (IH {| canList := canList d; canCreate := canCreate d;
                    entries := <[path := File r w (data +:+ (k +:+ String lf EmptyString))]>
                                 (entries d);
                    room := room d |}
                (data +:+ (k +:+ String lf EmptyString)))
      as (d' & Hw & He & Hl & Hr).
    { cbn. apply lookup_insert_eq. }
    { unfold fits in *. cbn [room]. revert Hfit. rewrite !append_assoc.
      by unfold_append. }
    exists d'. split; [exact Hw|]. rewrite He, Hl, Hr. cbn.
    rewrite insert_insert_eq. split; [|done]. do 2 f_equal.
    rewrite !append_assoc. by unfold_append.
Qed.

(** Creating the file of a list and filling it with lines for which there
    is room. *)
Lemma written_file d L ks :
  listFileUsable d L ->
  roomFor d L (linesOf ks) ->
  exists d1 d2,
    Create d (listPath L) = Some d1 /\
    writeAll d1 (listPath L) ks = (d2, true) /\
    entries d2 = <[listPath L := File true true (linesOf ks)]> (entries d) /\
    canList d2 = canList d.
Proof.
  intros Husable Hroom.
  destruct (Create_usable d L Husable) as (d1 & Hc & He1 & Hl1 & Hr1).
  destruct (writeAll_entries ks d1 (listPath L) true true EmptyString)
    as (d2 & Hw & He2 & Hl2 & _).
  { rewrite He1. apply lookup_insert_eq. }
  { rewrite append_nil_l. unfold roomFor, fits in *. by rewrite Hr1. }
  exists d1, d2. split; [exact Hc|]. split; [exact Hw|].
  rewrite He2, He1, insert_insert_eq, append_nil_l, Hl2, Hl1. done.
Qed.

(** After [Create], a write loop ends well exactly when the disk has room
    for its lines. *)
Lemma Create_empty d path d1 :
  Create d path = Some d1 ->
  entries d1 !! path = Some (File true true EmptyString) /\ room d1 = room d.
Proof.
  unfold Create. destruct (entries d !! path) as [[|[|] [|] data]|]; try done.
  - intros [= <-]. cbn. by rewrite lookup_insert_eq.
  - destruct (canCreate d); [|done]. intros [= <-]. cbn.
    by rewrite lookup_insert_eq.
Qed.

Lemma writeAll_after_Create d L d1 ks :
  Create d (listPath L) = Some d1 ->
  (writeAll d1 (listPath L) ks).2 = fits d (listPath L) (linesOf ks).
Proof.
  intros Hc. destruct (Create_empty d (listPath L) d1 Hc) as [He Hr].
  rewrite (writeAll_ok ks d1 (listPath L) true true EmptyString He (fits_empty _ _)).
  rewrite append_nil_l. unfold fits. by rewrite Hr.
Qed.

(** *** The key under which a list file is loaded *)

Lemma HasSuffix_txt L : HasSuffix (ToLower (listPath L)) ".txt" = true.
Proof.
  unfold listPath. induction L as [|c L IH]; [reflexivity|].
  unfold_append. cbn [ToLower HasSuffix]. rewrite IH. apply orb_true_r.
Qed.

Lemma Ext_txt L : Ext (listPath L) = ".txt".
Proof.
  unfold listPath. induction L as [|c L IH]; [reflexivity|].
  unfold_append. cbn [Ext]. by rewrite IH.
Qed.

Lemma TrimSuffix_txt L : TrimSuffix (listPath L) ".txt" = L.
Proof.
  unfold listPath. induction L as [|c L IH]; [reflexivity|].
  unfold_append. cbn [TrimSuffix]. rewrite IH.
  destruct (String.eqb (String c (L +:+ ".txt")) ".txt") eqn:E; [|done].
  apply String.eqb_eq in E. apply (f_equal String.length) in E.
  cbn in E. rewrite length_append in E. cbn in E. lia.
Qed.

Lemma loadEntry_list isIPString acc L w data :
  loadEntry isIPString acc (listPath L, File true w data)
  = <[L := readLines isIPString data]> acc.
Proof.
  unfold loadEntry. cbn [fst snd]. by rewrite HasSuffix_txt, Ext_txt, TrimSuffix_txt.
Qed.

Lemma loadEntry_other isIPString acc L name n :
  (HasSuffix (ToLower name) ".txt" = true -> TrimSuffix name (Ext name) <> L) ->
  loadEntry isIPString acc (name, n) !! L = acc !! L.
Proof.
  intros H. unfold loadEntry. cbn [fst snd]. destruct n as [|r w data]; [done|].
  destruct (HasSuffix (ToLower name) ".txt"); [|done]. cbn.
  destruct r; [|done]. cbn. rewrite lookup_insert_ne; [done|]. by apply H.
Qed.

Lemma ReadDir_elem d ents e :
  ReadDir d = Some ents -> e ∈ ents <-> entries d !! e.1 = Some e.2.
Proof.
  unfold ReadDir. destruct (canList d); [|done]. intros [= <-].
  rewrite merge_sort_Permutation. destruct e as [name n].
  apply elem_of_map_to_list.
Qed.

End StoreFacts.

(** ** The order in which [LoadAll] meets the files *)

Module ListingFacts.
Import Strings FS Blocklist Statements StringFacts TokenFacts ScannerFacts StoreFacts.

(** *** The order of file names *)

Lemma leb_not_Gt a b : String.leb a b = true <-> String.compare a b <> Gt.
Proof. unfold String.leb. by destruct (String.compare a b). Qed.

Lemma compare_le_trans a b c :
  String.compare a b <> Gt -> String.compare b c <> Gt -> String.compare a c <> Gt.
Proof.
  revert b c. induction a as [|x a IH]; intros b c Hab Hbc.
  - by destruct c.
  - destruct b as [|y b]; [done|]. destruct c as [|z c]; [done|].
    cbn [String.compare] in *. unfold Ascii.compare in *.
    destruct (N.compare_spec (N_of_ascii x) (N_of_ascii y)) as [Hxy|Hxy|Hxy];
      [| |done];
      destruct (N.compare_spec (N_of_ascii y) (N_of_ascii z)) as [Hyz|Hyz|Hyz];
      try done.
    + rewrite Hxy, Hyz, N.compare_refl. by apply (IH b c).
    + rewrite Hxy. by apply N.compare_lt_iff in Hyz as ->.
    + rewrite <- Hyz. by apply N.compare_lt_iff in Hxy as ->.
    + assert (H : (N_of_ascii x < N_of_ascii z)%N) by lia.
      by apply N.compare_lt_iff in H as ->.
Qed.

#[export] Instance nameLe_trans : Transitive nameLe.
Proof.
  intros a b c. unfold nameLe. rewrite !leb_not_Gt. apply compare_le_trans.
Qed.

#[export] Instance nameLe_total : Total nameLe.
Proof. intros a b. unfold nameLe. apply String.leb_total. Qed.

Lemma compare_append_l base a b :
  String.compare (base +:+ a) (base +:+ b) = String.compare a b.
Proof.
  induction base as [|c base IH]; [done|]. unfold_append. cbn [String.compare].
  unfold Ascii.compare. by rewrite N.compare_refl.
Qed.

(** *** The names that are loaded as list [L] *)

Lemma toLowerChar_dot c : toLowerChar c = "."%char -> c = "."%char.
Proof. destruct c as [[] [] [] [] [] [] [] []]; cbn; intros H; done. Qed.

Lemma toLowerChar_t c : toLowerChar c = "t"%char -> c = "t"%char \/ c = "T"%char.
Proof. destruct c as [[] [] [] [] [] [] [] []]; cbn; intros H; auto; done. Qed.

Lemma toLowerChar_x c : toLowerChar c = "x"%char -> c = "x"%char \/ c = "X"%char.
Proof. destruct c as [[] [] [] [] [] [] [] []]; cbn; intros H; auto; done. Qed.

Lemma txt_split name :
  HasSuffix (ToLower name) ".txt" = true ->
  exists base ext, name = base +:+ ext /\ isTxt ext.
Proof.
  induction name as [|c name IH]; [done|]. cbn [ToLower HasSuffix].
  rewrite orb_true_iff. intros [H|H].
  - apply String.eqb_eq in H. injection H as Hc Hn.
    destruct name as [|e1 [|e2 [|e3 [|]]]]; try done.
    cbn in Hn. injection Hn as H1 H2 H3.
    exists EmptyString, (String c (String e1 (String e2 (String e3 EmptyString)))).
    split; [done|]. exists e1, e2, e3. apply toLowerChar_dot in Hc as ->.
    split; [done|]. split; [by apply toLowerChar_t|].
    split; [by apply toLowerChar_x|by apply toLowerChar_t].
  - destruct (IH H) as (base & ext & -> & Hext).
    by exists (String c base), ext.
Qed.

Lemma Ext_isTxt base ext : isTxt ext -> Ext (base +:+ ext) = ext.
Proof.
  intros (e1 & e2 & e3 & -> & H1 & H2 & H3).
  induction base as [|c base IH].
  - destruct H1 as [-> | ->], H2 as [-> | ->], H3 as [-> | ->]; reflexivity.
  - unfold_append. cbn [Ext]. by rewrite IH.
Qed.

Lemma TrimSuffix_append base ext : TrimSuffix (base +:+ ext) ext = base.
Proof.
  induction base as [|c base IH].
  - unfold_append. destruct ext; cbn [TrimSuffix]; by rewrite String.eqb_refl.
  - unfold_append. cbn [TrimSuffix]. rewrite IH.
    destruct (String.eqb (String c (base +:+ ext)) ext) eqn:E; [|done].
    apply String.eqb_eq in E. apply (f_equal String.length) in E.
    cbn in E. rewrite length_append in E. lia.
Qed.

Lemma isTxt_le ext : isTxt ext -> String.leb ext ".txt" = true.
Proof.
  intros (e1 & e2 & e3 & -> & H1 & H2 & H3).
  destruct H1 as [-> | ->], H2 as [-> | ->], H3 as [-> | ->]; reflexivity.
Qed.

(** A name that is loaded under the key [L] is not above [L.txt]. *)
Lemma loaded_name_le name L :
  HasSuffix (ToLower name) ".txt" = true ->
  TrimSuffix name (Ext name) = L ->
  String.leb name (listPath L) = true.
Proof.
  intros Htxt Hkey. destruct (txt_split name Htxt) as (base & ext & -> & Hext).
  rewrite (Ext_isTxt base ext Hext), TrimSuffix_append in Hkey. subst base.
  unfold listPath. apply leb_not_Gt. rewrite compare_append_l.
  apply leb_not_Gt. by apply isTxt_le.
Qed.

(** *** The listing *)

Lemma foldl_loadEntry_keeps isIPString L ents acc :
  (forall e, e ∈ ents ->
     HasSuffix (ToLower e.1) ".txt" = true -> TrimSuffix e.1 (Ext e.1) <> L) ->
  foldl (loadEntry isIPString) acc ents !! L = acc !! L.
Proof.
  revert acc. induction ents as [|[name n] ents IH]; intros acc Hall; [done|].
  cbn [foldl]. rewrite IH.
  - apply loadEntry_other. apply (Hall (name, n)). by left.
  - intros e He. apply Hall. by right.
Qed.

(** In a listing sorted by name and without a repeated name, the file
    [L.txt] is the last that is loaded as list [L]. *)
Lemma foldl_loadEntry_sorted isIPString L w data ents acc :
  StronglySorted nameLe ents -> NoDup ents.*1 ->
  (listPath L, File true w data) ∈ ents ->
  foldl (loadEntry isIPString) acc ents !! L = Some (readLines isIPString data).
Proof.
  intros Hsorted. revert acc.
  induction Hsorted as [|e ents Hs IH Hle]; intros acc Hnd Hin.
  - by apply elem_of_nil in Hin.
  - cbn [fmap list_fmap] in Hnd. apply NoDup_cons in Hnd as [Hfresh Hnd].
    cbn [foldl]. apply elem_of_cons in Hin as [<-|Hin]; [|by apply IH].
    rewrite foldl_loadEntry_keeps, loadEntry_list; [apply lookup_insert_eq|].
    intros e' He' Htxt Hkey. apply Hfresh. cbn [fst].
    rewrite Forall_forall in Hle. specialize (Hle e' He'). unfold nameLe in Hle.
    cbn [fst] in Hle.
    rewrite (String.leb_antisym _ _ Hle (loaded_name_le _ _ Htxt Hkey)).
    apply list_elem_of_fmap. by exists e'.
Qed.

Lemma ReadDir_sorted d ents :
  ReadDir d = Some ents -> StronglySorted nameLe ents /\ NoDup ents.*1.
Proof.
  unfold ReadDir. destruct (canList d); [|done]. intros [= <-]. split.
  - apply StronglySorted_merge_sort; apply _.
  - rewrite merge_sort_Permutation. apply NoDup_fst_map_to_list.
Qed.

End ListingFacts.

(** ** The recent log *)

Module TelemetryFacts.
Import Strings FS Blocklist BlocklistRest Statements.

Lemma pushRecent_drop cap r e :
  exists k, pushRecent cap r e = drop k (r ++ [e]).
Proof.
  unfold pushRecent. destruct (_ >? _)%Z; [by eexists|]. by exists 0.
Qed.

Lemma pushRecent_length cap r e :
  (0 <= cap)%Z -> (Z.of_nat (length (pushRecent cap r e)) <= cap)%Z.
Proof.
  intros Hcap. unfold pushRecent.
  destruct (Z.of_nat (length (r ++ [e])) >? cap)%Z eqn:E.
  - rewrite length_drop. lia.
  - lia.
Qed.

Lemma pushRecent_room cap r e :
  (Z.of_nat (length r) < cap)%Z -> pushRecent cap r e = r ++ [e].
Proof.
  intros H. unfold pushRecent.
  destruct (Z.of_nat (length (r ++ [e])) >? cap)%Z eqn:E; [|done].
  apply Z.gtb_lt in E. rewrite length_app in E. cbn [length] in E. lia.
Qed.

Lemma pushRecent_last cap r e :
  (1 <= cap)%Z -> last (pushRecent cap r e) = Some e.
Proof.
  intros Hcap. unfold pushRecent.
  destruct (Z.of_nat (length (r ++ [e])) >? cap)%Z eqn:E; [|apply last_snoc].
  apply Z.gtb_lt in E. rewrite length_app in *. cbn [length] in *.
  replace (Z.to_nat (Z.of_nat (length r + 1) - cap))
    with (length r - Z.to_nat (cap - 1)) by lia.
  rewrite drop_app_le by lia. apply last_snoc.
Qed.

Lemma last_drop {A} (l : list A) k :
  k < length l -> last (drop k l) = last l.
Proof.
  revert k. induction l as [|x l IH]; intros k Hk; [cbn in Hk; lia|].
  destruct k as [|k]; [done|]. cbn [drop]. cbn in Hk.
  rewrite IH by lia. destruct l; [cbn in Hk; lia|done].
Qed.

Lemma GetLogs_drop b limit :
  let n := Z.of_nat (length (recent b)) in
  let size := if ((limit <=? 0) || (limit >? n))%Z then n else limit in
  GetLogs b limit = drop (Z.to_nat (n - size)) (recent b) /\
  Z.of_nat (length (GetLogs b limit)) = size.
Proof.
  cbv zeta. unfold GetLogs. cbv zeta.
  set (n := Z.of_nat (length (recent b))).
  set (size := if ((limit <=? 0) || (limit >? n))%Z then n else limit).
  assert (Hsize : (0 <= size <= n)%Z).
  { unfold size. destruct ((limit <=? 0) || (limit >? n))%Z eqn:E; [lia|].
    apply orb_false_iff in E. lia. }
  assert (Hlen : length (drop (Z.to_nat (n - size)) (recent b)) = Z.to_nat size).
  { rewrite length_drop. lia. }
  rewrite take_ge by lia. split; [done|]. rewrite Hlen. lia.
Qed.

Lemma GetLogs_clearRecent (b : BlocklistManager) (limit : Z) :
  GetLogs (clearRecent b) limit = [].
Proof. unfold GetLogs. cbn [recent clearRecent]. by rewrite drop_nil, take_nil. Qed.

End TelemetryFacts.

(** ** Facts about the listing of a list's rules *)

Module PagingFacts.
Import Strings FS Blocklist BlocklistRest Statements MoreStatements.

Lemma Contains_empty s : Contains s EmptyString = true.
Proof. unfold Contains, Index. by destruct s. Qed.

Lemma filter_Contains_empty arr :
  List.filter (fun d => Contains d EmptyString) arr = arr.
Proof.
  induction arr as [|a arr IH]; [done|]. cbn [List.filter].
  by rewrite Contains_empty, IH.
Qed.

Lemma wrap64_small z : (- 2 ^ 63 <= z < 2 ^ 63)%Z -> wrap64 z = z.
Proof. intros H. unfold wrap64. rewrite Z.mod_small; lia. Qed.

Lemma wrap64_over z : (2 ^ 63 <= z < 2 ^ 64)%Z -> wrap64 z = (z - 2 ^ 64)%Z.
Proof.
  intros H. unfold wrap64.
  replace (z + 2 ^ 63)%Z with ((z - 2 ^ 63) + 1 * 2 ^ 64)%Z by lia.
  rewrite Z.mod_add by lia. rewrite Z.mod_small; lia.
Qed.

Lemma half_pos bits : isWidth bits -> (0 < 2 ^ (bits - 1))%Z.
Proof. intros [-> | ->]; reflexivity. Qed.

Lemma double_half bits : isWidth bits -> (2 ^ bits = 2 * 2 ^ (bits - 1))%Z.
Proof. intros [-> | ->]; reflexivity. Qed.

Lemma wrapTo_small bits z :
  isWidth bits -> isIntOf bits z -> wrapTo bits z = z.
Proof.
  intros Hw Hz. unfold wrapTo, isIntOf in *.
  pose proof (half_pos bits Hw). rewrite (double_half bits Hw).
  rewrite Z.mod_small; lia.
Qed.

Lemma wrapTo_over bits z :
  isWidth bits -> (2 ^ (bits - 1) <= z < 2 ^ bits)%Z ->
  wrapTo bits z = (z - 2 ^ bits)%Z.
Proof.
  intros Hw Hz. unfold wrapTo.
  pose proof (half_pos bits Hw). rewrite (double_half bits Hw) in *.
  replace (z + 2 ^ (bits - 1))%Z
    with ((z - 2 ^ (bits - 1)) + 1 * (2 * 2 ^ (bits - 1)))%Z by lia.
  rewrite Z.mod_add by lia. rewrite Z.mod_small; lia.
Qed.

Lemma pageSize_pos limit : (1 <= pageSize limit)%Z.
Proof. unfold pageSize. destruct (Z.leb_spec limit 0); lia. Qed.

Lemma pageSize_int bits limit :
  isWidth bits -> isIntOf bits limit -> (pageSize limit < 2 ^ (bits - 1))%Z.
Proof.
  intros Hw Hl. unfold pageSize, isIntOf in *.
  destruct (Z.leb_spec limit 0); [|lia]. by destruct Hw as [-> | ->].
Qed.

Lemma ListDomains_filtered bits b name arr offset limit q :
  lists b !! name = Some arr ->
  ListDomains bits b name offset limit q =
    let filtered := containing q arr in
    let total := Z.of_nat (length filtered) in
    let off := Z.max 0 offset in
    if (off >=? total)%Z then Returned (total, [], None)
    else
      let upper := wrapTo bits (off + pageSize limit) in
      let upper := if (upper >? total)%Z then total else upper in
      if (upper <? off)%Z then Panicked
      else Returned (total,
                     take (Z.to_nat (upper - off)) (drop (Z.to_nat off) filtered),
                     None).
Proof.
  intros Hl. unfold ListDomains, containing, pageSize. rewrite Hl. cbv zeta.
  replace (if (offset <? 0)%Z then 0%Z else offset) with (Z.max 0 offset)
    by (destruct (Z.ltb_spec offset 0); lia).
  destruct (String.eqb (ToLower (TrimSpace q)) "") eqn:E; [|done].
  apply String.eqb_eq in E. rewrite E. by rewrite filter_Contains_empty.
Qed.

Lemma ListDomains_in_range bits b name arr offset limit q :
  isWidth bits ->
  lists b !! name = Some arr ->
  (Z.max 0 offset + pageSize limit < 2 ^ (bits - 1))%Z ->
  ListDomains bits b name offset limit q
  = Returned (Z.of_nat (length (containing q arr)),
              take (Z.to_nat (pageSize limit))
                   (drop (Z.to_nat (Z.max 0 offset)) (containing q arr)),
              None).
Proof.
  intros Hw Hl Hsum.
  rewrite (ListDomains_filtered bits b name arr offset limit q Hl).
  cbv zeta. set (f := containing q arr). set (off := Z.max 0 offset) in *.
  pose proof (pageSize_pos limit) as Hps. pose proof (half_pos bits Hw) as Hh.
  destruct (Z.geb_spec off (Z.of_nat (length f))) as [Hge|Hlt].
  - rewrite drop_ge by lia. by rewrite take_nil.
  - rewrite (wrapTo_small bits) by (done || unfold isIntOf; lia).
    destruct (Z.gtb_spec (off + pageSize limit) (Z.of_nat (length f))) as [Hg|Hg].
    + destruct (Z.ltb_spec (Z.of_nat (length f)) off); [lia|].
      do 2 f_equal. rewrite !take_ge; [done| |]; rewrite length_drop; lia.
    + destruct (Z.ltb_spec (off + pageSize limit) off); [lia|].
      by replace (off + pageSize limit - off)%Z with (pageSize limit) by lia.
Qed.

Lemma ListDomains_overflow bits b name arr offset limit q :
  isWidth bits ->
  isIntOf bits offset -> isIntOf bits limit ->
  lists b !! name = Some arr ->
  (Z.max 0 offset < Z.of_nat (length (containing q arr)))%Z ->
  (2 ^ (bits - 1) <= Z.max 0 offset + pageSize limit)%Z ->
  ListDomains bits b name offset limit q = Panicked.
Proof.
  intros Hw Ho Hi Hl Hlt Hsum.
  rewrite (ListDomains_filtered bits b name arr offset limit q Hl).
  cbv zeta. set (f := containing q arr) in *. set (off := Z.max 0 offset) in *.
  pose proof (pageSize_pos limit) as Hps.
  pose proof (pageSize_int bits limit Hw Hi) as Hpi.
  pose proof (half_pos bits Hw) as Hh. pose proof (double_half bits Hw) as Hd.
  assert (Hoff : (off < 2 ^ (bits - 1))%Z) by (unfold isIntOf in Ho; lia).
  destruct (Z.geb_spec off (Z.of_nat (length f))) as [Hge|_]; [lia|].
  rewrite (wrapTo_over bits) by (done || lia).
  destruct (Z.gtb_spec (off + pageSize limit - 2 ^ bits) (Z.of_nat (length f)));
    [lia|].
  destruct (Z.ltb_spec (off + pageSize limit - 2 ^ bits) off); [done|lia].
Qed.

End PagingFacts.

(** ** Facts about the rewriting of a list file *)

Module RewriteFacts.
Import Strings FS Blocklist BlocklistRest Statements MoreStatements.

Lemma foldl_removeStep norm arr acc :
  foldl (removeStep norm) acc arr
  = (acc.1 ++ without norm arr, acc.2 || existsb (fun k => String.eqb k norm) arr).
Proof.
  revert acc. induction arr as [|k arr IH]; intros [kept seen].
  - cbn. by rewrite app_nil_r, orb_false_r.
  - cbn [foldl]. rewrite IH. unfold removeStep, without. cbn [List.filter existsb fst snd].
    destruct (String.eqb k norm); cbn [negb fst snd orb].
    + by rewrite orb_true_r.
    + by rewrite <- app_assoc.
Qed.

Lemma existsb_eqb norm arr :
  existsb (fun k => String.eqb k norm) arr = true <-> norm ∈ arr.
Proof.
  rewrite existsb_exists, list_elem_of_In. split.
  - by intros (k & Hk & ->%String.eqb_eq).
  - intros H. exists norm. by rewrite String.eqb_refl.
Qed.

Lemma without_absent norm arr : norm ∉ without norm arr.
Proof.
  unfold without. rewrite list_elem_of_In, filter_In, String.eqb_refl.
  by intros [_ ?].
Qed.

Lemma LoadAll_list isIPString o d b L w data :
  canList d = true ->
  entries d !! listPath L = Some (File true w data) ->
  exists ls, LoadAll isIPString o d b = (loaded o b ls, None) /\
             ls !! L = Some (readLines isIPString data).
Proof.
  intros Hlist He. unfold LoadAll.
  destruct (ReadDir d) as [ents|] eqn:Hents;
    [|by unfold ReadDir in Hents; rewrite Hlist in Hents].
  eexists. split; [reflexivity|].
  destruct (ListingFacts.ReadDir_sorted d ents Hents) as [Hsorted Hnodup].
  apply (ListingFacts.foldl_loadEntry_sorted isIPString L w); [done|done|].
  by apply (StoreFacts.ReadDir_elem d ents _ Hents).
Qed.

Lemma flat_map_stable isIPString ks :
  Forall (fun k => survivors isIPString k = [k]) ks ->
  flat_map (survivors isIPString) ks = ks.
Proof.
  induction 1 as [|k ks Hk _ IH]; [done|]. cbn [flat_map]. by rewrite Hk, IH.
Qed.

Lemma Forall_without (P : string -> Prop) norm arr :
  Forall P arr -> Forall P (without norm arr).
Proof.
  intros H. apply Forall_forall. intros k Hk.
  apply list_elem_of_In, filter_In in Hk as [Hk _].
  by apply (proj1 (Forall_forall P arr) H), list_elem_of_In.
Qed.

End RewriteFacts.

(** ** Facts about the counts that the list operations return *)

Module CountFacts.
Import Strings FS Blocklist BlocklistRest Statements MoreStatements.

Lemma incr_wrap64 z : incr (wrap64 z) = wrap64 (z + 1).
Proof.
  unfold incr, wrap64. f_equal.
  replace ((z + 2 ^ 63) mod 2 ^ 64 - 2 ^ 63 + 1 + 2 ^ 63)%Z
    with ((z + 2 ^ 63) mod 2 ^ 64 + 1)%Z by lia.
  rewrite Zplus_mod_idemp_l. f_equal. lia.
Qed.




Lemma writeCounted_writeAll path ks d z :
  ((writeCounted d path ks z).1.1, (writeCounted d path ks z).2)
  = writeAll d path (List.filter (fun l => negb (String.eqb l "")) ks).
Proof.
  revert d z. induction ks as [|k ks IH]; intros d z; [done|].
  cbn [writeCounted List.filter]. destruct (String.eqb k ""); cbn [negb]; [apply IH|].
  cbn [writeAll]. destruct (WriteString d path _) as [d' [|]]; [apply IH|done].
Qed.

Lemma writeCounted_writeAll_fst L ks d z :
  (writeCounted d (listPath L) ks z).1.1
  = (writeAll d (listPath L) (List.filter (fun l => negb (String.eqb l "")) ks)).1.
Proof. by rewrite <- (writeCounted_writeAll (listPath L) ks d z). Qed.

Lemma filter_nonempty ks :
  Forall (fun k => k <> EmptyString) ks ->
  List.filter (fun l => negb (String.eqb l "")) ks = ks.
Proof.
  induction 1 as [|k ks Hk _ IH]; [done|]. cbn [List.filter].
  apply String.eqb_neq in Hk. by rewrite Hk, IH.
Qed.



Lemma wrap64_0 : wrap64 0 = 0%Z.
Proof. reflexivity. Qed.



End CountFacts.

(** ** Facts about the rules that [readLines] yields *)

Module RuleFacts.
Import Strings FS Blocklist BlocklistRest Statements MoreStatements.

Lemma toLowerChar_idem c : toLowerChar (toLowerChar c) = toLowerChar c.
Proof. by destruct c as [[] [] [] [] [] [] [] []]. Qed.

Lemma ToLower_idem s : ToLower (ToLower s) = ToLower s.
Proof.
  induction s as [|c s IH]; [done|]. cbn [ToLower]. by rewrite toLowerChar_idem, IH.
Qed.

Lemma normalizePattern_lower p : ToLower (normalizePattern p) = normalizePattern p.
Proof.
  unfold normalizePattern. cbv zeta.
  destruct (String.eqb _ "" || HasPrefix _ "#"); [done|apply ToLower_idem].
Qed.

Lemma hostsOf_rules isIPString fields :
  Forall (fun k => isLocalHostName k = false /\ isIPString k = false /\
                   ToLower k = k)
         (hostsOf isIPString fields).
Proof.
  unfold hostsOf. induction fields as [|f fields IH]; [constructor|].
  cbn [flat_map]. apply Forall_app. split; [|exact IH].
  destruct (String.eqb (TrimSpace f) ""); [constructor|]. cbv zeta.
  destruct (String.eqb (normalizePattern (TrimSpace f)) "") eqn:E1; [constructor|].
  destruct (isLocalHostName (normalizePattern (TrimSpace f))) eqn:E2; [constructor|].
  destruct (isIPString (normalizePattern (TrimSpace f))) eqn:E3; [constructor|].
  cbn [orb]. constructor; [|constructor].
  split; [done|]. split; [done|]. apply normalizePattern_lower.
Qed.

Lemma parseLine_rules isIPString line :
  Forall (fun k => isLocalHostName k = false /\ isIPString k = false /\
                   ToLower k = k)
         (parseLine isIPString line).
Proof.
  unfold parseLine. cbv zeta.
  destruct (String.eqb _ ""); [constructor|].
  destruct (Fields _) as [|first rest] eqn:E; [constructor|].
  destruct (isIPString first); [|apply hostsOf_rules].
  destruct (length (first :: rest) <? 2)%nat; [constructor|apply hostsOf_rules].
Qed.

Lemma readLines_rules isIPString text :
  Forall (fun k => isRule isIPString k = true) (readLines isIPString text).
Proof.
  pose proof (ScannerFacts.readLines_tokens isIPString text) as Htok.
  assert (Hr : Forall (fun k => isLocalHostName k = false /\ isIPString k = false /\
                                ToLower k = k) (readLines isIPString text)).
  { unfold readLines. induction (scanTokens (splitLines text)) as [|l ls IH];
      [constructor|].
    cbn [flat_map]. apply Forall_app. split; [apply parseLine_rules|exact IH]. }
  apply Forall_forall. intros k Hk.
  pose proof (proj1 (Forall_forall _ _) Htok k Hk) as H1.
  pose proof (proj1 (Forall_forall _ _) Hr k Hk) as (H2 & H3 & H4).
  unfold isRule. rewrite H1, H2, H3, H4. cbn. apply String.eqb_refl.
Qed.

Lemma hostsOf_kept isIPString fields :
  Forall (fun k => isKept isIPString k = true) (hostsOf isIPString fields).
Proof.
  unfold hostsOf. induction fields as [|f fields IH]; [constructor|].
  cbn [flat_map]. apply Forall_app. split; [|exact IH].
  destruct (String.eqb (TrimSpace f) ""); [constructor|]. cbv zeta.
  destruct (String.eqb (normalizePattern (TrimSpace f)) "") eqn:E1; [constructor|].
  destruct (isLocalHostName (normalizePattern (TrimSpace f))) eqn:E2; [constructor|].
  destruct (isIPString (normalizePattern (TrimSpace f))) eqn:E3; [constructor|].
  cbn [orb]. constructor; [|constructor]. unfold isKept. by rewrite E1, E2, E3.
Qed.

Lemma parseLine_kept isIPString line :
  Forall (fun k => isKept isIPString k = true) (parseLine isIPString line).
Proof.
  unfold parseLine. cbv zeta.
  destruct (String.eqb _ ""); [constructor|].
  destruct (Fields _) as [|first rest] eqn:E; [constructor|].
  destruct (isIPString first); [|apply hostsOf_kept].
  destruct (length (first :: rest) <? 2)%nat; [constructor|apply hostsOf_kept].
Qed.

Lemma readLines_kept isIPString text :
  Forall (fun k => isKept isIPString k = true) (readLines isIPString text).
Proof.
  unfold readLines. induction (scanTokens (splitLines text)) as [|l ls IH];
    [constructor|].
  cbn [flat_map]. apply Forall_app. split; [apply parseLine_kept|exact IH].
Qed.

Lemma stripComment_append a c :
  allChars (isNot "#"%char) a = true ->
  stripComment (a +:+ String "#"%char c) = a.
Proof.
  induction a as [|x a IH]; intros Ha.
  - rewrite StringFacts.append_nil_l. by rewrite ScannerFacts.stripComment_cons.
  - cbn [allChars] in Ha. apply andb_true_iff in Ha as [Hx Ha].
    rewrite StringFacts.append_cons, ScannerFacts.stripComment_cons.
    unfold isNot in Hx. apply negb_true_iff in Hx. rewrite Hx. by rewrite IH.
Qed.

Lemma scanTokens_long l ls : short l = false -> scanTokens (l :: ls) = [].
Proof. unfold short. intros H. cbn [scanTokens]. by rewrite H. Qed.

Lemma readLines_cut isIPString ks long rest :
  Forall (fun k => allChars (isNot lf) k = true /\ short k = true) ks ->
  allChars (isNot lf) long = true ->
  short long = false ->
  readLines isIPString (linesOf ks +:+ long +:+ String lf rest)
  = flat_map (parseLine isIPString)
             (map (fun k => TrimSuffix k (String cr EmptyString)) ks).
Proof.
  intros Hks Hl Hs. unfold readLines.
  induction Hks as [|k ks [Hk1 Hk2] _ IH].
  - cbn [linesOf foldr]. rewrite StringFacts.append_nil_l.
    rewrite ScannerFacts.splitLines_line by done. by rewrite scanTokens_long.
  - cbn [linesOf foldr]. fold (linesOf ks).
    rewrite StringFacts.append_assoc, StringFacts.append_cons.
    rewrite ScannerFacts.splitLines_line by done.
    cbn [scanTokens]. unfold short in Hk2. rewrite Hk2.
    cbn [flat_map map]. by rewrite IH.
Qed.

Lemma readLines_lines isIPString ks :
  Forall (fun k => allChars (isNot lf) k = true /\ short k = true) ks ->
  readLines isIPString (linesOf ks)
  = flat_map (parseLine isIPString)
             (map (fun k => TrimSuffix k (String cr EmptyString)) ks).
Proof.
  intros Hks. unfold readLines.
  induction Hks as [|k ks [Hk1 Hk2] _ IH]; [done|].
  cbn [linesOf foldr]. fold (linesOf ks).
  rewrite ScannerFacts.splitLines_line by done.
  cbn [scanTokens]. unfold short in Hk2. rewrite Hk2.
  cbn [flat_map map]. by rewrite IH.
Qed.

End RuleFacts.

(** ** Facts about the pattern language *)

Module WildcardFacts.
Import Strings Regexp Wildcard FS Blocklist BlocklistRest Statements MoreStatements.

Lemma eqb_cons c x (p d : string) :
  String.eqb (String c p) (String x d) = Ascii.eqb c x && String.eqb p d.
Proof. cbn [String.eqb]. by destruct (Ascii.eqb c x). Qed.

Lemma wildcardMatch_plain run p d :
  allChars (isNot "*"%char) p = true -> wildcardMatch run p d = String.eqb p d.
Proof.
  revert d. induction p as [|c p IH]; intros d Hp.
  - cbn [wildcardMatch]. apply String.eqb_sym.
  - cbn [allChars] in Hp. apply andb_true_iff in Hp as [Hc Hp].
    unfold isNot in Hc. apply negb_true_iff in Hc.
    cbn [wildcardMatch]. rewrite Hc. destruct d as [|x d]; [done|].
    by rewrite IH, eqb_cons.
Qed.

Lemma wildcardMatch_star run s d :
  allChars (isNot "*"%char) s = true ->
  wildcardMatch run (String "*"%char s) d = true <->
  exists x, d = x +:+ s /\ allChars run x = true.
Proof.
  intros Hs. cbn [wildcardMatch]. rewrite Ascii.eqb_refl.
  induction d as [|c d IH].
  - rewrite orb_false_r, (wildcardMatch_plain run s) by done. split.
    + intros H%String.eqb_eq. exists EmptyString. by rewrite StringFacts.append_nil_l.
    + intros (x & Hx & _). destruct x as [|? ?]; [|done].
      rewrite StringFacts.append_nil_l in Hx. subst s. apply String.eqb_refl.
  - rewrite orb_true_iff, andb_true_iff, IH, (wildcardMatch_plain run s) by done.
    split.
    + intros [H%String.eqb_eq|[Hc (x & -> & Hx)]].
      * exists EmptyString. by rewrite StringFacts.append_nil_l.
      * exists (String c x). rewrite StringFacts.append_cons. split; [done|].
        cbn [allChars]. by rewrite Hc, Hx.
    + intros (x & Hd & Hx). destruct x as [|c' x].
      * left. rewrite StringFacts.append_nil_l in Hd. subst s. apply String.eqb_refl.
      * right. rewrite StringFacts.append_cons in Hd. injection Hd as <- ->.
        cbn [allChars] in Hx. apply andb_true_iff in Hx as [Hc Hx].
        split; [done|]. by exists x.
Qed.

Lemma isNot_star_lower c :
  isNot "*"%char c = true -> isNot "*"%char (toLowerChar c) = true.
Proof. by destruct c as [[] [] [] [] [] [] [] []]. Qed.

Lemma ruleBlocks_plain rule domain :
  allChars (isNot "*"%char) rule = true ->
  ruleBlocks rule domain = true <->
  normalizePattern rule <> EmptyString /\
  normalizePattern rule = normalizedName domain.
Proof.
  intros Hr. unfold ruleBlocks, matchesWithinLine. cbv zeta.
  rewrite wildcardMatch_plain
    by (apply TokenFacts.normalizePattern_chars; [apply isNot_star_lower|done]).
  rewrite andb_true_iff, negb_true_iff. split.
  - intros [H1%String.eqb_neq H2%String.eqb_eq]. done.
  - intros [H1%String.eqb_neq H2]. split; [done|]. by apply String.eqb_eq.
Qed.

End WildcardFacts.

(** ** Facts about the managers that the program can hold *)

Module ReachFacts.
Import Strings Regexp FS Blocklist BlocklistRest UserFilter.
Import Statements MoreStatements.

Lemma foldl_loadEntry_rules isIPString ents acc :
  (forall L pats k, acc !! L = Some pats -> k ∈ pats -> isKept isIPString k = true) ->
  forall L pats k,
    foldl (loadEntry isIPString) acc ents !! L = Some pats -> k ∈ pats ->
    isKept isIPString k = true.
Proof.
  revert acc. induction ents as [|e ents IH]; intros acc Hacc; [exact Hacc|].
  cbn [foldl]. apply IH. intros L pats k. unfold loadEntry.
  destruct (e.2) as [|canRead ? data]; [apply Hacc|].
  destruct (negb (HasSuffix (ToLower e.1) ".txt")); [apply Hacc|].
  destruct (negb canRead); [apply Hacc|].
  intros [[_ <-]|[_ Hl]]%lookup_insert_Some Hk; [|by apply (Hacc L pats)].
  by apply (proj1 (Forall_forall _ _) (RuleFacts.readLines_kept isIPString data)).
Qed.

Lemma consistent_withLists isIPString o ents b :
  consistent isIPString b ->
  consistent isIPString
    (withLists b (foldl (loadEntry isIPString) ∅ ents)
       (compileLists o (foldl (loadEntry isIPString) ∅ ents))).
Proof.
  intros (_ & _ & Hcap & Hlen & Hdom). split; [by exists o|].
  split; [|done]. cbn [lists withLists].
  apply foldl_loadEntry_rules. intros L pats k H. by rewrite lookup_empty in H.
Qed.

Lemma consistent_LoadAll isIPString o d b :
  consistent isIPString b -> consistent isIPString (LoadAll isIPString o d b).1.
Proof.
  intros H. unfold LoadAll. destruct (ReadDir d) as [ents|]; [|exact H].
  by apply consistent_withLists.
Qed.

Lemma consistent_writeBackAndReload isIPString o d b path set added :
  consistent isIPString b ->
  consistent isIPString (writeBackAndReload isIPString o d b path set added).2.
Proof.
  intros H. unfold writeBackAndReload. destruct (Create d path); [|exact H].
  destruct (writeSet o _ path set) as [d2 [|]]; [|exact H].
  by apply consistent_LoadAll.
Qed.

Lemma consistent_record isIPString now b domain client blocked :
  consistent isIPString b ->
  consistent isIPString (RecordQueryWithClient now b domain client blocked).
Proof.
  intros (Hc & Hr & Hcap & Hlen & Hdom).
  split; [exact Hc|]. split; [exact Hr|]. split; [exact Hcap|]. split.
  - cbn [recent RecordQueryWithClient].
    pose proof (TelemetryFacts.pushRecent_length (recentCap b) (recent b)
                  {| Time := now; Domain := domain; Client := client;
                     Blocked := blocked |}) as H.
    rewrite Hcap in H |- *. lia.
  - cbn [domainHits allHits RecordQueryWithClient]. unfold bump.
    destruct blocked; rewrite ?dom_insert; set_solver.
Qed.

Lemma reachable_consistent isIPString b :
  reachable isIPString b -> consistent isIPString b.
Proof.
  induction 1 as [o dirName d b Hnew|o d b _ IH|o get d b L url c _ IH
                 |o get d b L url _ IH|o d b L items c _ IH|o d b L domain _ IH
                 |now b domain blocked _ IH|now b domain client blocked _ IH
                 |d b _ IH].
  - unfold NewBlocklistManager in Hnew.
    destruct (String.eqb dirName ""); [done|].
    unfold LoadAll in Hnew. destruct (ReadDir d) as [ents|]; [|done].
    cbn in Hnew. injection Hnew as <-.
    split; [by exists o|]. split; [|split; [done|split; [cbn; lia|done]]].
    cbn [lists]. apply foldl_loadEntry_rules.
    intros L pats k H. by rewrite lookup_empty in H.
  - by apply consistent_LoadAll.
  - unfold AddFileToList. destruct (_ || _); [exact IH|].
    destruct (get url) as [|status body]; [exact IH|].
    destruct (_ || _)%Z; [exact IH|]. cbv zeta.
    destruct (match Open d (listPath L) with Some _ => _ | None => _ end);
      [|exact IH].
    destruct (foldl addNormalized _ _) as [set added].
    by apply consistent_writeBackAndReload.
  - unfold ReplaceListFromURL. destruct (_ || _); [exact IH|].
    destruct (get url) as [|status body]; [exact IH|].
    destruct (_ || _)%Z; [exact IH|]. cbv zeta.
    destruct (Create d (listPath L)); [|exact IH].
    destruct (writeCounted _ _ _ _) as [[d2 written] [|]]; [|exact IH].
    by apply consistent_LoadAll.
  - unfold AddItemsToList. destruct (String.eqb L ""); [exact IH|]. cbv zeta.
    destruct (match Open d (listPath L) with Some _ => _ | None => _ end);
      [|exact IH].
    destruct (foldl _ _ items) as [set added].
    by apply consistent_writeBackAndReload.
  - unfold RemoveDomain. destruct (_ || _); [exact IH|].
    destruct (lists b !! L); [|exact IH]. cbv zeta.
    destruct (foldl _ _ _) as [newArr removed].
    destruct (negb removed); [exact IH|].
    destruct (Create d (listPath L)); [|exact IH].
    destruct (writeAll _ _ newArr) as [d2 [|]]; [|exact IH].
    pose proof (consistent_LoadAll isIPString o d2 b IH) as H.
    by destruct (LoadAll _ _ _ _).
  - by apply (consistent_record isIPString now b domain EmptyString blocked).
  - by apply consistent_record.
  - unfold DeleteLogs. destruct IH as (Hc & Hr & Hcap & Hlen & Hdom).
    assert (Hclear : consistent isIPString (clearRecent b)).
    { split; [exact Hc|]. split; [exact Hr|]. split; [exact Hcap|].
      split; [cbn; lia|exact Hdom]. }
    destruct (negb _); [|exact Hclear].
    destruct (Truncate d (logPath b)); [exact Hclear| |by repeat split].
    by destruct (Create d (logPath b)).
Qed.

Lemma consistent_IsBlocked isIPString b domain :
  consistent isIPString b ->
  IsBlocked b domain = true <->
  someRule (lists b) (fun rule => ruleBlocks rule domain = true).
Proof.
  intros [[o Hc] _]. rewrite <- (IndexFacts.IsBlocked_loaded o b (lists b) domain).
  unfold IsBlocked. cbn [compiled loaded withLists]. by rewrite Hc.
Qed.

Lemma matchesPattern_ruleBlocks domain pattern :
  matchesPattern (normalizedName domain) pattern = ruleBlocks pattern domain.
Proof.
  unfold matchesPattern, ruleBlocks. cbv zeta.
  rewrite PatternFacts.patternToRegexp_spec.
  destruct (String.eqb pattern "") eqn:E.
  - apply String.eqb_eq in E. by subst.
  - destruct (String.eqb (normalizePattern pattern) ""); [done|].
    by rewrite PatternFacts.MatchString_anchored.
Qed.

Lemma IsBlockedForUser_spec bm domain mac am :
  IsBlockedForUser bm domain mac am = true <->
  mac <> EmptyString /\
  exists userLists L pats rule,
    GetUserBlocklists am mac = Some userLists /\ L ∈ userLists /\
    lists bm !! L = Some pats /\ rule ∈ pats /\ ruleBlocks rule domain = true.
Proof.
  unfold IsBlockedForUser.
  destruct (String.eqb mac "") eqn:Hm.
  { apply String.eqb_eq in Hm. split; [done|]. by intros [? _]. }
  apply String.eqb_neq in Hm.
  destruct (GetUserBlocklists am mac) as [userLists|].
  2:{ split; [done|]. by intros (_ & ? & ? & ? & ? & ? & _). }
  fold (normalizedName domain).
  assert (Hex : existsb
                  (fun listName =>
                     match lists bm !! listName with
                     | None => false
                     | Some patterns =>
                         existsb (matchesPattern (normalizedName domain)) patterns
                     end) userLists = true <->
                exists L pats rule, L ∈ userLists /\ lists bm !! L = Some pats /\
                                    rule ∈ pats /\ ruleBlocks rule domain = true).
  { rewrite existsb_exists. split.
    - intros (L & HL & H). destruct (lists bm !! L) as [pats|] eqn:Hl; [|done].
      apply existsb_exists in H as (rule & Hr & H).
      rewrite matchesPattern_ruleBlocks in H.
      exists L, pats, rule. by rewrite !list_elem_of_In.
    - intros (L & pats & rule & HL & Hl & Hr & H). exists L.
      split; [by apply list_elem_of_In|]. rewrite Hl. apply existsb_exists.
      exists rule. split; [by apply list_elem_of_In|].
      by rewrite matchesPattern_ruleBlocks. }
  destruct (length userLists =? 0)%nat eqn:Hlen.
  - apply Nat.eqb_eq in Hlen. destruct userLists; [|done]. split; [done|].
    intros (_ & ? & L & ? & ? & [= <-] & HL & _). by apply elem_of_nil in HL.
  - rewrite Hex. split.
    + intros (L & pats & rule & H). split; [done|]. by exists userLists, L, pats, rule.
    + intros (_ & ? & L & pats & rule & [= <-] & H). by exists L, pats, rule.
Qed.

End ReachFacts.

(** ** Facts about the loop of the handler *)

Module ServeFacts.
Import Strings Regexp FS Blocklist BlocklistRest UserFilter Settings DNS.
Import Statements MoreStatements HandlerFacts.

Lemma iter_incr n z :
  isInt z -> Nat.iter n incr z = wrap64 (z + Z.of_nat n).
Proof.
  intros Hz. induction n as [|n IH].
  - cbn. rewrite Z.add_0_r. symmetry. by apply PagingFacts.wrap64_small.
  - rewrite Nat.iter_succ, IH, CountFacts.incr_wrap64. f_equal. lia.
Qed.

Section Handler.

Variable SplitHostPort : string -> option (string * string).
Variable config : Config.
Variable ipMACCache : IPToMACCache.
Variable am : option AccountManager.
Variable w : World.

Local Abbreviation blockedFor := (isBlockedFor SplitHostPort ipMACCache am w).
Local Abbreviation serve := (serve SplitHostPort config ipMACCache am w).
Local Abbreviation handle := (handle SplitHostPort config ipMACCache am w).

Lemma blockReply_sameHeader q m : sameHeader m (blockReply config q m).
Proof.
  unfold blockReply.
  destruct (String.eqb (BlockingMode config) "redirect");
    [by destruct (wantsAddress q)|].
  destruct (String.eqb (BlockingMode config) "nx"); [done|].
  by destruct (wantsAddress q).
Qed.

Lemma blockReply_Rcode q m :
  Rcode (blockReply config q m) =
    if String.eqb (BlockingMode config) "nx" then RcodeNameError else Rcode m.
Proof.
  unfold blockReply.
  destruct (String.eqb (BlockingMode config) "redirect") eqn:E.
  - apply String.eqb_eq in E. rewrite E. by destruct (wantsAddress q).
  - destruct (String.eqb (BlockingMode config) "nx"); [done|].
    by destruct (wantsAddress q).
Qed.

Lemma blockReply_Answer q m :
  BlockingMode config <> "nx" ->
  Answer (blockReply config q m) =
    Answer m ++ (if wantsAddress q then [blockRecord config q] else []).
Proof.
  intros Hnx%String.eqb_neq. unfold blockReply, blockRecord. rewrite Hnx.
  destruct (String.eqb (BlockingMode config) "redirect");
    destruct (wantsAddress q); cbn; by rewrite ?app_nil_r.
Qed.

Lemma finalReply_sameHeader blocked qs n msg :
  sameHeader msg (finalReply blocked config w qs n msg).
Proof.
  unfold finalReply. cbv zeta. destruct (drop _ qs) as [|q rest]; [done|].
  destruct (blockReply_sameHeader q
              (appendAnswer msg (forwardedAnswers w n (allowedPrefix blocked qs))))
    as (? & ? & ? & ? & ? & ?).
  by repeat split.
Qed.

Lemma finalReply_Rcode blocked qs n msg :
  Rcode (finalReply blocked config w qs n msg) =
    if existsb blocked qs && String.eqb (BlockingMode config) "nx"
    then RcodeNameError else Rcode msg.
Proof.
  unfold finalReply. cbv zeta.
  destruct (existsb blocked qs) eqn:E.
  - destruct (ReplyFacts.allowedPrefix_blocked blocked qs E) as (q & rest & -> & _).
    by rewrite blockReply_Rcode.
  - rewrite (ReplyFacts.allowedPrefix_none blocked qs E), drop_all. done.
Qed.

Lemma serve_exchanges r qs n msg bm :
  exchangesOf (serve r qs n msg bm).2
  = replicate (allowedPrefix (fun q => blockedFor bm (matchName q)) qs)
              (EvExchange r (upstreamOf config)).
Proof.
  revert n msg bm. induction qs as [|q qs IH]; intros n msg bm; [done|].
  cbn [DNS.serve allowedPrefix].
  destruct (blockedFor bm (matchName q)) eqn:Hb; [done|].
  specialize (IH (S n) (forwardReply w n msg)
                (RecordQueryWithClient (clock w n) bm (matchName q)
                   (clientAddrOf w) false)).
  destruct (DNS.serve _ _ _ _ _ r qs (S n) _ _) as [bm' tr].
  cbn [snd] in *. unfold exchangesOf in *. cbn [List.filter isExchange replicate].
  by rewrite IH.
Qed.

Lemma serve_manager r qs n msg bm :
  let bm' := (serve r qs n msg bm).1 in
  let tr := (serve r qs n msg bm).2 in
  lists bm' = lists bm /\ compiled bm' = compiled bm /\
  queries bm' = Nat.iter (countRecords tr) incr (queries bm) /\
  blockedQueries bm' =
    (if synthesized tr then incr (blockedQueries bm) else blockedQueries bm).
Proof.
  cbv zeta. revert n msg bm. induction qs as [|q qs IH]; intros n msg bm; [done|].
  cbn [DNS.serve].
  destruct (blockedFor bm (matchName q)) eqn:Hb; [done|].
  specialize (IH (S n) (forwardReply w n msg)
                (RecordQueryWithClient (clock w n) bm (matchName q)
                   (clientAddrOf w) false)).
  destruct (DNS.serve _ _ _ _ _ r qs (S n) _ _) as [bm' tr].
  cbn [fst snd] in *. destruct IH as (Hl & Hc & Hq & Hbq).
  split; [exact Hl|]. split; [exact Hc|]. split.
  - rewrite Hq. unfold countRecords. cbn [List.filter isRecord length].
    cbn [queries RecordQueryWithClient]. by rewrite Nat.iter_succ_r.
  - rewrite Hbq. by cbn [synthesized existsb orb].
Qed.

End Handler.

End ServeFacts.

(** ** Facts about the earlier front-ends *)

Module VersionFacts.
Import Strings FS Blocklist UserFilter Settings DNS DNSGlobal.
Import Statements MoreStatements.

Lemma serveModes_serve SplitHostPort config ipMACCache w r qs n msg bm :
  serveModes config w r qs n msg bm
  = serve SplitHostPort config ipMACCache None w r qs n msg bm.
Proof.
  revert n msg bm. induction qs as [|q qs IH]; intros n msg bm; [done|].
  cbn [serveModes serve]. unfold isBlockedFor. cbv zeta.
  destruct (IsBlocked bm (matchName q)); [done|]. by rewrite IH.
Qed.

Lemma serveNull_serveModes config w r qs n msg bm :
  BlockingMode config <> "redirect" -> BlockingMode config <> "nx" ->
  Upstream config = EmptyString \/ Upstream config = "1.1.1.1:53" ->
  serveNull w r qs n msg bm = serveModes config w r qs n msg bm.
Proof.
  intros H1%String.eqb_neq H2%String.eqb_neq Hup.
  assert (Hu : (if String.eqb (Upstream config) "" then "1.1.1.1:53"
                else Upstream config) = "1.1.1.1:53")
    by (by destruct Hup as [->| ->]).
  revert n msg bm. induction qs as [|q qs IH]; intros n msg bm; [done|].
  cbn [serveNull serveModes]. cbv zeta. rewrite H1, H2, Hu.
  destruct (IsBlocked bm (matchName q)); [done|]. by rewrite IH.
Qed.

End VersionFacts.

(** ** Facts about the identification of a client *)

Module ClientFacts.
Import Strings FS Blocklist Statements MoreStatements ClientMAC.

Lemma ReplaceAll_char s x :
  ReplaceAll s (String x EmptyString) EmptyString = dropChar x s.
Proof.
  unfold ReplaceAll. induction s as [|c s IH]; [done|].
  cbn [replaceFrom dropChar String.length Nat.sub].
  rewrite PatternFacts.prefix_cons, PatternFacts.prefix_nil.
  destruct (ascii_dec x c) as [->|Hne].
  - by rewrite Ascii.eqb_refl, StringFacts.append_nil_l, IH.
  - destruct (Ascii.eqb_spec c x) as [->|_]; [done|]. by rewrite IH.
Qed.

Lemma dropChar_keeps x s : allChars (isNot x) s = true -> dropChar x s = s.
Proof.
  induction s as [|c s IH]; [done|]. cbn [allChars dropChar].
  intros [Hc Hs]%andb_true_iff. unfold isNot in Hc. apply negb_true_iff in Hc.
  by rewrite Hc, IH.
Qed.

Lemma dropChar_absent x s : allChars (isNot x) (dropChar x s) = true.
Proof.
  induction s as [|c s IH]; [done|]. cbn [dropChar].
  destruct (Ascii.eqb c x) eqn:E; [done|]. cbn [allChars]. unfold isNot at 1.
  by rewrite E, IH.
Qed.

Lemma dropChar_chars p x s :
  allChars p s = true -> allChars p (dropChar x s) = true.
Proof.
  induction s as [|c s IH]; [done|]. cbn [allChars dropChar].
  intros [Hc Hs]%andb_true_iff. destruct (Ascii.eqb c x); [by apply IH|].
  cbn [allChars]. by rewrite Hc, IH.
Qed.

Lemma notSeparator_lower c :
  notSeparator c = true -> notSeparator (toLowerChar c) = true.
Proof. by destruct c as [[] [] [] [] [] [] [] []]. Qed.

Lemma notSeparator_parts s :
  allChars notSeparator s = true <->
  allChars (isNot "-"%char) s = true /\ allChars (isNot ":"%char) s = true /\
  allChars (isNot "."%char) s = true.
Proof.
  unfold notSeparator. rewrite !TokenFacts.allChars_and, !andb_true_iff. tauto.
Qed.

Lemma bare_chars mac : allChars notSeparator (bare mac) = true.
Proof.
  unfold bare. apply TokenFacts.allChars_ToLower; [apply notSeparator_lower|].
  apply notSeparator_parts. split; [|split].
  - apply dropChar_chars, dropChar_chars, dropChar_absent.
  - apply dropChar_chars, dropChar_absent.
  - apply dropChar_absent.
Qed.

Lemma bare_id t :
  allChars notSeparator t = true -> ToLower t = t -> bare t = t.
Proof.
  intros (H1 & H2 & H3)%notSeparator_parts Hl. unfold bare.
  by rewrite (dropChar_keeps "-"%char), (dropChar_keeps ":"%char),
       (dropChar_keeps "."%char).
Qed.

Lemma normalizeMACAddress_bare mac :
  normalizeMACAddress mac =
    if (String.length (bare mac) =? 12)%nat
    then foldl (writePair (bare mac)) EmptyString [0; 2; 4; 6; 8; 10]
    else bare mac.
Proof. unfold normalizeMACAddress, bare. by rewrite !ReplaceAll_char. Qed.

Lemma notSeparator_eqb c :
  notSeparator c = true ->
  Ascii.eqb c "-"%char = false /\ Ascii.eqb c ":"%char = false /\
  Ascii.eqb c "."%char = false.
Proof.
  unfold notSeparator, isNot. rewrite !andb_true_iff, !negb_true_iff. tauto.
Qed.

Lemma twelve (t : string) :
  String.length t = 12 ->
  exists c1 c2 c3 c4 c5 c6 c7 c8 c9 c10 c11 c12,
    t = string_of_list_ascii [c1; c2; c3; c4; c5; c6; c7; c8; c9; c10; c11; c12].
Proof.
  intros H.
  do 12 (destruct t as [|? t]; [discriminate H|]).
  destruct t; [|discriminate H]. by eexists _, _, _, _, _, _, _, _, _, _, _, _.
Qed.

Lemma pairs_sixGroups t :
  String.length t = 12 -> allChars notSeparator t = true ->
  sixGroups (foldl (writePair t) EmptyString [0; 2; 4; 6; 8; 10]) /\
  (ToLower t = t ->
   bare (foldl (writePair t) EmptyString [0; 2; 4; 6; 8; 10]) = t).
Proof.
  intros Hlen Hsep.
  destruct (twelve t Hlen) as (c1 & c2 & c3 & c4 & c5 & c6 & c7 & c8 & c9 & c10
                               & c11 & c12 & ->).
  cbn [string_of_list_ascii allChars] in Hsep.
  repeat (apply andb_true_iff in Hsep as [? Hsep]).
  split.
  - exists c1, c2, c3, c4, c5, c6, c7, c8, c9, c10, c11, c12.
    split; [by repeat constructor|reflexivity].
  - intros Hlow.
    change (foldl _ _ _)
      with (string_of_list_ascii
              [c1; c2; ":"; c3; c4; ":"; c5; c6; ":"; c7; c8; ":"; c9; c10; ":";
               c11; c12]%char).
    unfold bare. cbn [string_of_list_ascii] in Hlow |- *.
    repeat match goal with
           | H : notSeparator _ = true |- _ =>
               apply notSeparator_eqb in H as (? & ? & ?)
           end.
    repeat (progress (cbn [dropChar]; change (Ascii.eqb ":" ":") with true;
                      change (Ascii.eqb ":" "-") with false;
                      change (Ascii.eqb ":" ".") with false;
                      repeat match goal with
                             | H : Ascii.eqb _ _ = false |- _ => rewrite H
                             end)).
    exact Hlow.
Qed.

Lemma bare_lower mac : ToLower (bare mac) = bare mac.
Proof. unfold bare. apply RuleFacts.ToLower_idem. Qed.

Lemma normalizeMACAddress_idem mac :
  normalizeMACAddress (normalizeMACAddress mac) = normalizeMACAddress mac.
Proof.
  rewrite (normalizeMACAddress_bare mac).
  destruct (String.length (bare mac) =? 12)%nat eqn:E.
  - apply Nat.eqb_eq in E.
    destruct (pairs_sixGroups (bare mac) E (bare_chars mac)) as [_ Hb].
    rewrite normalizeMACAddress_bare, (Hb (bare_lower mac)).
    apply Nat.eqb_eq in E. by rewrite E.
  - rewrite normalizeMACAddress_bare.
    rewrite (bare_id (bare mac) (bare_chars mac) (bare_lower mac)). by rewrite E.
Qed.

Lemma pairs_lower t :
  String.length t = 12 -> ToLower t = t ->
  ToLower (foldl (writePair t) EmptyString [0; 2; 4; 6; 8; 10])
  = foldl (writePair t) EmptyString [0; 2; 4; 6; 8; 10].
Proof.
  intros Hlen Hlow.
  destruct (twelve t Hlen) as (c1 & c2 & c3 & c4 & c5 & c6 & c7 & c8 & c9 & c10
                               & c11 & c12 & ->).
  change (foldl _ _ _)
    with (string_of_list_ascii
            [c1; c2; ":"; c3; c4; ":"; c5; c6; ":"; c7; c8; ":"; c9; c10; ":";
             c11; c12]%char).
  cbn [string_of_list_ascii ToLower] in Hlow |- *.
  change (toLowerChar ":") with ":"%char.
  injection Hlow as -> -> -> -> -> -> -> -> -> -> -> ->. reflexivity.
Qed.

Lemma normalizeMACAddress_lower mac :
  ToLower (normalizeMACAddress mac) = normalizeMACAddress mac.
Proof.
  rewrite normalizeMACAddress_bare.
  destruct (String.length (bare mac) =? 12)%nat eqn:E.
  - apply Nat.eqb_eq in E. apply pairs_lower; [done|apply bare_lower].
  - apply bare_lower.
Qed.

Lemma normalizeMACAddress_form mac :
  sixGroups (normalizeMACAddress mac) \/
  (allChars notSeparator (normalizeMACAddress mac) = true /\
   String.length (normalizeMACAddress mac) <> 12).
Proof.
  rewrite normalizeMACAddress_bare.
  destruct (String.length (bare mac) =? 12)%nat eqn:E.
  - apply Nat.eqb_eq in E. left.
    by destruct (pairs_sixGroups (bare mac) E (bare_chars mac)).
  - apply Nat.eqb_neq in E. right. split; [apply bare_chars|done].
Qed.

Lemma Split_first s sep :
  exists p ps, Split s sep = p :: ps /\ allChars (isNot sep) p = true.
Proof.
  induction s as [|c s (p & ps & IH & Hp)]; [by exists EmptyString, []|].
  cbn [Split]. destruct (Ascii.eqb c sep) eqn:E; [by eexists _, _|].
  rewrite IH. exists (String c p), ps. split; [done|].
  cbn [allChars]. unfold isNot at 1. by rewrite E, Hp.
Qed.

End ClientFacts.

(** ** Facts about the lists that a change of one file leaves alone *)

Module FrameFacts.
Import Strings FS Blocklist BlocklistRest Statements MoreStatements CountFacts.

Local Abbreviation loadsAs M :=
  (fun e : string * fileNode =>
     HasSuffix (ToLower e.1) ".txt" = true /\ TrimSuffix e.1 (Ext e.1) = M).







Lemma sameButList_refl L d : sameButList L d d.
Proof. by split. Qed.

Lemma sameButList_trans L d1 d2 d3 :
  sameButList L d1 d2 -> sameButList L d2 d3 -> sameButList L d1 d3.
Proof.
  intros [Hc1 He1] [Hc2 He2]. split; [congruence|].
  intros name Hne. by rewrite He2, He1.
Qed.

Lemma Create_frame L d d1 :
  Create d (listPath L) = Some d1 -> sameButList L d d1.
Proof.
  unfold Create. destruct (entries d !! listPath L) as [[|[|] [|] data]|];
    try done.
  - intros [= <-]. split; [done|]. intros name Hne. cbn.
    by rewrite lookup_insert_ne.
  - destruct (canCreate d); [|done]. intros [= <-]. split; [done|].
    intros name Hne. cbn. by rewrite lookup_insert_ne.
Qed.

Lemma WriteString_frame L d s : sameButList L d (WriteString d (listPath L) s).1.
Proof.
  unfold WriteString. destruct (entries d !! listPath L) as [[|r w data]|];
    try apply sameButList_refl.
  destruct (fits d (listPath L) (data +:+ s)); cbn [fst];
    (split; [done|]; intros name Hne; cbn; by rewrite lookup_insert_ne).
Qed.

Lemma writeAll_frame L ks d : sameButList L d (writeAll d (listPath L) ks).1.
Proof.
  revert d. induction ks as [|k ks IH]; intros d; [apply sameButList_refl|].
  cbn [writeAll].
  pose proof (WriteString_frame L d (k +:+ String lf EmptyString)) as H.
  destruct (WriteString d (listPath L) _) as [d' [|]]; cbn [fst] in *; [|exact H].
  eapply sameButList_trans; [exact H|apply IH].
Qed.

Lemma writeCounted_frame L ks d z :
  sameButList L d (writeCounted d (listPath L) ks z).1.1.
Proof.
  pose proof (writeCounted_writeAll_fst L ks d z) as ->. apply writeAll_frame.
Qed.




Lemma ReplaceListFromURL_frame isIPString o get d b L url :
  sameButList L d (ReplaceListFromURL isIPString o get d b L url).1.2.
Proof.
  unfold ReplaceListFromURL. destruct (_ || _); [apply sameButList_refl|].
  destruct (get url) as [|status body]; [apply sameButList_refl|].
  destruct (_ || _)%Z; [apply sameButList_refl|]. cbv zeta.
  destruct (Create d (listPath L)) as [d1|] eqn:Hc; [|apply sameButList_refl].
  pose proof (writeCounted_frame L (readLines isIPString body) d1 0) as H.
  destruct (writeCounted _ _ _ _) as [[d2 written] [|]]; cbn [fst snd] in *;
    (eapply sameButList_trans; [by apply Create_frame|exact H]).
Qed.

Lemma RemoveDomain_frame isIPString o d b L domain :
  sameButList L d (RemoveDomain isIPString o d b L domain).1.2.
Proof.
  unfold RemoveDomain. destruct (_ || _); [apply sameButList_refl|].
  destruct (lists b !! L); [|apply sameButList_refl]. cbv zeta.
  destruct (foldl _ _ _) as [newArr removed].
  destruct (negb removed); [apply sameButList_refl|].
  destruct (Create d (listPath L)) as [d1|] eqn:Hc; [|apply sameButList_refl].
  pose proof (writeAll_frame L newArr d1) as H.
  destruct (writeAll d1 _ newArr) as [d2 [|]]; cbn [fst snd] in *.
  - destruct (LoadAll _ _ _ _) as [b' err]. cbn [fst snd].
    eapply sameButList_trans; [by apply Create_frame|exact H].
  - eapply sameButList_trans; [by apply Create_frame|exact H].
Qed.

End FrameFacts.

(** * The claims of the specification *)

Import Strings Regexp Wildcard FS Blocklist UserFilter Settings DNS Statements.

(** ** The pattern index *)

Lemma IsBlocked_single_rule o b name rule domain :
  IsBlocked (loaded o b {[name := [rule]]}) domain = ruleBlocks rule domain.
Proof.
  apply eq_true_iff_eq. rewrite IndexFacts.IsBlocked_loaded. unfold someRule. split.
  - intros (n & pats & r & Hl & Hin & H).
    apply lookup_singleton_Some in Hl as [_ <-].
    apply list_elem_of_singleton in Hin. by subst.
  - intros H. exists name, [rule], rule.
    rewrite lookup_singleton_eq. split; [done|]. split; [|done]. by left.
Qed.

(** C1, as amended.  For every rule set and every domain whose normalized
    form (trimmed, lowercased, without one final dot) holds no line feed,
    [IsBlocked] answers true exactly when some rule of some list, normalized
    once more by the matcher (trimmed, one final dot removed, lowercased,
    and dropped when that leaves it empty or starting with [#]) and read as
    a whole-string pattern in which a star matches any sequence of
    characters, dots included, and every other character matches itself,
    matches the normalized domain.  Where that normalization changes no rule
    and no rule is empty, this is the claim as the specification states it.
    In particular, with the one rule [*.example.com], the names
    [a.example.com] and [a.b.example.com] are blocked and the apex
    [example.com] is not.  (Nothing is said of a name with a line feed,
    which no caller passes.) *)
Theorem C1_IsBlocked_iff_some_rule_blocks
    (o : RangeOrder) (b : BlocklistManager)
    (ls : gmap string (list string)) (domain : string) :
  allChars (isNot lf) (normalizedName domain) = true ->
  (IsBlocked (loaded o b ls) domain = true <->
   someRule ls (fun rule =>
     normalizePattern rule <> EmptyString /\
     matchesAnySequence (normalizePattern rule) (normalizedName domain) = true)) /\
  ((forall name pats rule,
       ls !! name = Some pats -> rule ∈ pats ->
       normalizePattern rule = rule /\ rule <> EmptyString) ->
   blockedIffSomeRuleMatches o b ls domain) /\
  IsBlocked (loaded o b {["ads" := ["*.example.com"]]}) "a.example.com" = true /\
  IsBlocked (loaded o b {["ads" := ["*.example.com"]]}) "a.b.example.com" = true /\
  IsBlocked (loaded o b {["ads" := ["*.example.com"]]}) "example.com" = false.
Proof.
  intros Hplain.
  assert (Hrule : forall rule,
             ruleBlocks rule domain = true <->
             normalizePattern rule <> EmptyString /\
             matchesAnySequence (normalizePattern rule) (normalizedName domain) = true).
  { intros rule. unfold ruleBlocks. cbv zeta.
    rewrite (IndexFacts.matchesWithinLine_plain _ _ Hplain).
    rewrite andb_true_iff, negb_true_iff. split.
    - by intros [Hne%String.eqb_neq Hm].
    - by intros [Hne%String.eqb_neq Hm]. }
  assert (Hiff : IsBlocked (loaded o b ls) domain = true <->
                 someRule ls (fun rule =>
                   normalizePattern rule <> EmptyString /\
                   matchesAnySequence (normalizePattern rule)
                     (normalizedName domain) = true)).
  { rewrite IndexFacts.IsBlocked_loaded. unfold someRule. split.
    - intros (name & pats & rule & Hl & Hin & Hb). exists name, pats, rule.
      split; [done|]. split; [done|]. by apply Hrule.
    - intros (name & pats & rule & Hl & Hin & Hb). exists name, pats, rule.
      split; [done|]. split; [done|]. by apply Hrule. }
  split; [exact Hiff|]. split.
  - intros Hstable. unfold blockedIffSomeRuleMatches. rewrite Hiff.
    unfold someRule. split.
    + intros (name & pats & rule & Hl & Hin & _ & Hm). exists name, pats, rule.
      destruct (Hstable name pats rule Hl Hin) as [Hfix _]. by rewrite Hfix in Hm.
    + intros (name & pats & rule & Hl & Hin & Hm). exists name, pats, rule.
      destruct (Hstable name pats rule Hl Hin) as [Hfix Hne].
      rewrite Hfix. done.
  - rewrite !IsBlocked_single_rule. by vm_compute.
Qed.

Lemma C1_IsBlocked_witness :
  IsBlocked (loaded inOrder idle {["ads" := ["*.example.com"; "tracker.io"]]})
            "CDN.Example.com." = true /\
  blockedIffSomeRuleMatches inOrder idle
    {["ads" := ["*.example.com"; "tracker.io"]]} "CDN.Example.com.".
Proof.
  pose proof (C1_IsBlocked_iff_some_rule_blocks inOrder idle
                {["ads" := ["*.example.com"; "tracker.io"]]} "CDN.Example.com."
                eq_refl)
    as (Hiff & Hagree & _).
  split.
  - apply Hiff. exists "ads", ["*.example.com"; "tracker.io"], "*.example.com".
    split; [reflexivity|]. split; [by left|]. split; [discriminate|reflexivity].
  - apply Hagree. intros name pats rule [_ <-]%lookup_singleton_Some Hin.
    apply elem_of_cons in Hin as [->|Hin]; [by split|].
    apply list_elem_of_singleton in Hin as ->. by split.
Defined.

(** The rule sets of the examples are what [LoadAll] reads from a
    directory with one list file; a name written with two final dots is
    held with one. *)
Example loaded_from_a_file :
  (LoadAll isIPv4Literal inOrder
     {| canList := true; canCreate := true;
        entries := {["ads.txt" := File true true "0.0.0.0 ads.example.com"]};
        room := fun _ => None |}
     idle).1
  = adsManager /\
  (LoadAll isIPv4Literal inOrder
     {| canList := true; canCreate := true;
        entries := {["ads.txt" := File true true "0.0.0.0 ads.example.com.."]};
        room := fun _ => None |}
     idle).1
  = loaded inOrder idle {["ads" := ["ads.example.com."]]}.
Proof. split; by vm_compute. Qed.

(** C1, as stated, fails: the matcher normalizes a rule once more before
    it compiles it.  The rule [ads.example.com.], which is what a list file
    with the line [0.0.0.0 ads.example.com..] is loaded as, blocks the name
    [ads.example.com], which the rule as it stands, with its final dot, does
    not match. *)
Lemma C1_rule_loses_a_second_dot :
  ~ blockedIffSomeRuleMatches inOrder idle {["ads" := ["ads.example.com."]]}
      "ads.example.com".
Proof.
  unfold blockedIffSomeRuleMatches. intros [H _].
  assert (Hblocked : IsBlocked (loaded inOrder idle {["ads" := ["ads.example.com."]]})
                       "ads.example.com" = true)
    by (rewrite IsBlocked_single_rule; by vm_compute).
  destruct (H Hblocked) as (name & pats & rule & Hl & Hin & Hm).
  apply lookup_singleton_Some in Hl as [_ <-].
  apply list_elem_of_singleton in Hin as ->. by vm_compute in Hm.
Qed.

(** ** The front-end *)

(** C2, as amended.  For every query with a blocked question name, when the
    configured blocking mode is [nx] the reply has the code NXDOMAIN (3) and
    no record is appended for the blocked question, whatever its type: the
    answer section holds what was forwarded for the questions in front of
    it, which is nothing when the blocked question is the first. *)
Theorem C2_mode_nx_replies_NXDOMAIN
    (SplitHostPort : string -> option (string * string)) (config : Config)
    (ipMACCache : IPToMACCache) (am : option AccountManager) (w : World)
    (r : Msg) (bm : BlocklistManager) :
  let blocked := fun q => isBlockedFor SplitHostPort ipMACCache am w bm (matchName q) in
  BlockingMode config = "nx" ->
  existsb blocked (Questions r) = true ->
  exists m,
    replies (handle SplitHostPort config ipMACCache am w r bm).2 = [m] /\
    Rcode m = RcodeNameError /\
    Answer m = forwardedAnswers w 0 (allowedPrefix blocked (Questions r)) /\
    (forall q rest, Questions r = q :: rest -> blocked q = true -> Answer m = []).
Proof.
  intros blocked Hmode Hsome.
  destruct (ReplyFacts.handle_spec SplitHostPort config ipMACCache am w r bm)
    as (pre & Htr & Hrep & _ & _).
  fold blocked in Htr. rewrite Htr, ReplyFacts.replies_snoc, Hrep. cbn [app].
  eexists. split; [reflexivity|].
  unfold finalReply. cbv zeta.
  destruct (ReplyFacts.allowedPrefix_blocked blocked _ Hsome) as (q & rest & -> & Hq).
  unfold blockReply. rewrite Hmode. cbn.
  split; [reflexivity|]. split; [reflexivity|].
  intros q0 rest0 -> Hq0. cbn. by rewrite Hq0.
Qed.

Lemma C2_mode_nx_witness :
  exists m,
    replies (handle splitAtLastColon (withMode "nx") ∅ None upstreamDown
               (addressQuery "ads.example.com.") adsManager).2 = [m] /\
    Rcode m = RcodeNameError /\
    Answer m = [].
Proof.
  destruct (C2_mode_nx_replies_NXDOMAIN splitAtLastColon (withMode "nx") ∅ None
              upstreamDown (addressQuery "ads.example.com.") adsManager
              eq_refl eq_refl)
    as (m & Hm & Hcode & Hanswer & _).
  exists m. split; [exact Hm|]. split; [exact Hcode|exact Hanswer].
Defined.

(** C2, as stated, fails: the mode that selects NXDOMAIN is spelled [nx];
    under the mode [nxdomain] a blocked address query is answered with the
    null route, code 0 and one record. *)
Lemma C2_mode_nxdomain_is_the_null_route :
  ~ repliesNameError
      (handle splitAtLastColon (withMode "nxdomain") ∅ None upstreamDown
         (addressQuery "ads.example.com.") adsManager).2.
Proof.
  intros H. destruct (H _ (or_introl eq_refl)) as [Hcode _]. by vm_compute in Hcode.
Qed.

(** C3, as amended.  For every query from a client address that has no
    device binding, the front-end falls back to the global check: each
    question is decided by [IsBlocked] over the rules of all lists, and the
    reply is a synthesized block response exactly when the name of some
    question is blocked globally. *)
Theorem C3_unbound_client_gets_the_global_check
    (SplitHostPort : string -> option (string * string)) (config : Config)
    (ipMACCache : IPToMACCache) (am : option AccountManager) (w : World)
    (r : Msg) (bm : BlocklistManager) :
  ipMACCache !! GetClientIP SplitHostPort (clientAddrOf w) = None ->
  (forall name, isBlockedFor SplitHostPort ipMACCache am w bm name = IsBlocked bm name) /\
  synthesized (handle SplitHostPort config ipMACCache am w r bm).2
  = existsb (fun q => IsBlocked bm (matchName q)) (Questions r).
Proof.
  intros Hnone.
  assert (Hglobal : forall name,
             isBlockedFor SplitHostPort ipMACCache am w bm name = IsBlocked bm name)
    by (intros; by apply ReplyFacts.isBlockedFor_unbound).
  split; [exact Hglobal|].
  destruct (ReplyFacts.handle_spec SplitHostPort config ipMACCache am w r bm)
    as (pre & Htr & _ & _ & Hsyn).
  rewrite Htr, ReplyFacts.synthesized_snoc, Hsyn.
  generalize (Questions r). intros qs.
  induction qs as [|q qs IH]; [reflexivity|].
  cbn [existsb]. by rewrite Hglobal, IH.
Qed.

Lemma C3_unbound_client_witness :
  (forall name,
      isBlockedFor splitAtLastColon ∅ None upstreamDown adsManager name
      = IsBlocked adsManager name) /\
  synthesized (handle splitAtLastColon AppConfig ∅ None upstreamDown
                 (addressQuery "ads.example.com.") adsManager).2
  = existsb (fun q => IsBlocked adsManager (matchName q))
      (Questions (addressQuery "ads.example.com.")).
Proof.
  exact (C3_unbound_client_gets_the_global_check splitAtLastColon AppConfig ∅ None
           upstreamDown (addressQuery "ads.example.com.") adsManager eq_refl).
Defined.

(** C3, as stated, fails: with an empty cache of bindings, a query for a
    name on a list is answered with a synthesized block response. *)
Lemma C3_unbound_client_is_blocked :
  ~ unboundNeverBlocked splitAtLastColon ∅ upstreamDown
      (handle splitAtLastColon AppConfig ∅ None upstreamDown
         (addressQuery "ads.example.com.") adsManager).2.
Proof.
  unfold unboundNeverBlocked. intros H. specialize (H eq_refl).
  by vm_compute in H.
Qed.

(** C4, as amended.  For every query the handler sends exactly one reply,
    and its authoritative bit is set, whether the reply is a synthesized
    block response or was produced by forwarding. *)
Theorem C4_every_reply_is_authoritative
    (SplitHostPort : string -> option (string * string)) (config : Config)
    (ipMACCache : IPToMACCache) (am : option AccountManager) (w : World)
    (r : Msg) (bm : BlocklistManager) :
  exists m,
    replies (handle SplitHostPort config ipMACCache am w r bm).2 = [m] /\
    Authoritative m = true.
Proof.
  destruct (ReplyFacts.handle_spec SplitHostPort config ipMACCache am w r bm)
    as (pre & Htr & Hrep & _ & _).
  rewrite Htr, ReplyFacts.replies_snoc, Hrep. cbn [app].
  eexists. split; [reflexivity|].
  by rewrite ReplyFacts.finalReply_Authoritative.
Qed.

(** C4, as stated, fails: the reply to an allowed query, made of the
    records that the upstream server returned, has the authoritative bit
    set. *)
Lemma C4_forwarded_reply_is_authoritative :
  ~ authoritativeIffSynthesized
      (handle splitAtLastColon AppConfig ∅ None upstreamUp
         (addressQuery "example.org.") adsManager).2.
Proof.
  intros H. specialize (H _ (or_introl eq_refl)). by vm_compute in H.
Qed.

(** C8.  For every query none of whose questions is blocked the handler
    sends exactly one reply, whatever the upstream exchanges do; its code
    is 0, not SERVFAIL, and its answer section holds the records of the
    exchanges that succeeded.  When the exchanges time out or fail, the
    answer section is empty. *)
Theorem C8_failed_forwarding_still_replies
    (SplitHostPort : string -> option (string * string)) (config : Config)
    (ipMACCache : IPToMACCache) (am : option AccountManager) (w : World)
    (r : Msg) (bm : BlocklistManager) :
  existsb (fun q => isBlockedFor SplitHostPort ipMACCache am w bm (matchName q))
          (Questions r) = false ->
  exists m,
    replies (handle SplitHostPort config ipMACCache am w r bm).2 = [m] /\
    Rcode m = RcodeSuccess /\
    Rcode m <> RcodeServerFailure /\
    Answer m = forwardedAnswers w 0 (length (Questions r)) /\
    ((forall n, n < length (Questions r) -> exchange w n = ExchangeError) ->
     Answer m = []).
Proof.
  intros Hallowed.
  destruct (ReplyFacts.handle_spec SplitHostPort config ipMACCache am w r bm)
    as (pre & Htr & Hrep & _ & _).
  rewrite Htr, ReplyFacts.replies_snoc, Hrep. cbn [app].
  eexists. split; [reflexivity|].
  unfold finalReply. cbv zeta.
  rewrite (ReplyFacts.allowedPrefix_none _ _ Hallowed), drop_all.
  cbn. split; [reflexivity|]. split; [done|]. split; [reflexivity|].
  intros Hfail. apply ReplyFacts.forwardedAnswers_failed.
  intros i Hi. apply Hfail. lia.
Qed.

Lemma C8_failed_forwarding_witness :
  exists m,
    replies (handle splitAtLastColon AppConfig ∅ None upstreamDown
               (addressQuery "example.org.") adsManager).2 = [m] /\
    Rcode m = RcodeSuccess /\
    Rcode m <> RcodeServerFailure /\
    Answer m = [].
Proof.
  destruct (C8_failed_forwarding_still_replies splitAtLastColon AppConfig ∅ None
              upstreamDown (addressQuery "example.org.") adsManager eq_refl)
    as (m & Hm & Hcode & Hnot & _ & Hempty).
  exists m. split; [exact Hm|]. split; [exact Hcode|]. split; [exact Hnot|].
  apply Hempty. intros n _. reflexivity.
Defined.

(** C9, as amended.  Within the processing of every query message the
    record operation is invoked once for every question that is processed:
    the questions in front of the first blocked one, and that one.  For a
    message with one question that is exactly once.  Every invocation
    happens before the reply is sent: the reply is the last thing the
    handler does. *)
Theorem C9_records_precede_the_reply
    (SplitHostPort : string -> option (string * string)) (config : Config)
    (ipMACCache : IPToMACCache) (am : option AccountManager) (w : World)
    (r : Msg) (bm : BlocklistManager) :
  let blocked := fun q => isBlockedFor SplitHostPort ipMACCache am w bm (matchName q) in
  let tr := (handle SplitHostPort config ipMACCache am w r bm).2 in
  (exists pre m, tr = pre ++ [EvWriteMsg m] /\ replies pre = [] /\
                 countRecords pre = countRecords tr) /\
  countRecords tr
  = Nat.min (S (allowedPrefix blocked (Questions r))) (length (Questions r)) /\
  countRecords (afterReply tr) = 0 /\
  (forall q, Questions r = [q] -> countRecords tr = 1).
Proof.
  intros blocked tr.
  destruct (ReplyFacts.handle_spec SplitHostPort config ipMACCache am w r bm)
    as (pre & Htr & Hrep & Hcnt & _).
  fold blocked tr in Htr, Hcnt.
  assert (Hcount : countRecords tr
                   = Nat.min (S (allowedPrefix blocked (Questions r)))
                       (length (Questions r))).
  { rewrite Htr, ReplyFacts.countRecords_snoc, Hcnt.
    rewrite <- ReplyFacts.allowedPrefix_lt.
    pose proof (ReplyFacts.allowedPrefix_le blocked (Questions r)).
    destruct (_ <? _)%nat eqn:E.
    - apply Nat.ltb_lt in E. lia.
    - apply Nat.ltb_ge in E. lia. }
  split; [|split; [exact Hcount|split]].
  - exists pre. eexists. split; [exact Htr|]. split; [exact Hrep|].
    by rewrite Htr, ReplyFacts.countRecords_snoc.
  - rewrite Htr, ReplyFacts.afterReply_snoc; done.
  - intros q Hq. rewrite Hcount, Hq. cbn [length allowedPrefix].
    destruct (blocked q); reflexivity.
Qed.

Lemma C9_records_witness :
  countRecords (handle splitAtLastColon AppConfig ∅ None upstreamDown
                  (addressQuery "ads.example.com.") adsManager).2 = 1 /\
  countRecords (afterReply
                  (handle splitAtLastColon AppConfig ∅ None upstreamDown
                     (addressQuery "ads.example.com.") adsManager).2) = 0.
Proof.
  pose proof (C9_records_precede_the_reply splitAtLastColon AppConfig ∅ None
                upstreamDown (addressQuery "ads.example.com.") adsManager)
    as (_ & _ & Hafter & Hone).
  split; [|exact Hafter]. exact (Hone _ eq_refl).
Defined.

(** C9, as stated, fails: for a query with one allowed question the record
    operation is invoked once, but before the reply is written; nothing is
    recorded after it. *)
Lemma C9_record_comes_before_the_reply :
  ~ recordedOnceAfterReply
      (handle splitAtLastColon AppConfig ∅ None upstreamUp
         (addressQuery "example.org.") adsManager).2.
Proof.
  intros [_ H]. by vm_compute in H.
Qed.

(** ** The list store *)




(** C6.  For every directory state, two calls of [LoadAll] in succession
    yield managers with the same rule lists and the same match predicate,
    in whatever order each call walks the map of lists; both calls fail or
    both succeed. *)
Theorem C6_LoadAll_twice
    (isIPString : string -> bool) (o1 o2 : RangeOrder) (d : Dir)
    (b : BlocklistManager) :
  let first := LoadAll isIPString o1 d b in
  let second := LoadAll isIPString o2 d first.1 in
  lists second.1 = lists first.1 /\
  (forall domain, IsBlocked second.1 domain = IsBlocked first.1 domain) /\
  second.2 = first.2.
Proof.
  cbv zeta. unfold LoadAll. destruct (ReadDir d) as [ents|]; cbn [fst snd].
  - split; [reflexivity|]. split; [|reflexivity]. intros domain.
    apply (IndexFacts.IsBlocked_order o2 o1).
  - done.
Qed.

(** C7, as amended.  [AddFileToList] with [createIfMissing] false returns
    an error and changes nothing whenever the fetch fails or answers with a
    status outside 200..299, and whenever the list file cannot be opened;
    in the second case the error is [ErrNotExist] when the arguments are not
    empty and the fetch has succeeded (the fetch comes first, so a failed
    fetch is reported as such even when the file is missing). *)
Theorem C7_AddFileToList_failures
    (isIPString : string -> bool) (o : RangeOrder) (get : string -> httpResult)
    (d : Dir) (b : BlocklistManager) (listName url : string) :
  let res := AddFileToList isIPString o get d b listName url false in
  (fetchFailed (get url) -> exists err, res = ((0%Z, Some err), d, b)) /\
  (Open d (listPath listName) = None ->
   exists err, res = ((0%Z, Some err), d, b) /\
     (listName <> "" -> url <> "" -> ~ fetchFailed (get url) -> err = ErrNotExist)).
Proof.
  cbv zeta. unfold AddFileToList, fetchFailed.
  destruct (String.eqb listName "" || String.eqb url "") eqn:Hargs.
  { split; [by eexists|]. intros _. eexists. split; [reflexivity|].
    intros Hn Hu. apply orb_true_iff in Hargs as [H|H]; by apply String.eqb_eq in H. }
  destruct (get url) as [|status body].
  { split; [by eexists|]. intros _. eexists. split; [reflexivity|].
    intros _ _ H. by destruct H. }
  destruct ((status <? 200) || (status >=? 300))%Z eqn:Hst.
  { split; [by eexists|]. intros _. eexists. split; [reflexivity|].
    intros _ _ H. destruct H. apply orb_true_iff in Hst as [H|H]; lia. }
  split.
  - intros H. apply orb_false_iff in Hst as [H1 H2]. lia.
  - intros ->. eexists. split; reflexivity.
Qed.

Lemma C7_AddFileToList_witness :
  (exists err,
      AddFileToList isIPv4Literal inOrder unreachable emptyDir idle
        "ads" "http://lists.example/ads.txt" false
      = ((0%Z, Some err), emptyDir, idle)) /\
  (exists err,
      AddFileToList isIPv4Literal inOrder (serving "tracker.example") emptyDir idle
        "ads" "http://lists.example/ads.txt" false
      = ((0%Z, Some err), emptyDir, idle) /\ err = ErrNotExist).
Proof.
  split.
  - exact (proj1 (C7_AddFileToList_failures isIPv4Literal inOrder unreachable
                    emptyDir idle "ads" "http://lists.example/ads.txt") I).
  - destruct (proj2 (C7_AddFileToList_failures isIPv4Literal inOrder
                       (serving "tracker.example") emptyDir idle "ads"
                       "http://lists.example/ads.txt") eq_refl)
      as (err & Hres & Herr).
    exists err. split; [exact Hres|].
    apply Herr; [discriminate|discriminate|]. cbn. lia.
Defined.

(** C7, as stated, fails in its first half: when the list file is missing
    and the fetch fails too, the error is the one of the fetch, not
    [ErrNotExist]. *)
Lemma C7_failed_fetch_hides_the_missing_list :
  ~ missingListIsNotFound isIPv4Literal inOrder unreachable emptyDir idle
      "ads" "http://lists.example/ads.txt".
Proof.
  intros H. specialize (H eq_refl). by vm_compute in H.
Qed.

(** ** The telemetry sink *)

(** C10.  [DeleteLogs] changes nothing but the recent log and the log
    file: the counters, the hit maps, the lists and the compiled patterns of
    the manager are the same afterwards, so [GetStats] returns the same
    snapshot; every other file of the directory is untouched. *)
Theorem C10_DeleteLogs_frame (d : Dir) (b : BlocklistManager) :
  let '(d', b', _) := DeleteLogs d b in
  GetStats b' = GetStats b /\
  queries b' = queries b /\ blockedQueries b' = blockedQueries b /\
  domainHits b' = domainHits b /\ clientHits b' = clientHits b /\
  allHits b' = allHits b /\
  lists b' = lists b /\ compiled b' = compiled b /\
  dir b' = dir b /\ recentCap b' = recentCap b /\ logPath b' = logPath b /\
  (forall name, name <> logPath b -> entries d' !! name = entries d !! name).
Proof.
  unfold DeleteLogs, Truncate, Create.
  destruct (negb (String.eqb (logPath b) "")); [|by repeat split].
  destruct (entries d !! logPath b) as [[|r [|] data]|] eqn:E;
    try destruct (canCreate d); cbn; repeat split; try done;
    intros name Hne; by rewrite lookup_insert_ne.
Qed.

(** * Further properties of the code *)

Import BlocklistRest MoreStatements.

(** ** The telemetry sink *)

(** X1.  The recent log is a bounded ring: after a record operation it
    holds at most [recentCap] entries, which are the newest ones in their
    order, the new entry last; while there is room nothing is dropped; and
    the last entry that [GetLogs] returns is the one just recorded, for
    every [limit] (given a ring of at least one slot). *)
Theorem X1_recent_log_is_a_ring
    (now : Z) (b : BlocklistManager) (domain client : string) (blocked : bool) :
  (1 <= recentCap b)%Z ->
  let b' := RecordQueryWithClient now b domain client blocked in
  let entry := entryOf now domain client blocked in
  (Z.of_nat (length (recent b')) <= recentCap b)%Z /\
  (exists k, recent b' = drop k (recent b ++ [entry])) /\
  last (recent b') = Some entry /\
  ((Z.of_nat (length (recent b)) < recentCap b)%Z ->
   recent b' = recent b ++ [entry]) /\
  (forall limit, last (GetLogs b' limit) = Some entry).
Proof.
  intros Hcap. cbv zeta.
  set (b' := RecordQueryWithClient now b domain client blocked).
  assert (Hlast : last (recent b') = Some (entryOf now domain client blocked))
    by (by apply TelemetryFacts.pushRecent_last).
  split; [apply TelemetryFacts.pushRecent_length; lia|].
  split; [apply TelemetryFacts.pushRecent_drop|].
  split; [exact Hlast|].
  split; [apply TelemetryFacts.pushRecent_room|].
  intros limit.
  destruct (TelemetryFacts.GetLogs_drop b' limit) as [Hd _]. cbv zeta in Hd.
  rewrite Hd, TelemetryFacts.last_drop; [done|].
  assert (Hn : 1 <= length (recent b')) by (destruct (recent b'); [done|cbn; lia]).
  destruct ((limit <=? 0) || (limit >? Z.of_nat (length (recent b'))))%Z eqn:E;
    [lia|].
  apply orb_false_iff in E as [E1 E2]. lia.
Qed.

Lemma X1_recent_log_witness :
  recent (RecordQueryWithClient 4 busy "tracker.io" "10.0.0.7:5353" true)
  = [entryOf 2 "ads.example.com" "192.168.1.20:40000" true;
     entryOf 3 "example.org" "192.168.1.20:40000" false;
     entryOf 4 "tracker.io" "10.0.0.7:5353" true] /\
  (Z.of_nat (length (recent (RecordQueryWithClient 4 busy "tracker.io"
                               "10.0.0.7:5353" true))) <= 3)%Z /\
  last (GetLogs (RecordQueryWithClient 4 busy "tracker.io" "10.0.0.7:5353" true) 2)
  = Some (entryOf 4 "tracker.io" "10.0.0.7:5353" true).
Proof.
  destruct (X1_recent_log_is_a_ring 4 busy "tracker.io" "10.0.0.7:5353" true
              ltac:(cbn; lia)) as (Hlen & _ & _ & _ & Hlast).
  split; [reflexivity|]. split; [exact Hlen|exact (Hlast 2%Z)].
Defined.

(** X2.  [GetLogs] returns the end of the recent log, oldest entry first:
    [limit] entries when [limit] is positive and not above the number of
    entries, all of them otherwise. *)
Theorem X2_GetLogs_returns_the_newest (b : BlocklistManager) (limit : Z) :
  let n := length (recent b) in
  GetLogs b limit `suffix_of` recent b /\
  length (GetLogs b limit)
  = if ((0 <? limit) && (limit <=? Z.of_nat n))%Z then Z.to_nat limit else n.
Proof.
  cbv zeta. destruct (TelemetryFacts.GetLogs_drop b limit) as [Hd Hl].
  cbv zeta in Hd, Hl. split.
  - rewrite Hd. apply suffix_drop.
  - destruct ((0 <? limit) && (limit <=? Z.of_nat (length (recent b))))%Z eqn:E.
    + apply andb_true_iff in E as [E1 E2].
      destruct ((limit <=? 0) || (limit >? Z.of_nat (length (recent b))))%Z eqn:E';
        [apply orb_true_iff in E' as [E'|E']; [lia|apply Z.gtb_lt in E'; lia]|lia].
    + destruct ((limit <=? 0) || (limit >? Z.of_nat (length (recent b))))%Z eqn:E';
        [lia|].
      apply orb_false_iff in E' as [E1 E2]. apply andb_false_iff in E. lia.
Qed.

(** X3.  [DeleteLogs] fails exactly when a log path is set and the file
    there is a directory or cannot be written; then nothing changes, in the
    directory or in the manager.  When it succeeds [GetLogs] returns
    nothing, whatever the limit, and the log file is empty afterwards if it
    exists. *)
Theorem X3_DeleteLogs_outcomes (d : Dir) (b : BlocklistManager) :
  let '(d', b', err) := DeleteLogs d b in
  (err = None <-> logPath b = EmptyString \/ logFileYields d (logPath b) = true) /\
  (err <> None -> d' = d /\ b' = b) /\
  (err = None ->
   (forall limit, GetLogs b' limit = []) /\
   (logPath b <> EmptyString ->
    forall r w data, entries d' !! logPath b = Some (File r w data) ->
                     data = EmptyString)).
Proof.
  pose proof (TelemetryFacts.GetLogs_clearRecent b) as Hclear.
  unfold DeleteLogs, Truncate, Create, logFileYields.
  destruct (String.eqb (logPath b) "") eqn:Hp; cbn [negb].
  - apply String.eqb_eq in Hp. split; [split; [by left|done]|].
    split; [done|]. intros _. split; [done|]. by intros H.
  - apply String.eqb_neq in Hp.
    destruct (entries d !! logPath b) as [[|r [|] data]|] eqn:E.
    + split; [split; [done|by intros [?|?]]|]. split; [done|done].
    + split; [split; [by right|done]|]. split; [done|]. intros _.
      split; [done|]. intros _ r' w' data'. cbn. rewrite lookup_insert_eq.
      by intros [= _ _ <-].
    + split; [split; [done|by intros [?|?]]|]. split; [done|done].
    + destruct (canCreate d).
      * split; [split; [by right|done]|]. split; [done|]. intros _.
        split; [done|]. intros _ r' w' data'. cbn. rewrite lookup_insert_eq.
        by intros [= _ _ <-].
      * split; [split; [by right|done]|]. split; [done|]. intros _.
        split; [done|]. intros _ r' w' data'. by rewrite E.
Qed.

(** X4.  [RecordQuery] is [RecordQueryWithClient] for the empty client
    address: the same counters and the same log entry, and no client is
    counted. *)
Theorem X4_RecordQuery_is_the_clientless_record
    (now : Z) (b : BlocklistManager) (domain : string) (blocked : bool) :
  RecordQuery now b domain blocked
  = RecordQueryWithClient now b domain EmptyString blocked /\
  clientHits (RecordQuery now b domain blocked) = clientHits b.
Proof. split; reflexivity. Qed.

(** ** The listing of a list's rules *)

(** X5.  On a target whose [int] has 32 or 64 bits, with a query in
    ASCII: when the start (a negative offset counts as 0) plus the page size
    (100 when the limit is not positive) stays below the largest [int] plus
    one (2^31 or 2^63), [ListDomains] on an existing list returns the number
    of rules that contain the trimmed, lower-cased query, and of these
    rules, in the order of the list, the page that starts at the offset: an
    offset beyond the end gives an empty page, a page that reaches beyond
    the end is cut there. *)
Theorem X5_ListDomains_returns_the_page
    (bits : Z) (b : BlocklistManager) (name : string) (arr : list string)
    (offset limit : Z) (q : string) :
  isWidth bits ->
  isIntOf bits offset -> isIntOf bits limit ->
  asciiText q ->
  lists b !! name = Some arr ->
  (Z.max 0 offset + pageSize limit < 2 ^ (bits - 1))%Z ->
  ListDomains bits b name offset limit q
  = Returned (Z.of_nat (length (containing q arr)),
              take (Z.to_nat (pageSize limit))
                   (drop (Z.to_nat (Z.max 0 offset)) (containing q arr)),
              None).
Proof. intros Hw _ _ _. by apply PagingFacts.ListDomains_in_range. Qed.

Lemma X5_ListDomains_witness :
  ListDomains 32 threeRules "ads" 1 0 " T " =
    Returned (2%Z, ["*.metrics.net"], None).
Proof.
  exact (X5_ListDomains_returns_the_page 32 threeRules "ads"
           ["ads.example.com"; "tracker.io"; "*.metrics.net"] 1 0 " T "
           (or_introl eq_refl) ltac:(unfold isIntOf; lia) ltac:(unfold isIntOf; lia)
           eq_refl eq_refl eq_refl).
Defined.

(** X6.  Pages compose, as long as the end of the second page stays below
    the largest [int] plus one: on a target whose [int] has 32 or 64 bits,
    with a query in ASCII, on an existing list, when the offset is not
    negative, [l1] and [l2] are positive and the offset plus [l1] plus [l2]
    is below 2^31, respectively 2^63, the page of [l1] rules at the offset
    followed by the page of [l2] rules at the offset plus [l1] is the page
    of [l1 + l2] rules at the offset, and the three calls report the same
    total. *)
Theorem X6_ListDomains_pages_compose
    (bits : Z) (b : BlocklistManager) (name : string) (arr : list string)
    (offset l1 l2 : Z) (q : string) :
  isWidth bits ->
  asciiText q ->
  lists b !! name = Some arr ->
  (0 <= offset)%Z -> (0 < l1)%Z -> (0 < l2)%Z ->
  (offset + l1 + l2 < 2 ^ (bits - 1))%Z ->
  exists total p1 p2,
    ListDomains bits b name offset l1 q = Returned (total, p1, None) /\
    ListDomains bits b name (offset + l1) l2 q = Returned (total, p2, None) /\
    ListDomains bits b name offset (l1 + l2) q = Returned (total, p1 ++ p2, None).
Proof.
  intros Hw _ Hl Ho H1 H2 Hsum.
  assert (Hp : forall l, (0 < l)%Z -> pageSize l = l)
    by (intros l Hpos; unfold pageSize; destruct (Z.leb_spec l 0); lia).
  eexists _, _, _. split; [|split].
  - apply (PagingFacts.ListDomains_in_range bits b name arr); [done|done|].
    rewrite Hp; lia.
  - apply (PagingFacts.ListDomains_in_range bits b name arr); [done|done|].
    rewrite Hp; lia.
  - rewrite (PagingFacts.ListDomains_in_range bits b name arr);
      [|done|done|rewrite Hp; lia].
    do 2 f_equal. rewrite !Hp by lia.
    replace (Z.max 0 offset) with offset by lia.
    replace (Z.max 0 (offset + l1)) with (offset + l1)%Z by lia.
    set (f := containing q arr).
    rewrite Z2Nat.inj_add by lia. rewrite (Z2Nat.inj_add offset l1) by lia.
    rewrite <- drop_drop. set (g := drop (Z.to_nat offset) f). f_equal.
    rewrite take_drop_commute.
    rewrite <- (take_drop (Z.to_nat l1) (take (Z.to_nat l1 + Z.to_nat l2) g)) at 1.
    f_equal. rewrite take_take. f_equal. lia.
Qed.

Lemma X6_ListDomains_pages_witness :
  exists total p1 p2,
    ListDomains 32 threeRules "ads" 0 1 "" = Returned (total, p1, None) /\
    ListDomains 32 threeRules "ads" (0 + 1) 5 "" = Returned (total, p2, None) /\
    ListDomains 32 threeRules "ads" 0 (1 + 5) "" = Returned (total, p1 ++ p2, None).
Proof.
  exact (X6_ListDomains_pages_compose 32 threeRules "ads"
           ["ads.example.com"; "tracker.io"; "*.metrics.net"] 0 1 5 ""
           (or_introl eq_refl) eq_refl
           eq_refl ltac:(lia) ltac:(lia) ltac:(lia) ltac:(lia)).
Defined.

(** X7.  On a target whose [int] has 32 or 64 bits, [ListDomains] panics,
    on [int] arguments and a query in ASCII, exactly when the list exists,
    the start lies before the end of the filtered rules, and the start plus
    the page size reaches 2^31, respectively 2^63: the sum wraps around to a
    negative upper bound of the slice. *)
Theorem X7_ListDomains_panics_on_overflow
    (bits : Z) (b : BlocklistManager) (name : string) (offset limit : Z)
    (q : string) :
  isWidth bits ->
  isIntOf bits offset -> isIntOf bits limit ->
  asciiText q ->
  ListDomains bits b name offset limit q = Panicked <->
  exists arr,
    lists b !! name = Some arr /\
    (Z.max 0 offset < Z.of_nat (length (containing q arr)))%Z /\
    (2 ^ (bits - 1) <= Z.max 0 offset + pageSize limit)%Z.
Proof.
  intros Hw Ho Hi _. split.
  - intros Hp. destruct (lists b !! name) as [arr|] eqn:Hl;
      [|by unfold ListDomains in Hp; rewrite Hl in Hp].
    exists arr. split; [done|].
    destruct (Z.lt_ge_cases (Z.max 0 offset + pageSize limit) (2 ^ (bits - 1)))
      as [Hs|Hs].
    { by rewrite (PagingFacts.ListDomains_in_range bits b name arr offset limit q
                    Hw Hl Hs) in Hp. }
    split; [|done].
    rewrite (PagingFacts.ListDomains_filtered bits b name arr offset limit q Hl) in Hp.
    cbv zeta in Hp.
    by destruct (Z.geb_spec (Z.max 0 offset) (Z.of_nat (length (containing q arr)))).
  - intros (arr & Hl & Hlt & Hs).
    by apply (PagingFacts.ListDomains_overflow bits b name arr).
Qed.

Lemma X7_ListDomains_panic_witness :
  ListDomains 32 threeRules "ads" 1 (2 ^ 31 - 1) "" = Panicked.
Proof.
  apply (X7_ListDomains_panics_on_overflow 32 threeRules "ads" 1 (2 ^ 31 - 1) "").
  - by left.
  - unfold isIntOf. lia.
  - unfold isIntOf. lia.
  - reflexivity.
  - exists ["ads.example.com"; "tracker.io"; "*.metrics.net"].
    split; [reflexivity|]. split; [reflexivity|]. by vm_compute.
Defined.

(** ** The removal of a rule *)

(** X8.  For a list name that is a file name and a name in ASCII,
    [RemoveDomain] reports a removal exactly when both arguments are not
    empty, the list is in memory, the normalized name is one of its rules,
    the list file can be created, and no write of the other rules to it
    fails.  Whenever it reports none, the manager is as before and no file
    but that of the list has changed; the directory is as before unless the
    file was created and a write failed. *)
Theorem X8_RemoveDomain_outcome
    (isIPString : string -> bool) (o : RangeOrder) (d : Dir)
    (b : BlocklistManager) (L domain : string) :
  isFileName L = true ->
  asciiText domain ->
  let '(res, d', b') := RemoveDomain isIPString o d b L domain in
  (res.1 = true <->
   L <> EmptyString /\ domain <> EmptyString /\
   (exists arr, lists b !! L = Some arr /\ normalizePattern domain ∈ arr /\
                roomFor d L (linesOf (without (normalizePattern domain) arr))) /\
   Create d (listPath L) <> None) /\
  (res.1 = false ->
   b' = b /\ sameButList L d d' /\
   (Create d (listPath L) = None \/ res.2 <> Some ErrIO -> d' = d)).
Proof.
  intros _ _.
  pose proof (FrameFacts.RemoveDomain_frame isIPString o d b L domain) as Hframe.
  unfold RemoveDomain in *.
  destruct (String.eqb L "") eqn:HL; cbn [orb] in *.
  { apply String.eqb_eq in HL. split; [|done]. split; [done|]. by intros [? _]. }
  destruct (String.eqb domain "") eqn:HD; cbn [orb] in *.
  { apply String.eqb_eq in HD. split; [|done]. split; [done|]. by intros (_ & ? & _). }
  apply String.eqb_neq in HL, HD.
  destruct (lists b !! L) as [arr|] eqn:Hl.
  2:{ split; [|done]. split; [done|]. by intros (_ & _ & (arr & ? & _) & _). }
  rewrite RewriteFacts.foldl_removeStep in *. cbn [fst snd orb app] in *.
  destruct (existsb _ arr) eqn:Hex; cbn [negb] in *.
  2:{ split; [|done]. split; [done|]. intros (_ & _ & (arr' & [= <-] & Hin & _) & _).
      apply RewriteFacts.existsb_eqb in Hin. congruence. }
  apply RewriteFacts.existsb_eqb in Hex.
  destruct (Create d (listPath L)) as [d1|] eqn:Hc.
  2:{ split; [|by intros _; split; [|split; [|intros _]]].
      split; [done|]. by intros (_ & _ & _ & ?). }
  pose proof (StoreFacts.writeAll_after_Create d L d1
                (without (normalizePattern domain) arr) Hc) as Hok.
  fold (without (normalizePattern domain) arr) in Hframe |- *.
  destruct (writeAll d1 (listPath L) _) as [d2 ok]. cbn [snd] in Hok. subst ok.
  destruct (fits d (listPath L) _) eqn:Hfits.
  - destruct (LoadAll _ _ _ _) as [b' err]. cbn [fst snd] in *.
    split; [|done]. split; [|done]. intros _.
    split; [done|]. split; [done|]. split; [|done]. by exists arr.
  - cbn [fst snd] in *. split.
    + split; [done|]. intros (_ & _ & (arr' & [= <-] & _ & Hroom) & _).
      unfold roomFor in Hroom. congruence.
    + intros _. split; [done|]. split; [exact Hframe|]. by intros [?|?].
Qed.

Lemma X8_RemoveDomain_witness :
  let '(res, d', b') :=
    RemoveDomain isIPv4Literal inOrder adsDir adsLoaded "ads" "Tracker.example." in
  (res.1 = true <->
   "ads" <> EmptyString /\ "Tracker.example." <> EmptyString /\
   (exists arr, lists adsLoaded !! "ads" = Some arr /\
                normalizePattern "Tracker.example." ∈ arr /\
                roomFor adsDir "ads"
                  (linesOf (without (normalizePattern "Tracker.example.") arr))) /\
   Create adsDir (listPath "ads") <> None) /\
  (res.1 = false ->
   b' = adsLoaded /\ sameButList "ads" adsDir d' /\
   (Create adsDir (listPath "ads") = None \/ res.2 <> Some ErrIO -> d' = adsDir)).
Proof.
  exact (X8_RemoveDomain_outcome isIPv4Literal inOrder adsDir adsLoaded "ads"
           "Tracker.example." eq_refl eq_refl).
Defined.

(** X9.  When [RemoveDomain] removes a rule, named in ASCII, from a list
    whose rules in memory are single tokens in ASCII, the list name is a
    file name, the list file is usable in a directory that can be listed,
    and no write fails, it returns [true] without error, the list file
    holds the other rules of the list, one to a line in their order, no
    other file changes, and the reloaded list consists of the survivors of
    these rules.  When every rule is loaded back as it is, the list is the
    former one without the name. *)
Theorem X9_RemoveDomain_rewrites_the_list
    (isIPString : string -> bool) (o : RangeOrder) (d : Dir)
    (b : BlocklistManager) (L domain : string) (arr : list string) :
  L <> EmptyString -> domain <> EmptyString ->
  isFileName L = true ->
  asciiText domain ->
  lists b !! L = Some arr ->
  normalizePattern domain ∈ arr ->
  Forall (fun k => asciiText k /\ isToken k = true) arr ->
  canList d = true ->
  listFileUsable d L ->
  roomFor d L (linesOf (without (normalizePattern domain) arr)) ->
  let rest := without (normalizePattern domain) arr in
  let '(res, d', b') := RemoveDomain isIPString o d b L domain in
  res = (true, None) /\
  entries d' = <[listPath L := File true true (linesOf rest)]> (entries d) /\
  lists b' !! L = Some (flat_map (survivors isIPString) rest) /\
  (Forall (fun k => survivors isIPString k = [k]) arr ->
   lists b' !! L = Some rest /\ normalizePattern domain ∉ rest).
Proof.
  intros HL HD _ _ Hl Hin Htok' Hlist Husable Hroom. cbv zeta.
  assert (Htok : Forall (fun k => isToken k = true) arr)
    by (eapply Forall_impl; [exact Htok'|]; by intros k [_ Hk]).
  unfold RemoveDomain.
  apply String.eqb_neq in HL, HD. rewrite HL, HD. cbn [orb]. rewrite Hl.
  rewrite RewriteFacts.foldl_removeStep. cbn [fst snd orb app].
  apply RewriteFacts.existsb_eqb in Hin. rewrite Hin. cbn [negb].
  fold (without (normalizePattern domain) arr).
  set (rest := without (normalizePattern domain) arr) in *.
  destruct (StoreFacts.written_file d L rest Husable Hroom)
    as (d1 & d2 & -> & -> & He2 & Hl2).
  rewrite Hlist in Hl2.
  destruct (RewriteFacts.LoadAll_list isIPString o d2 b L true (linesOf rest) Hl2)
    as (ls & -> & Hls); [by rewrite He2, lookup_insert_eq|].
  assert (Hrest : Forall (fun k => isToken k = true) rest)
    by by apply RewriteFacts.Forall_without.
  rewrite (ScannerFacts.readLines_linesOf isIPString rest Hrest) in Hls.
  split; [done|]. split; [done|]. split; [done|].
  intros Hst. split; [|apply RewriteFacts.without_absent].
  cbn [lists loaded withLists]. rewrite Hls. f_equal.
  apply RewriteFacts.flat_map_stable. by apply RewriteFacts.Forall_without.
Qed.

Lemma X9_RemoveDomain_witness :
  let '(res, d', b') :=
    RemoveDomain isIPv4Literal inOrder adsDir adsLoaded "ads" "Tracker.example." in
  res = (true, None) /\
  entries d' = <["ads.txt" := File true true EmptyString]> (entries adsDir) /\
  lists b' !! "ads" = Some [].
Proof.
  pose proof (X9_RemoveDomain_rewrites_the_list isIPv4Literal inOrder adsDir
                adsLoaded "ads" "Tracker.example." ["tracker.example"]
                ltac:(discriminate) ltac:(discriminate) eq_refl eq_refl eq_refl
                ltac:(by apply list_elem_of_In; left)
                ltac:(by constructor) eq_refl ltac:(by vm_compute) eq_refl) as H.
  cbv zeta in H.
  destruct (RemoveDomain _ _ _ _ _ _) as [[res d'] b'].
  destruct H as (H1 & H2 & H3 & _).
  split; [exact H1|]. split; [exact H2|exact H3].
Defined.

(** ** The replacement of a list from a URL *)

(** X10.  For a list name that is a file name and a body in ASCII,
    [ReplaceListFromURL] returns an error exactly when an argument is
    empty, the fetch fails or answers with a status outside 200..299, the
    list file cannot be created, or a write of a rule of the body to it
    fails; a failed reload is not reported.  With an error the manager is
    as before and no file but that of the list has changed; unless the
    error is that of a write, the count is 0 and the directory is as
    before. *)
Theorem X10_ReplaceListFromURL_failures
    (isIPString : string -> bool) (o : RangeOrder) (get : string -> httpResult)
    (d : Dir) (b : BlocklistManager) (L url : string) :
  isFileName L = true ->
  asciiBody (get url) ->
  let '(res, d', b') := ReplaceListFromURL isIPString o get d b L url in
  (res.2 <> None <->
   L = EmptyString \/ url = EmptyString \/ fetchFailed (get url) \/
   Create d (listPath L) = None \/
   exists status body,
     get url = Fetched status body /\
     ~ roomFor d L (linesOf (readLines isIPString body))) /\
  (res.2 <> None ->
   b' = b /\ sameButList L d d' /\
   (Create d (listPath L) = None \/ res.2 <> Some ErrIO -> res.1 = 0%Z /\ d' = d)).
Proof.
  intros _ _.
  pose proof (FrameFacts.ReplaceListFromURL_frame isIPString o get d b L url)
    as Hframe.
  unfold ReplaceListFromURL, fetchFailed in *.
  destruct (String.eqb L "") eqn:HL; cbn [orb] in *.
  { apply String.eqb_eq in HL. split; [by split; [left|]|].
    intros _. split; [done|]. by split; [exact Hframe|]. }
  destruct (String.eqb url "") eqn:HU; cbn [orb] in *.
  { apply String.eqb_eq in HU. split; [by split; [right; left|]|].
    intros _. split; [done|]. by split; [exact Hframe|]. }
  apply String.eqb_neq in HL, HU.
  destruct (get url) as [|status body] eqn:Hget.
  { split; [by split; [right; right; left|]|].
    intros _. split; [done|]. by split; [exact Hframe|]. }
  destruct ((status <? 200) || (status >=? 300))%Z eqn:Hst.
  { split.
    - split; [|done]. intros _. right; right; left.
      apply orb_true_iff in Hst as [H|H]; lia.
    - intros _. split; [done|]. by split; [exact Hframe|]. }
  apply orb_false_iff in Hst as [H1 H2].
  destruct (Create d (listPath L)) as [d1|] eqn:Hc.
  2:{ split; [by split; [right; right; right; left|]|].
      intros _. split; [done|]. by split; [exact Hframe|]. }
  set (rules := readLines isIPString body) in *.
  assert (Hne : Forall (fun k => k <> EmptyString) rules).
  { eapply Forall_impl; [apply ScannerFacts.readLines_tokens|]. intros k Hk.
    by apply ScannerFacts.isToken_parts in Hk as [? _]. }
  pose proof (CountFacts.writeCounted_writeAll (listPath L) rules d1 0%Z) as Hwc.
  rewrite (CountFacts.filter_nonempty rules Hne) in Hwc.
  pose proof (StoreFacts.writeAll_after_Create d L d1 rules Hc) as Hok.
  rewrite <- Hwc in Hok. clear Hwc.
  destruct (writeCounted d1 (listPath L) rules 0%Z) as [[d2 written] ok].
  cbn [fst snd] in Hok. subst ok.
  destruct (fits d (listPath L) (linesOf rules)) eqn:Hfits; cbn [fst snd] in *.
  - split; [|done]. split; [done|].
    intros [?|[?|[?|[?|(st & bd & [= _ <-] & Hroom)]]]];
      [done|done|lia|done|].
    by destruct Hroom.
  - split.
    + split; [|done]. intros _. do 4 right. exists status, body.
      split; [done|]. unfold roomFor. fold rules. congruence.
    + intros _. split; [done|]. split; [exact Hframe|]. by intros [?|?].
Qed.

Lemma X10_ReplaceListFromURL_witness :
  let '(res, d', b') :=
    ReplaceListFromURL isIPv4Literal inOrder unreachable adsDir adsLoaded
      "ads" "http://lists.example/ads.txt" in
  (res.2 <> None <->
   "ads" = EmptyString \/ "http://lists.example/ads.txt" = EmptyString \/
   fetchFailed (unreachable "http://lists.example/ads.txt") \/
   Create adsDir (listPath "ads") = None \/
   exists status body,
     unreachable "http://lists.example/ads.txt" = Fetched status body /\
     ~ roomFor adsDir "ads" (linesOf (readLines isIPv4Literal body))) /\
  (res.2 <> None ->
   b' = adsLoaded /\ sameButList "ads" adsDir d' /\
   (Create adsDir (listPath "ads") = None \/ res.2 <> Some ErrIO ->
    res.1 = 0%Z /\ d' = adsDir)).
Proof.
  exact (X10_ReplaceListFromURL_failures isIPv4Literal inOrder unreachable adsDir
           adsLoaded "ads" "http://lists.example/ads.txt" eq_refl I).
Defined.



(** ** The merge of a fetched file into a list *)





(** ** The lists that a change leaves alone *)



(** ** The rules read from a file *)

(** X15.  Every rule that [readLines] yields, from a text in ASCII, is a
    single token (not empty, without white space or comment sign, shorter
    than 64 KiB) in lower case that is neither an IP literal nor a reserved
    local name; in particular no rule starts with [ff] or [ip6-]. *)
Theorem X15_readLines_yields_rules
    (isIPString : string -> bool) (text : string) (k : string) :
  asciiText text ->
  k ∈ readLines isIPString text ->
  isRule isIPString k = true /\
  HasPrefix k "ff" = false /\ HasPrefix k "ip6-" = false.
Proof.
  intros _ Hk.
  pose proof (proj1 (Forall_forall _ _)
                (RuleFacts.readLines_rules isIPString text) k Hk) as Hr.
  split; [exact Hr|].
  unfold isRule in Hr.
  apply andb_true_iff in Hr as [Hr _]. apply andb_true_iff in Hr as [Hr _].
  apply andb_true_iff in Hr as [_ Hr]. apply negb_true_iff in Hr.
  unfold isLocalHostName in Hr.
  destruct (String.eqb k "localhost" || String.eqb k "local" ||
            String.eqb k "broadcasthost" || String.eqb k "ip6-localhost" ||
            String.eqb k "ip6-loopback"); [done|].
  destruct (HasPrefix k "ip6-"); [done|]. by destruct (HasPrefix k "ff").
Qed.

Lemma X15_readLines_witness :
  isRule isIPv4Literal "ads.example.com" = true /\
  HasPrefix "ads.example.com" "ff" = false /\
  HasPrefix "ads.example.com" "ip6-" = false.
Proof.
  apply (X15_readLines_yields_rules isIPv4Literal
           ("0.0.0.0 Ads.Example.COM. ffmpeg.org # comment" +:+ String lf EmptyString)).
  - by vm_compute.
  - apply list_elem_of_In. vm_compute. by left.
Defined.

(** X16.  A comment does not change what a line yields: the rules of a
    line followed by a comment sign and any text are the rules of the line
    alone. *)
Theorem X16_comment_is_ignored
    (isIPString : string -> bool) (line comment : string) :
  allChars (isNot "#"%char) line = true ->
  parseLine isIPString (line +:+ String "#"%char comment)
  = parseLine isIPString line.
Proof.
  intros Hl. unfold parseLine.
  by rewrite RuleFacts.stripComment_append, ScannerFacts.stripComment_plain.
Qed.

Lemma X16_comment_witness :
  parseLine isIPv4Literal ("0.0.0.0 ads.example.com " +:+ String "#"%char "tracker.io")
  = parseLine isIPv4Literal "0.0.0.0 ads.example.com ".
Proof.
  exact (X16_comment_is_ignored isIPv4Literal "0.0.0.0 ads.example.com "
           "tracker.io" eq_refl).
Defined.

(** X17.  [readLines] stops at the first line of 64 KiB or more: the
    lines before it are read as usual, that line and everything after it
    yield nothing (the scanner's error is dropped by every caller). *)
Theorem X17_readLines_stops_at_a_long_line
    (isIPString : string -> bool) (ks : list string) (long rest : string) :
  Forall (fun k => allChars (isNot lf) k = true /\ short k = true) ks ->
  allChars (isNot lf) long = true ->
  short long = false ->
  readLines isIPString (linesOf ks +:+ long +:+ String lf rest)
  = readLines isIPString (linesOf ks).
Proof.
  intros Hks Hl Hs.
  by rewrite RuleFacts.readLines_cut, RuleFacts.readLines_lines.
Qed.

Lemma X17_readLines_witness :
  readLines isIPv4Literal
    (linesOf ["ads.example.com"] +:+ longLine +:+ String lf "tracker.io")
  = readLines isIPv4Literal (linesOf ["ads.example.com"]).
Proof.
  apply (X17_readLines_stops_at_a_long_line isIPv4Literal ["ads.example.com"]
           longLine "tracker.io").
  - constructor; [|constructor]. split; reflexivity.
  - by vm_compute.
  - by vm_compute.
Defined.

(** ** The pattern language *)

(** X18.  When no rule holds a star, the index is a table of names:
    [IsBlocked] answers true exactly when the name (trimmed, lowercased,
    without one final dot) equals some rule of some list normalized once
    more.  No subdomain and no parent of a listed name is blocked. *)
Theorem X18_star_free_rules_block_their_own_name
    (o : RangeOrder) (b : BlocklistManager)
    (ls : gmap string (list string)) (domain : string) :
  (forall name pats rule,
      ls !! name = Some pats -> rule ∈ pats ->
      allChars (isNot "*"%char) rule = true) ->
  IsBlocked (loaded o b ls) domain = true <->
  exists name pats rule,
    ls !! name = Some pats /\ rule ∈ pats /\
    normalizePattern rule <> EmptyString /\
    normalizePattern rule = normalizedName domain.
Proof.
  intros Hplain. rewrite IndexFacts.IsBlocked_loaded. unfold someRule. split.
  - intros (name & pats & rule & Hl & Hin & Hb). exists name, pats, rule.
    split; [done|]. split; [done|].
    by apply WildcardFacts.ruleBlocks_plain; [apply (Hplain name pats)|].
  - intros (name & pats & rule & Hl & Hin & Hne & Heq). exists name, pats, rule.
    split; [done|]. split; [done|].
    by apply WildcardFacts.ruleBlocks_plain; [apply (Hplain name pats)|].
Qed.

Lemma X18_star_free_witness :
  IsBlocked adsManager "Ads.Example.com." = true /\
  IsBlocked adsManager "cdn.ads.example.com" <> true.
Proof.
  pose proof (fun domain =>
    X18_star_free_rules_block_their_own_name inOrder idle
      {["ads" := ["ads.example.com"]]} domain
      ltac:(intros name pats rule [_ <-]%lookup_singleton_Some
              ->%list_elem_of_singleton; reflexivity)) as H.
  split.
  - apply H. exists "ads", ["ads.example.com"], "ads.example.com".
    split; [reflexivity|]. split; [by left|]. split; [discriminate|reflexivity].
  - intros (name & pats & rule & [_ <-]%lookup_singleton_Some
            & ->%list_elem_of_singleton & _ & Heq)%H.
    discriminate Heq.
Defined.

(** X19.  A normalized rule that is a star followed by a text without
    stars compiles to an expression that matches exactly the names that end
    in that text after a prefix free of line feeds; the prefix may be empty
    and may hold dots. *)
Theorem X19_leading_star_matches_suffixes (s d : string) :
  allChars (isNot "*"%char) s = true ->
  normalizePattern (String "*"%char s) = String "*"%char s ->
  exists re,
    patternToRegexp (String "*"%char s) = Some re /\
    (MatchString re d = true <->
     exists x, d = x +:+ s /\ allChars (isNot lf) x = true).
Proof.
  intros Hs Hn. exists (anchored (String "*"%char s)). split.
  - by rewrite PatternFacts.patternToRegexp_spec, Hn.
  - rewrite PatternFacts.MatchString_anchored. unfold matchesWithinLine.
    by apply WildcardFacts.wildcardMatch_star.
Qed.

Lemma X19_leading_star_witness :
  exists re,
    patternToRegexp "*.example.com" = Some re /\
    (MatchString re "a.b.example.com" = true <->
     exists x, "a.b.example.com" = x +:+ ".example.com" /\
               allChars (isNot lf) x = true).
Proof.
  exact (X19_leading_star_matches_suffixes ".example.com" "a.b.example.com"
           eq_refl eq_refl).
Defined.

(** ** The per-device check *)

(** X20.  [IsBlockedForUser] answers true exactly when the MAC address is
    not empty, the account manager returns the device's lists without
    error, and some rule of one of these lists that the manager holds in
    memory blocks the name, under the same reading of rules and names as
    [IsBlocked]; lists that are not in memory are passed over. *)
Theorem X20_IsBlockedForUser_iff_a_device_rule_blocks
    (bm : BlocklistManager) (domain mac : string) (am : AccountManager) :
  IsBlockedForUser bm domain mac am = true <->
  mac <> EmptyString /\
  exists userLists L pats rule,
    GetUserBlocklists am mac = Some userLists /\ L ∈ userLists /\
    lists bm !! L = Some pats /\ rule ∈ pats /\ ruleBlocks rule domain = true.
Proof. apply ReachFacts.IsBlockedForUser_spec. Qed.

(** ** The managers that the program can hold *)

(** X21.  Every manager that the program can hold (made by
    [NewBlocklistManager] and changed by any sequence of [LoadAll],
    [AddFileToList], [ReplaceListFromURL], [AddItemsToList],
    [RemoveDomain], [RecordQuery], [RecordQueryWithClient] and
    [DeleteLogs], on any directory and network) keeps its compiled
    patterns in step with its lists, so that [IsBlocked] answers true
    exactly when some rule in memory blocks the name; every rule in memory
    has passed the checks of [readLines] (it is not empty, not a reserved
    local name and not an IP literal); the recent log holds at most 500
    entries; and every name counted as blocked is counted as queried. *)
Theorem X21_reachable_managers_are_consistent
    (isIPString : string -> bool) (b : BlocklistManager) :
  reachable isIPString b ->
  (forall domain,
      IsBlocked b domain = true <->
      someRule (lists b) (fun rule => ruleBlocks rule domain = true)) /\
  (forall L pats k,
      lists b !! L = Some pats -> k ∈ pats -> isKept isIPString k = true) /\
  recentCap b = 500%Z /\
  length (recent b) <= 500 /\
  dom (domainHits b) ⊆ dom (allHits b).
Proof.
  intros Hr. pose proof (ReachFacts.reachable_consistent isIPString b Hr) as Hc.
  split; [|by destruct Hc as (_ & ? & ? & ? & ?)].
  intros domain. by apply (ReachFacts.consistent_IsBlocked isIPString).
Qed.

Lemma X21_reachable_witness :
  let b := RecordQueryWithClient 7
             (RemoveDomain isIPv4Literal inOrder adsDir adsServed
                "ads" "tracker.example").2
             "tracker.example" "192.168.1.20:40000" false in
  (forall domain,
      IsBlocked b domain = true <->
      someRule (lists b) (fun rule => ruleBlocks rule domain = true)) /\
  (forall L pats k,
      lists b !! L = Some pats -> k ∈ pats -> isKept isIPv4Literal k = true) /\
  recentCap b = 500%Z /\
  length (recent b) <= 500 /\
  dom (domainHits b) ⊆ dom (allHits b).
Proof.
  apply (X21_reachable_managers_are_consistent isIPv4Literal).
  apply reach_RecordQueryWithClient, reach_RemoveDomain.
  apply (reach_New isIPv4Literal inOrder "blocklist" adsDir). by vm_compute.
Defined.

(** X22.  On every manager that the program can hold, the per-device
    check blocks no name that the global check lets pass. *)
Theorem X22_device_check_blocks_no_more_than_the_global_one
    (isIPString : string -> bool) (b : BlocklistManager)
    (domain mac : string) (am : AccountManager) :
  reachable isIPString b ->
  IsBlockedForUser b domain mac am = true ->
  IsBlocked b domain = true.
Proof.
  intros Hr (_ & userLists & L & pats & rule & _ & _ & Hl & Hin & Hb)%
           ReachFacts.IsBlockedForUser_spec.
  apply (ReachFacts.consistent_IsBlocked isIPString);
    [by apply ReachFacts.reachable_consistent|].
  by exists L, pats, rule.
Qed.

Lemma X22_device_check_witness :
  IsBlocked adsServed "Tracker.Example." = true.
Proof.
  apply (X22_device_check_blocks_no_more_than_the_global_one isIPv4Literal adsServed
           "Tracker.Example." "aa:bb:cc:dd:ee:ff"
           {| GetUserBlocklists := fun _ => Some ["ads"] |}).
  - apply (reach_New isIPv4Literal inOrder "blocklist" adsDir). by vm_compute.
  - by vm_compute.
Defined.

(** ** What the handler sends and keeps *)

(** X23.  The handler sends exactly one reply to every message.  The
    reply carries the identifier and the opcode of the request, is marked
    as a response, repeats the first question only, and copies the bits
    RD and CD of a standard query; its code is 0, or 3 when a question was
    blocked under the mode [nx], and never a failure code. *)
Theorem X23_one_reply_with_the_header_of_the_request
    (SplitHostPort : string -> option (string * string)) (config : Config)
    (ipMACCache : IPToMACCache) (am : option AccountManager) (w : World)
    (r : Msg) (bm : BlocklistManager) :
  let tr := (handle SplitHostPort config ipMACCache am w r bm).2 in
  exists m,
    replies tr = [m] /\
    Id m = Id r /\ Response m = true /\ Opcode m = Opcode r /\
    Questions m = take 1 (Questions r) /\
    (Opcode r = OpcodeQuery ->
     RecursionDesired m = RecursionDesired r /\
     CheckingDisabled m = CheckingDisabled r) /\
    Rcode m = (if synthesized tr && String.eqb (BlockingMode config) "nx"
               then RcodeNameError else RcodeSuccess).
Proof.
  cbv zeta.
  destruct (ReplyFacts.handle_spec SplitHostPort config ipMACCache am w r bm)
    as (pre & Htr & Hrep & _ & Hsyn).
  cbv zeta in Htr, Hsyn.
  rewrite Htr, ReplyFacts.replies_snoc, ReplyFacts.synthesized_snoc, Hrep, Hsyn.
  cbn [app]. eexists. split; [reflexivity|].
  set (msg := setAuthoritative (SetReply emptyMsg r) true).
  set (blocked := fun q => isBlockedFor SplitHostPort ipMACCache am w bm (matchName q)).
  destruct (ServeFacts.finalReply_sameHeader config w blocked (Questions r) 0 msg)
    as (H1 & H2 & H3 & H4 & H5 & H6).
  rewrite H1, H2, H3, H4, H5, H6, ServeFacts.finalReply_Rcode.
  split; [done|]. split; [done|]. split; [done|].
  split; [by cbn; destruct (Questions r)|].
  split; [|done]. intros Hop. cbn. by rewrite Hop.
Qed.

(** X24.  Under every mode but [nx], the reply to a message with a
    blocked question holds what was forwarded for the questions in front
    of the first blocked one and, when that question asks for type A or
    ANY, one record for it of type A and class IN: under [redirect] with
    TTL 60 and the address of the block page (127.0.0.1 when none is
    configured), under every other mode with TTL 0 and the address 0.0.0.0.
    A blocked question of another type gets no record, and the code is 0. *)
Theorem X24_blocked_questions_get_the_block_record
    (SplitHostPort : string -> option (string * string)) (config : Config)
    (ipMACCache : IPToMACCache) (am : option AccountManager) (w : World)
    (r : Msg) (bm : BlocklistManager) (q : Question) :
  let blocked := fun q => isBlockedFor SplitHostPort ipMACCache am w bm (matchName q) in
  let k := allowedPrefix blocked (Questions r) in
  BlockingMode config <> "nx" ->
  Questions r !! k = Some q ->
  exists m,
    replies (handle SplitHostPort config ipMACCache am w r bm).2 = [m] /\
    Rcode m = RcodeSuccess /\
    Answer m = forwardedAnswers w 0 k ++
               (if wantsAddress q then [blockRecord config q] else []).
Proof.
  intros blocked k Hmode Hq.
  destruct (ReplyFacts.handle_spec SplitHostPort config ipMACCache am w r bm)
    as (pre & Htr & Hrep & _ & _).
  fold blocked in Htr. rewrite Htr, ReplyFacts.replies_snoc, Hrep. cbn [app].
  eexists. split; [reflexivity|].
  rewrite ServeFacts.finalReply_Rcode.
  apply String.eqb_neq in Hmode. rewrite Hmode, andb_false_r.
  split; [done|]. apply String.eqb_neq in Hmode.
  unfold finalReply. cbv zeta. fold k.
  rewrite (drop_S _ _ _ Hq). by rewrite ServeFacts.blockReply_Answer.
Qed.

Lemma X24_block_record_witness :
  exists m,
    replies (handle splitAtLastColon (withMode "redirect") ∅ None upstreamUp
               twoQuestions adsManager).2 = [m] /\
    Rcode m = RcodeSuccess /\
    Answer m = Answer upstreamReply ++
               [{| Hdr := {| HdrName := "ads.example.com."; Rrtype := TypeA;
                             Class := ClassINET; Ttl := 60 |};
                   Rdata := ParseIP "192.168.1.10" |}].
Proof.
  exact (X24_blocked_questions_get_the_block_record splitAtLastColon
           (withMode "redirect") ∅ None upstreamUp twoQuestions adsManager
           {| Name := "ads.example.com."; Qtype := TypeA; Qclass := ClassINET |}
           ltac:(discriminate) eq_refl).
Defined.

(** X25.  The handler exchanges the whole request with the configured
    upstream server (1.1.1.1:53 when none is configured) once for every
    question in front of the first blocked one, and not at all for the
    blocked question or the questions after it. *)
Theorem X25_one_exchange_for_each_allowed_question
    (SplitHostPort : string -> option (string * string)) (config : Config)
    (ipMACCache : IPToMACCache) (am : option AccountManager) (w : World)
    (r : Msg) (bm : BlocklistManager) :
  let blocked := fun q => isBlockedFor SplitHostPort ipMACCache am w bm (matchName q) in
  exchangesOf (handle SplitHostPort config ipMACCache am w r bm).2
  = replicate (allowedPrefix blocked (Questions r))
              (EvExchange r (if String.eqb (Upstream config) ""
                             then "1.1.1.1:53" else Upstream config)).
Proof. cbv zeta. unfold handle. apply ServeFacts.serve_exchanges. Qed.

(** X26.  Serving a message leaves the lists and the compiled patterns
    of the manager as they are, so the decisions stay the same; the count
    of queries grows by the number of questions recorded, and the count of
    blocked queries by one exactly when a question was blocked (both as
    [int]s). *)
Theorem X26_serving_changes_the_counters_only
    (SplitHostPort : string -> option (string * string)) (config : Config)
    (ipMACCache : IPToMACCache) (am : option AccountManager) (w : World)
    (r : Msg) (bm : BlocklistManager) :
  isInt (queries bm) ->
  let bm' := (handle SplitHostPort config ipMACCache am w r bm).1 in
  let tr := (handle SplitHostPort config ipMACCache am w r bm).2 in
  lists bm' = lists bm /\ compiled bm' = compiled bm /\
  (forall name, IsBlocked bm' name = IsBlocked bm name) /\
  queries bm' = wrap64 (queries bm + Z.of_nat (countRecords tr)) /\
  blockedQueries bm' =
    (if synthesized tr then incr (blockedQueries bm) else blockedQueries bm).
Proof.
  intros Hint. cbv zeta. unfold handle.
  destruct (ServeFacts.serve_manager SplitHostPort config ipMACCache am w r
              (Questions r) 0 (setAuthoritative (SetReply emptyMsg r) true) bm)
    as (Hl & Hc & Hq & Hb).
  cbv zeta in Hl, Hc, Hq, Hb.
  split; [exact Hl|]. split; [exact Hc|]. split.
  - intros name. unfold IsBlocked. by rewrite Hc.
  - split; [|exact Hb]. rewrite Hq. by apply ServeFacts.iter_incr.
Qed.

Lemma X26_serving_witness :
  let bm' := (handle splitAtLastColon (withMode "redirect") ∅ None upstreamUp
                twoQuestions adsManager).1 in
  lists bm' = lists adsManager /\ queries bm' = 2%Z /\ blockedQueries bm' = 1%Z.
Proof.
  destruct (X26_serving_changes_the_counters_only splitAtLastColon
              (withMode "redirect") ∅ None upstreamUp twoQuestions adsManager
              ltac:(unfold isInt; cbn; lia))
    as (Hl & _ & _ & Hq & Hb).
  split; [exact Hl|]. split; [exact Hq|exact Hb].
Defined.

(** X27.  A binding made by [SetIPMAC] for the address of a client, with
    a MAC address that is not empty, sends the questions of that client to
    the per-device check whenever an account manager is present, and to
    the global check when there is none; a binding to the empty MAC
    address leaves the client on the global check; the bindings of other
    addresses stay as they are. *)
Theorem X27_a_binding_selects_the_device_check
    (SplitHostPort : string -> option (string * string))
    (c : IPToMACCache) (a : AccountManager) (w : World)
    (bm : BlocklistManager) (name mac : string) :
  let ip := GetClientIP SplitHostPort (clientAddrOf w) in
  (mac <> EmptyString ->
   isBlockedFor SplitHostPort (SetIPMAC c ip mac) (Some a) w bm name
   = IsBlockedForUser bm name mac a) /\
  isBlockedFor SplitHostPort (SetIPMAC c ip mac) None w bm name
  = IsBlocked bm name /\
  isBlockedFor SplitHostPort (SetIPMAC c ip EmptyString) (Some a) w bm name
  = IsBlocked bm name /\
  (forall other, other <> ip -> GetMAC (SetIPMAC c ip mac) other = GetMAC c other).
Proof.
  unfold isBlockedFor, GetMAC, SetIPMAC, IPToMACCache in *. cbv zeta.
  rewrite !lookup_insert_eq. cbn [fst].
  split; [|split; [done|split; [done|]]].
  - intros Hm%String.eqb_neq. by rewrite Hm.
  - intros other Hne. by rewrite lookup_insert_ne.
Qed.

(** ** The earlier front-ends *)

(** X28.  The front-end of [dnsserver.go] that knows the blocking modes
    does what the account-aware front-end does without an account manager,
    whatever the device bindings are: the same events and the same
    manager.  The first front-end, which always answers with the null
    route and asks 1.1.1.1:53, does what the second does under every mode
    but [redirect] and [nx] with that upstream server (or none)
    configured. *)
Theorem X28_the_front_ends_agree
    (SplitHostPort : string -> option (string * string)) (config : Config)
    (ipMACCache : IPToMACCache) (w : World) (r : Msg) (bm : BlocklistManager) :
  DNSGlobal.handleModes config w r bm
  = handle SplitHostPort config ipMACCache None w r bm /\
  (BlockingMode config <> "redirect" -> BlockingMode config <> "nx" ->
   Upstream config = EmptyString \/ Upstream config = "1.1.1.1:53" ->
   DNSGlobal.handleNull w r bm = DNSGlobal.handleModes config w r bm).
Proof.
  split.
  - apply VersionFacts.serveModes_serve.
  - intros H1 H2 Hup. by apply VersionFacts.serveNull_serveModes.
Qed.

(** ** The identification of a client of the API *)

(** X29.  [normalizeMACAddress] is a normal form: applying it twice is
    applying it once; its result is in lower case and is either six groups
    of two characters joined by colons, none of the twelve a separator, or
    a text without separators whose length is not 12; and it depends only
    on the characters of the address that are not separators ([-], [:],
    [.]), without regard to case.  No character is checked for being a
    hexadecimal digit. *)
Theorem X29_normalizeMACAddress_is_a_normal_form (mac : string) :
  let out := ClientMAC.normalizeMACAddress mac in
  ClientMAC.normalizeMACAddress out = out /\
  ToLower out = out /\
  (sixGroups out \/
   (allChars notSeparator out = true /\ String.length out <> 12)) /\
  (forall other, bare other = bare mac ->
                 ClientMAC.normalizeMACAddress other = out).
Proof.
  cbv zeta. split; [apply ClientFacts.normalizeMACAddress_idem|].
  split; [apply ClientFacts.normalizeMACAddress_lower|].
  split; [apply ClientFacts.normalizeMACAddress_form|].
  intros other Hb. by rewrite !ClientFacts.normalizeMACAddress_bare, Hb.
Qed.

(** X30.  [GetClientMAC] trusts the header [X-Client-MAC]: when it is
    set, the result is its normal form, whatever the addresses of the
    request are.  Otherwise the result is never a MAC address, since the
    ARP lookup fails on every path: it is [ip:] followed by the client
    address, or an error when that address is empty.  The client address
    is the trimmed first element of [X-Forwarded-For] when that header is
    set (it holds no comma, and [X-Real-IP] and the remote address are not
    looked at), else [X-Real-IP], else the host of the remote address. *)
Theorem X30_GetClientMAC_never_looks_up_an_address
    (SplitHostPort : string -> option (string * string)) (IP : Type)
    (ParseIP : string -> option IP)
    (Interfaces : option (list (ClientMAC.Interface IP)))
    (r : ClientMAC.Request) :
  let told := ClientMAC.HeaderGet r "X-Client-MAC" in
  let xff := ClientMAC.HeaderGet r "X-Forwarded-For" in
  let clientIP := ClientMAC.getClientIP SplitHostPort r in
  (forall ip, (ClientMAC.getMACFromARP IP ParseIP Interfaces ip).2 <> None) /\
  ClientMAC.GetClientMAC SplitHostPort IP ParseIP Interfaces r
  = (if negb (String.eqb told "") then (ClientMAC.normalizeMACAddress told, None)
     else if String.eqb clientIP "" then (EmptyString, Some ClientMAC.ErrNoClientIP)
     else ("ip:" +:+ clientIP, None)) /\
  (xff <> EmptyString ->
   allChars (isNot ","%char) clientIP = true /\
   TrimSpace clientIP = clientIP /\
   forall r', ClientMAC.HeaderGet r' "X-Forwarded-For" = xff ->
              ClientMAC.getClientIP SplitHostPort r' = clientIP).
Proof.
  cbv zeta.
  assert (Harp : forall ip,
             (ClientMAC.getMACFromARP IP ParseIP Interfaces ip).2 <> None).
  { intros ip. unfold ClientMAC.getMACFromARP.
    destruct (ParseIP ip); [|done]. destruct Interfaces; [|done].
    by destruct (existsb _ _). }
  split; [exact Harp|]. split.
  - unfold ClientMAC.GetClientMAC. cbv zeta.
    destruct (negb (String.eqb (ClientMAC.HeaderGet r "X-Client-MAC") "")); [done|].
    destruct (String.eqb (ClientMAC.getClientIP SplitHostPort r) ""); [done|].
    specialize (Harp (ClientMAC.getClientIP SplitHostPort r)).
    by destruct (ClientMAC.getMACFromARP _ _ _ _) as [mac [e|]].
  - intros Hx%String.eqb_neq. unfold ClientMAC.getClientIP. cbv zeta.
    rewrite Hx. cbn [negb].
    destruct (ClientFacts.Split_first (ClientMAC.HeaderGet r "X-Forwarded-For") ","%char)
      as (p & ps & Hs & Hp).
    rewrite Hs. split; [by apply TokenFacts.allChars_TrimSpace|].
    split; [apply StringFacts.TrimSpace_idem|].
    intros r' ->. by rewrite Hx, Hs.
Qed.

(** The two cases on sample requests: a request that tells a MAC address
    is believed, and a request that passed a proxy is known by the first
    address of [X-Forwarded-For]. *)
Example GetClientMAC_on_sample_requests :
  ClientMAC.GetClientMAC splitAtLastColon unit (fun _ => Some tt) (Some [])
    tellingRequest
  = ("aa:bb:cc:dd:ee:ff", None) /\
  ClientMAC.GetClientMAC splitAtLastColon unit (fun _ => Some tt) (Some [])
    proxiedRequest
  = ("ip:10.0.0.7", None).
Proof. split; by vm_compute. Qed.
